(** * claudecodeui: the agent gateway, its environment store, session logs,
      project registry and path sandbox

    A shallow embedding of the TypeScript services of the repository
    (claudeEnvMemory.ts, claudeCliService.ts, sessionManagerNew.ts,
    projectDiscovery.ts, projectConfig.ts, fileOperations.ts) and the
    properties the specification states about them.

    Conventions.  A JavaScript string is a [string] holding its UTF-8
    bytes; a [Map<string, V>] or a plain object used as a dictionary is a
    [gmap string V]; an optional field is an [option]; a value produced
    by [JSON.parse] is a [json] tree, and a field read from it is of any
    type whatever the TypeScript annotation says.  [JSON.parse], [Date]
    parsing and the clock are library or environment services: they are
    Section variables or explicit arguments.  A file that a directory
    lists can be read, and the configuration file can be read and
    written; where the answer of a function is decided by its own
    handling of a file-system error (reading one file, saving one,
    emptying a directory), what the file system does is an argument.
    Mutable module-level state (the env store, the live-process map, the
    directory cache, the files on disk) is passed explicitly. *)

From Stdlib Require Import ZArith Ascii String List Lia Bool DecimalString Sorted.
From stdpp Require Import base gmap strings list option.

Local Open Scope string_scope.
Local Open Scope list_scope.
Local Open Scope Z_scope.

(** ** JavaScript string and JSON helpers *)

Module JS.

(** *** Strings

    A JavaScript string is modelled by its UTF-8 encoding, one [ascii]
    per byte: the encoding is one-to-one on well-formed strings, and
    searching, splitting and joining at ASCII characters commute with it.
    White space and line terminators outside ASCII are recognised by
    their byte sequences. *)

Definition byteIs (n : nat) (c : ascii) : bool := (nat_of_ascii c =? n)%nat.

Definition byteIn (lo hi : nat) (c : ascii) : bool :=
  ((lo <=? nat_of_ascii c) && (nat_of_ascii c <=? hi))%nat.

(** ECMAScript WhiteSpace and LineTerminator code points of one byte:
    TAB, LF, VT, FF, CR and SPACE. *)
Definition is_ws (c : ascii) : bool :=
  let n := nat_of_ascii c in
  ((9 <=? n)%nat && (n <=? 13)%nat) || (n =? 32)%nat.

(** Of two bytes: U+00A0, the no-break space. *)
Definition is_ws2 (a b : ascii) : bool := byteIs 194 a && byteIs 160 b.

(** Of three bytes: U+1680; U+2000 to U+200A, the line and paragraph
    separators U+2028 and U+2029, and U+202F; U+205F; U+3000; and the
    byte order mark U+FEFF. *)
Definition is_ws3 (a b c : ascii) : bool :=
  (byteIs 225 a && byteIs 154 b && byteIs 128 c)
  || (byteIs 226 a && byteIs 128 b
      && (byteIn 128 138 c || byteIs 168 c || byteIs 169 c || byteIs 175 c))
  || (byteIs 226 a && byteIs 129 b && byteIs 159 c)
  || (byteIs 227 a && byteIs 128 b && byteIs 128 c)
  || (byteIs 239 a && byteIs 187 b && byteIs 191 c).

(** [s.trim() === '']: the string consists of white space and line
    terminators. *)
Fixpoint blank (s : string) : bool :=
  match s with
  | EmptyString => true
  | String a s1 =>
      if is_ws a then blank s1
      else
        match s1 with
        | EmptyString => false
        | String b s2 =>
            if is_ws2 a b then blank s2
            else
              match s2 with
              | EmptyString => false
              | String c s3 => is_ws3 a b c && blank s3
              end
        end
  end.

(** [s.trimStart()] *)
Fixpoint trimStart (s : string) : string :=
  match s with
  | EmptyString => EmptyString
  | String a s1 =>
      if is_ws a then trimStart s1
      else
        match s1 with
        | EmptyString => s
        | String b s2 =>
            if is_ws2 a b then trimStart s2
            else
              match s2 with
              | EmptyString => s
              | String c s3 => if is_ws3 a b c then trimStart s3 else s
              end
        end
  end.

Fixpoint rev_string (acc s : string) : string :=
  match s with
  | EmptyString => acc
  | String c s' => rev_string (String c acc) s'
  end.

(** [trimStart] on a reversed string: the bytes of a code point come
    last byte first. *)
Fixpoint trimStartReversed (s : string) : string :=
  match s with
  | EmptyString => EmptyString
  | String c s1 =>
      if is_ws c then trimStartReversed s1
      else
        match s1 with
        | EmptyString => s
        | String b s2 =>
            if is_ws2 b c then trimStartReversed s2
            else
              match s2 with
              | EmptyString => s
              | String a s3 => if is_ws3 a b c then trimStartReversed s3 else s
              end
        end
  end.

(** [s.trim()] *)
Definition trim (s : string) : string :=
  rev_string "" (trimStartReversed (rev_string "" (trimStart s))).

(** Truthiness of a string that may be [undefined]. *)
Definition truthy (o : option string) : bool :=
  match o with
  | Some s => negb (String.eqb s "")
  | None => false
  end.

(** [s.startsWith(p)] *)
Definition startsWith (p s : string) : bool := String.prefix p s.

(** [s.endsWith(p)] *)
Definition endsWith (p s : string) : bool :=
  String.prefix (rev_string "" p) (rev_string "" s).

(** [s.includes(p)] *)
Fixpoint includes (p s : string) : bool :=
  String.prefix p s ||
  match s with
  | EmptyString => false
  | String _ s' => includes p s'
  end.

(** [s.split('\n')]: never empty, ["".split('\n')] is [[""]]. *)
Fixpoint split_nl (s : string) : list string :=
  match s with
  | EmptyString => [EmptyString]
  | String c s' =>
      if Ascii.eqb c "010"%char then EmptyString :: split_nl s'
      else match split_nl s' with
           | [] => [String c EmptyString]
           | l :: ls => String c l :: ls
           end
  end.

(** A byte put in front of the first of the lines. *)
Definition prepend (c : ascii) (lines : list string) : list string :=
  match lines with
  | [] => [String c EmptyString]
  | l :: ls => String c l :: ls
  end.

(** The lines [readline] yields from a stream (with [crlfDelay:
    Infinity]): a line ends at a line feed, at a carriage return followed
    by a line feed, at a carriage return alone, and at the line and
    paragraph separators U+2028 and U+2029.  The empty line after a
    final line end is listed here and not by [readline]; the callers
    skip blank lines. *)
Fixpoint readlineLines (s : string) : list string :=
  match s with
  | EmptyString => [EmptyString]
  | String a s1 =>
      if byteIs 10 a then EmptyString :: readlineLines s1
      else if byteIs 13 a then
        match s1 with
        | String b s2 =>
            if byteIs 10 b then EmptyString :: readlineLines s2
            else EmptyString :: readlineLines s1
        | EmptyString => EmptyString :: readlineLines s1
        end
      else
        match s1 with
        | String b (String c s3) =>
            if byteIs 226 a && byteIs 128 b && (byteIs 168 c || byteIs 169 c)
            then EmptyString :: readlineLines s3
            else prepend a (readlineLines s1)
        | _ => prepend a (readlineLines s1)
        end
  end.

(** [parts.join(sep)] *)
Definition join (sep : string) (parts : list string) : string :=
  String.concat sep parts.

Definition NL : string := String "010"%char EmptyString.

(** [s.replace(/a/g, b)] for single characters. *)
Fixpoint replace_char (a b : ascii) (s : string) : string :=
  match s with
  | EmptyString => EmptyString
  | String c s' => String (if Ascii.eqb c a then b else c) (replace_char a b s')
  end.


(** [list.sort((a, b) => key(b) - key(a))]: descending, stable. *)
Fixpoint insertDesc {A} (key : A -> Z) (x : A) (sorted : list A) : list A :=
  match sorted with
  | [] => [x]
  | y :: rest => if key x <? key y then y :: insertDesc key x rest else x :: sorted
  end.

Definition sortDesc {A} (key : A -> Z) (l : list A) : list A :=
  foldr (insertDesc key) [] l.

(** What [JSON.parse] returns.  Numbers are restricted to integers: the
    code below only tests numbers for truthiness and reads them as epoch
    milliseconds. *)
#[local] Unset Elimination Schemes.
Inductive json : Type :=
  | JNull
  | JBool (b : bool)
  | JNum (n : Z)
  | JStr (s : string)
  | JArr (items : list json)
  | JObj (fields : list (string * json)).
#[local] Set Elimination Schemes.

Lemma json_eq_dec : forall a b : json, {a = b} + {a <> b}.
Proof.
  fix IH 1. intros a b. destruct a as [|x|x|x|xs|xs], b as [|y|y|y|ys|ys];
    try (right; discriminate); try (left; reflexivity).
  - destruct (Bool.bool_dec x y) as [->|Hne]; [by left | right; congruence].
  - destruct (Z.eq_dec x y) as [->|Hne]; [by left | right; congruence].
  - destruct (string_dec x y) as [->|Hne]; [by left | right; congruence].
  - destruct (List.list_eq_dec IH xs ys) as [->|Hne]; [by left | right; congruence].
  - assert (Hpair : forall p q : string * json, {p = q} + {p <> q}).
    { intros [k v] [k' v']. destruct (string_dec k k') as [->|Hk]; [|right; congruence].
      destruct (IH v v') as [->|Hv]; [by left | right; congruence]. }
    destruct (List.list_eq_dec Hpair xs ys) as [->|Hne]; [by left | right; congruence].
Defined.

#[export] Instance json_eq_decision : EqDecision json := json_eq_dec.

Fixpoint assoc (k : string) (fields : list (string * json)) : option json :=
  match fields with
  | [] => None
  | (k', v) :: rest => if String.eqb k k' then Some v else assoc k rest
  end.

(** [v.k] for a value [v] that is not [null]: the field of an object,
    [undefined] (here [None]) on anything else. *)
Definition get (k : string) (v : json) : option json :=
  match v with
  | JObj fields => assoc k fields
  | _ => None
  end.

(** JavaScript truthiness of a field that may be [undefined]. *)
Definition truthy_json (o : option json) : bool :=
  match o with
  | None | Some JNull => false
  | Some (JBool b) => b
  | Some (JNum n) => negb (n =? 0)
  | Some (JStr s) => negb (String.eqb s "")
  | Some (JArr _) | Some (JObj _) => true
  end.

(** An array or an object: a value that is compared by reference. *)
Definition isRef (v : json) : bool :=
  match v with JArr _ | JObj _ => true | _ => false end.

(** SameValueZero, the comparison of [Map] keys, of two values that were
    read at different places: primitives by value; an array or an object
    is a reference, which equals no other.  (Numbers are integers, so
    there is no NaN and no negative zero.) *)
Definition sameValueZero (a b : json) : bool :=
  match a, b with
  | JNull, JNull => true
  | JBool x, JBool y => Bool.eqb x y
  | JNum x, JNum y => x =? y
  | JStr x, JStr y => String.eqb x y
  | _, _ => false
  end.

(** [v.k === s] for a string [s]. *)
Definition field_is (k s : string) (v : json) : bool :=
  match get k v with
  | Some (JStr s') => String.eqb s' s
  | _ => false
  end.

(** [JSON.stringify] for values whose strings need no escaping. *)
Definition DQ : string := String "034"%char EmptyString.

Fixpoint stringify (v : json) : string :=
  match v with
  | JNull => "null"
  | JBool b => if b then "true" else "false"
  | JNum n => NilZero.string_of_int (Z.to_int n)
  | JStr s => DQ +:+ s +:+ DQ
  | JArr items => "[" +:+ join "," (map stringify items) +:+ "]"
  | JObj fields =>
      "{" +:+ join "," (map (fun kv => let '(k, x) := kv in
                                       DQ +:+ k +:+ DQ +:+ ":" +:+ stringify x) fields)
          +:+ "}"
  end.

(** A flat object of string fields. *)
Definition objectOf (fields : list (string * string)) : json :=
  JObj (map (fun kv => (kv.1, JStr kv.2)) fields).

(** A parser for the examples: it knows the texts of the listed values,
    as [JSON.stringify] prints them, and reports every other line as
    malformed; the examples only feed it such texts and lines that are
    not JSON. *)
Definition tableParse (table : list json) (line : string) : option json :=
  List.find (fun v => String.eqb (stringify v) line) table.

(** *** [blank] is [trim] giving the empty string *)

Lemma append_nil (s : string) : "" +:+ s = s.
Proof. reflexivity. Qed.

Lemma append_cons c (a b : string) : String c a +:+ b = String c (a +:+ b).
Proof. reflexivity. Qed.

Lemma append_empty_r (s : string) : s +:+ "" = s.
Proof. induction s as [|x s IH]; [done|]. by rewrite append_cons, IH. Qed.

Lemma append_assoc (a b c : string) : (a +:+ b) +:+ c = a +:+ (b +:+ c).
Proof. induction a as [|x a IH]; [done|]. by rewrite !append_cons, IH. Qed.

Lemma rev_string_append (a b acc : string) :
  rev_string acc (a +:+ b) = rev_string (rev_string acc a) b.
Proof. revert acc. induction a as [|c a IH]; intros acc; [done|]. cbn. apply IH. Qed.

Lemma rev_string_acc (acc s : string) : rev_string acc s = rev_string "" s +:+ acc.
Proof.
  revert acc. induction s as [|c s IH]; intros acc; [done|].
  cbn [rev_string]. rewrite (IH (String c acc)), (IH (String c "")).
  by rewrite append_assoc.
Qed.

Lemma rev_string_involutive (s : string) : rev_string "" (rev_string "" s) = s.
Proof.
  assert (H : forall t acc, rev_string acc (rev_string "" t) = t +:+ acc).
  { induction t as [|c t IH]; intros acc; [done|].
    cbn [rev_string]. rewrite (rev_string_acc (String c "")), rev_string_append, IH.
    by rewrite append_cons. }
  by rewrite H, append_empty_r.
Qed.

Lemma is_ws2_head a b : is_ws2 a b = true -> is_ws a = false.
Proof.
  unfold is_ws2, is_ws, byteIs. intros [Ha _]%andb_prop. apply Nat.eqb_eq in Ha.
  by rewrite Ha.
Qed.

Lemma is_ws3_head a b c : is_ws3 a b c = true -> is_ws a = false /\ is_ws2 a b = false.
Proof.
  unfold is_ws3, is_ws2, is_ws, byteIs. intros H.
  repeat (apply orb_prop in H as [H|H]);
    repeat (apply andb_prop in H as [H ?]); apply Nat.eqb_eq in H; by rewrite H.
Qed.

(** Strings of at most [n] bytes, for inductions that follow the code
    points. *)
Lemma string_length_ind (P : string -> Prop) :
  (forall s, (forall t, (String.length t < String.length s)%nat -> P t) -> P s) ->
  forall s, P s.
Proof.
  intros H s. remember (String.length s) as n eqn:Hn.
  revert s Hn. induction (lt_wf n) as [n _ IH]. intros s ->.
  apply H. intros t Ht. by apply (IH (String.length t)).
Qed.

Lemma blank_trimStart (s : string) : blank s = String.eqb (trimStart s) "".
Proof.
  induction s as [s IH] using string_length_ind.
  destruct s as [|a [|b [|c s3]]]; [done|..]; cbn [blank trimStart].
  - destruct (is_ws a); done.
  - destruct (is_ws a); [apply (IH (String b "")); cbn; lia|].
    destruct (is_ws2 a b); done.
  - destruct (is_ws a); [apply (IH (String b (String c s3))); cbn; lia|].
    destruct (is_ws2 a b); [apply (IH (String c s3)); cbn; lia|].
    destruct (is_ws3 a b c); [apply (IH s3); cbn; lia | done].
Qed.

Lemma trimStart_idempotent (s : string) : trimStart (trimStart s) = trimStart s.
Proof.
  induction s as [s IH] using string_length_ind.
  destruct s as [|a [|b [|c s3]]]; [done|..]; cbn [trimStart].
  - destruct (is_ws a) eqn:Ha; [done|]. cbn [trimStart]. by rewrite Ha.
  - destruct (is_ws a) eqn:Ha; [apply (IH (String b "")); cbn; lia|].
    destruct (is_ws2 a b) eqn:Hab; [done|]. cbn [trimStart]. by rewrite Ha, Hab.
  - destruct (is_ws a) eqn:Ha; [apply (IH (String b (String c s3))); cbn; lia|].
    destruct (is_ws2 a b) eqn:Hab; [apply (IH (String c s3)); cbn; lia|].
    destruct (is_ws3 a b c) eqn:Habc; [apply (IH s3); cbn; lia|].
    cbn [trimStart]. by rewrite Ha, Hab, Habc.
Qed.

Lemma blank_append (x y : string) : blank x = true -> blank (x +:+ y) = blank y.
Proof.
  induction x as [x IH] using string_length_ind.
  destruct x as [|a [|b [|c x3]]]; [done|..]; cbn [blank].
  - destruct (is_ws a) eqn:Ha; [|done]. intros _.
    change (String a "" +:+ y) with (String a y). cbn [blank]. by rewrite Ha.
  - destruct (is_ws a) eqn:Ha.
    + intros H. change (String a (String b "") +:+ y) with (String a (String b "" +:+ y)).
      cbn [blank]. rewrite Ha. apply IH; [cbn; lia | done].
    + destruct (is_ws2 a b) eqn:Hab; [|done]. intros _.
      change (String a (String b "") +:+ y) with (String a (String b y)).
      cbn [blank]. by rewrite Ha, Hab.
  - destruct (is_ws a) eqn:Ha.
    + intros H.
      change (String a (String b (String c x3)) +:+ y)
        with (String a (String b (String c x3) +:+ y)).
      cbn [blank]. rewrite Ha. apply IH; [cbn; lia | done].
    + destruct (is_ws2 a b) eqn:Hab.
      * intros H.
        change (String a (String b (String c x3)) +:+ y)
          with (String a (String b (String c x3 +:+ y))).
        cbn [blank]. rewrite Ha, Hab. apply IH; [cbn; lia | done].
      * intros [Habc H]%andb_prop.
        change (String a (String b (String c x3)) +:+ y)
          with (String a (String b (String c (x3 +:+ y)))).
        cbn [blank]. rewrite Ha, Hab, Habc. apply IH; [cbn; lia | done].
Qed.

Lemma rev_string_cons c (s : string) :
  rev_string "" (String c s) = rev_string "" s +:+ String c "".
Proof. cbn [rev_string]. apply rev_string_acc. Qed.

Lemma blank_ws1 c : is_ws c = true -> blank (String c "") = true.
Proof. intros H. cbn. by rewrite H. Qed.

Lemma blank_ws2 b c : is_ws2 b c = true -> blank (String b (String c "")) = true.
Proof. intros H. cbn. by rewrite (is_ws2_head _ _ H), H. Qed.

Lemma blank_ws3 a b c :
  is_ws3 a b c = true -> blank (String a (String b (String c ""))) = true.
Proof. intros H. destruct (is_ws3_head _ _ _ H) as [Ha Hab]. cbn. by rewrite Ha, Hab, H. Qed.

(** What [trimStartReversed] removes entirely is white space. *)
Lemma trimStartReversed_blank (r : string) :
  trimStartReversed r = "" -> blank (rev_string "" r) = true.
Proof.
  induction r as [r IH] using string_length_ind.
  destruct r as [|c s1]; [done|].
  change (trimStartReversed (String c s1))
    with (if is_ws c then trimStartReversed s1
          else match s1 with
               | EmptyString => String c s1
               | String b s2 =>
                   if is_ws2 b c then trimStartReversed s2
                   else match s2 with
                        | EmptyString => String c s1
                        | String a s3 =>
                            if is_ws3 a b c then trimStartReversed s3 else String c s1
                        end
               end).
  destruct (is_ws c) eqn:Hc.
  { intros H. rewrite rev_string_cons, blank_append; [by apply blank_ws1|].
    apply IH; [cbn; lia | done]. }
  destruct s1 as [|b s2]; [done|].
  destruct (is_ws2 b c) eqn:Hbc.
  { intros H. rewrite !rev_string_cons, append_assoc, blank_append; [by apply blank_ws2|].
    apply IH; [cbn; lia | done]. }
  destruct s2 as [|a s3]; [done|].
  destruct (is_ws3 a b c) eqn:Habc; [|done].
  intros H. rewrite !rev_string_cons, !append_assoc, blank_append; [by apply blank_ws3|].
  apply IH; [cbn; lia | done].
Qed.

Lemma rev_string_nil (s : string) : rev_string "" s = "" -> s = "".
Proof.
  intros H. apply (f_equal (rev_string "")) in H. by rewrite rev_string_involutive in H.
Qed.

(** [blank] decides whether [trim] leaves nothing. *)
Lemma blank_trim (s : string) : blank s = String.eqb (trim s) "".
Proof.
  rewrite blank_trimStart. unfold trim.
  destruct (String.eqb_spec (trimStart s) "") as [->|Hne]; [done|].
  symmetry. apply String.eqb_neq. intros H. apply Hne.
  apply rev_string_nil, trimStartReversed_blank in H.
  rewrite rev_string_involutive, blank_trimStart, trimStart_idempotent in H.
  by apply String.eqb_eq in H.
Qed.

End JS.

(** ** The in-memory environment store (claudeEnvMemory.ts) *)

Module EnvStore.

Record ClaudeEnvVar : Type := mkEnvVar {
  key : string;
  value : string;
  description : option string;
  created_at : string;
  updated_at : string
}.

(** [claudeEnvStore]: a [Map<string, ClaudeEnvVar>]. *)
Abbreviation Store := (gmap string ClaudeEnvVar).

(** [setClaudeEnvVar(key, value, description)]; [now] is the reading of
    [new Date().toISOString()].  The function has no [throw] and no guard:
    it always returns the variable it stored. *)
Definition setClaudeEnvVar (now : string) (k v : string) (d : option string)
    (st : Store) : ClaudeEnvVar * Store :=
  let existing := st !! k in
  let envVar :=
    {| key := k; value := v; description := d;
       created_at :=
         match existing with
         | Some e => if String.eqb (created_at e) "" then now else created_at e
         | None => now
         end;
       updated_at := now |} in
  (envVar, <[k := envVar]> st).

(** [deleteClaudeEnvVar(key)] *)
Definition deleteClaudeEnvVar (k : string) (st : Store) : bool * Store :=
  (bool_decide (is_Some (st !! k)), delete k st).

(** [bulkUpdateClaudeEnvVars(envVars)]: [envVars] is the list of
    [Object.entries]; entries with an empty key are skipped. *)
Fixpoint bulkUpdateClaudeEnvVars (now : string) (envVars : list (string * string))
    (st : Store) : list ClaudeEnvVar * Store :=
  match envVars with
  | [] => ([], st)
  | (k, v) :: rest =>
      if negb (String.eqb k "") then
        let '(envVar, st1) := setClaudeEnvVar now k v None st in
        let '(results, st2) := bulkUpdateClaudeEnvVars now rest st1 in
        (envVar :: results, st2)
      else bulkUpdateClaudeEnvVars now rest st
  end.

(** [getClaudeEnvAsRecord()]: every key with its value, unmasked. *)
Definition getClaudeEnvAsRecord (st : Store) : gmap string string :=
  value <$> st.

(** *** Properties *)

Lemma setClaudeEnvVar_lookup now k v d st :
  (setClaudeEnvVar now k v d st).2 !! k = Some (setClaudeEnvVar now k v d st).1.
Proof. cbn. by rewrite lookup_insert_eq. Qed.

Lemma setClaudeEnvVar_other now k v d st k' :
  k ≠ k' -> (setClaudeEnvVar now k v d st).2 !! k' = st !! k'.
Proof. intros Hne. cbn. by rewrite lookup_insert_ne. Qed.

Lemma bulkUpdateClaudeEnvVars_empty_key now (envVars : list (string * string)) (st : Store) :
  (bulkUpdateClaudeEnvVars now envVars st).2 !! "" = st !! "".
Proof.
  revert st. induction envVars as [|[k v] envVars IH]; intros st; [done|].
  cbn [bulkUpdateClaudeEnvVars]. destruct (String.eqb_spec k "") as [->|Hne]; cbn [negb].
  - apply IH.
  - destruct (setClaudeEnvVar now k v None st) as [envVar st1] eqn:Hset.
    specialize (IH st1).
    destruct (bulkUpdateClaudeEnvVars now envVars st1) as [results st2]. cbn [snd] in *.
    rewrite IH. replace st1 with (setClaudeEnvVar now k v None st).2 by (by rewrite Hset).
    by apply setClaudeEnvVar_other.
Qed.

(** C9, on the code: [set] with the empty key does not fail and does
    not leave the store unchanged.  It returns the variable built from
    its arguments and stores it under the empty string, whatever the
    value, the description and the store, so a store without such an
    entry has one afterwards; no other key changes.  The sibling
    [bulkSet] guards against the empty key: no bulk request creates or
    changes the entry of the empty string. *)
Theorem C9_set_empty_key_stored (now v : string) (d : option string) (st : Store) :
  let r := setClaudeEnvVar now "" v d st in
  key r.1 = "" /\ value r.1 = v /\ description r.1 = d /\ updated_at r.1 = now
  /\ r.2 !! "" = Some r.1
  /\ (st !! "" = None -> r.2 ≠ st)
  /\ (forall k, k ≠ "" -> r.2 !! k = st !! k)
  /\ (forall envVars, (bulkUpdateClaudeEnvVars now envVars st).2 !! "" = st !! "").
Proof.
  intros r. split; [done|]. split; [done|]. split; [done|]. split; [done|].
  split; [apply setClaudeEnvVar_lookup|]. split.
  - intros Hnone Heq. pose proof (setClaudeEnvVar_lookup now "" v d st) as Hl.
    fold r in Hl. rewrite Heq, Hnone in Hl. discriminate Hl.
  - split; [intros k Hk; by apply setClaudeEnvVar_other|].
    intros envVars. apply bulkUpdateClaudeEnvVars_empty_key.
Qed.

End EnvStore.

(** ** The agent runner (claudeCliService.ts) *)

Module Runner.

Import JS.


Record ToolsSettings : Type := mkTools {
  allowedTools : option (list string);
  disallowedTools : option (list string);
  skipPermissions : bool
}.

Record ClaudeSpawnOptions : Type := mkOptions {
  sessionId : option string;
  resume : bool;
  toolsSettings : option ToolsSettings;
  permissionMode : option string;
  env : option (gmap string string)
}.

(** *** Environment construction (spawnClaude, lines 315-348) *)

Definition essentialVars : list string :=
  ["PATH"; "HOME"; "USER"; "SHELL"; "TERM"; "TMPDIR"; "LANG"; "LC_ALL"].

(** [Object.assign(target, source)] on string records. *)
Definition Object_assign (target source : gmap string string) : gmap string string :=
  source ∪ target.

(** The loop over [essentialVars]: [if (process.env[key]) claudeEnv[key] = process.env[key]]. *)
Definition inheritStep (process_env claudeEnv : gmap string string) (k : string)
    : gmap string string :=
  match process_env !! k with
  | Some v => if truthy (Some v) then <[k := v]> claudeEnv else claudeEnv
  | None => claudeEnv
  end.

Definition inheritEssential (process_env : gmap string string) : gmap string string :=
  foldl (inheritStep process_env) ∅ essentialVars.

(** The [env] option handed to [spawn]. *)
Definition claudeEnv (process_env : gmap string string) (store : EnvStore.Store)
    (options : ClaudeSpawnOptions) : gmap string string :=
  let e0 := inheritEssential process_env in
  let e1 := Object_assign e0 (EnvStore.getClaudeEnvAsRecord store) in
  match env options with
  | Some extra => Object_assign e1 extra
  | None => e1
  end.


(** *** Argument assembly (checkMcpConfig, buildClaudeArgs) *)

(** [Object.keys(v).length] *)
Definition keys_length (v : json) : nat :=
  match v with
  | JObj fields => length fields
  | JArr items => length items
  | JStr s => String.length s
  | _ => 0%nat
  end.

(** [o.mcpServers && Object.keys(o.mcpServers).length > 0] *)
Definition hasServers (o : json) : bool :=
  match get "mcpServers" o with
  | Some v => truthy_json (Some v) && (0 <? keys_length v)%nat
  | None => false
  end.

(** [checkMcpConfig()].  [config] is the parsed content of
    [~/.claude.json]: [None] when the file is missing or is not JSON;
    reading a field of [null] throws and is caught, which yields no
    servers.  [configPath] is the path of that file and [process_cwd] the
    server's working directory. *)
Definition checkMcpConfig (configPath : string) (config : option json)
    (process_cwd : string) : option string :=
  match config with
  | None | Some JNull => None
  | Some claudeConfig =>
      let hasGlobal := hasServers claudeConfig in
      let hasProject :=
        match get "claudeProjects" claudeConfig with
        | Some projects =>
            truthy_json (Some projects) &&
            match get process_cwd projects with
            | Some projectConfig =>
                truthy_json (Some projectConfig) && hasServers projectConfig
            | None => false
            end
        | None => false
        end in
      if hasGlobal || hasProject then Some configPath else None
  end.







(** *** The stdout, stderr, close and error handlers, and abort *)

(** The frames sent on the socket.  [sessionId] of [session-created]
    is whatever value the agent's [session_id] held; [exitCode] is
    [null] (here [None]) when the child was ended by a signal. *)
Inductive Frame : Type :=
  | SessionCreated (sessionId : json)
  | ClaudeResponse (data : json)
  | ClaudeOutput (line : string)
  | ClaudeError (error : string)
  | ClaudeComplete (exitCode : option Z) (isNewSession : bool).

(** A key of [activeClaudeProcesses].  The map is declared with string
    keys, and the stdout handler also stores under whatever truthy value
    [session_id] holds.  A [Map] compares keys by SameValueZero:
    strings, numbers and booleans by value, an array or an object by
    reference.  The one reference an invocation ever stores is the value
    it captured, held by that invocation alone: it is named by the
    invocation's child. *)
Inductive Key : Type :=
  | KString (s : string)
  | KNumber (n : Z)
  | KBoolean (b : bool)
  | KObject (owner : nat).

#[global] Instance Key_eq_dec : EqDecision Key.
Proof. solve_decision. Defined.

#[global] Instance Key_countable : Countable Key.
Proof.
  refine (inj_countable'
    (fun k => match k with
              | KString s => inl s
              | KNumber n => inr (inl n)
              | KBoolean b => inr (inr (inl b))
              | KObject r => inr (inr (inr r))
              end)
    (fun x => match x with
              | inl s => KString s
              | inr (inl n) => KNumber n
              | inr (inr (inl b)) => KBoolean b
              | inr (inr (inr r)) => KObject r
              end) _).
  by intros [].
Defined.

Abbreviation Processes := (gmap Key nat).

(** The constants of one invocation: [options.sessionId], [processKey]
    and the child process handle. *)
Record Invocation : Type := mkInvocation {
  inputSessionId : option string;
  processKey : string;
  claudeProcess : nat
}.

(** The state the handlers of one invocation read and write: the closure
    variables [capturedSessionId] and [sessionCreatedSent], the module's
    [activeClaudeProcesses] map, and the frames sent on the socket so
    far, oldest first.  [capturedSessionId] starts as [options.sessionId]
    and is assigned the [session_id] of a parsed object, of any type. *)
Record State : Type := mkState {
  capturedSessionId : option json;
  sessionCreatedSent : bool;
  activeClaudeProcesses : Processes;
  sent : list Frame
}.

Definition ws_send (f : Frame) (st : State) : State :=
  mkState (capturedSessionId st) (sessionCreatedSent st)
          (activeClaudeProcesses st) (sent st ++ [f]).

(** [a || b] on strings that may be [undefined]. *)
Definition orElse (a b : option string) : option string :=
  if truthy a then a else b.

(** The map key a captured value is: itself when it is a primitive, the
    invocation's reference when it is an array or an object.  ([null] is
    never captured: it is falsy.) *)
Definition keyOf (inv : Invocation) (v : json) : Key :=
  match v with
  | JStr s => KString s
  | JNum n => KNumber n
  | JBool b => KBoolean b
  | JNull => KString ""
  | JArr _ | JObj _ => KObject (claudeProcess inv)
  end.

(** Lines 294-352 of [spawnClaude]: the closure variables are
    initialised and the child is stored in the map.  [now] is
    [Date.now().toString()]. *)
Definition spawnRegister (now : string) (sessionId : option string) (child : nat)
    (active : Processes) : Invocation * State :=
  let key := default now (orElse (orElse sessionId sessionId) (Some now)) in
  (mkInvocation sessionId key child,
   mkState (JStr <$> sessionId) false (<[KString key := child]> active) []).



Section Handlers.

(** [JSON.parse]: [None] when it throws. *)
Variable JSON_parse : string -> option json.

(** [capturedSessionId || sessionId || processKey] as a key of the map. *)
Definition finalKey (inv : Invocation) (st : State) : Key :=
  match capturedSessionId st with
  | Some v =>
      if truthy_json (Some v) then keyOf inv v
      else KString (default (processKey inv) (orElse (inputSessionId inv) (Some (processKey inv))))
  | None =>
      KString (default (processKey inv) (orElse (inputSessionId inv) (Some (processKey inv))))
  end.

(** The body of the loop over the lines of a stdout chunk.  A line that
    parses to [null] makes [response.session_id] throw, so it ends in
    the [catch] like a line that does not parse.  [processKey !==
    capturedSessionId] holds unless the captured value is the string
    [processKey]. *)
Definition handleLine (inv : Invocation) (st : State) (line : string) : State :=
  match JSON_parse line with
  | None | Some JNull => ws_send (ClaudeOutput line) st
  | Some response =>
      let st :=
        match get "session_id" response with
        | Some sid =>
            if truthy_json (Some sid) && negb (truthy_json (capturedSessionId st)) then
              let active :=
                if negb (sameValueZero (JStr (processKey inv)) sid) then
                  <[keyOf inv sid := claudeProcess inv]>
                    (delete (KString (processKey inv)) (activeClaudeProcesses st))
                else activeClaudeProcesses st in
              let st := mkState (Some sid) (sessionCreatedSent st) active (sent st) in
              if negb (truthy (inputSessionId inv)) && negb (sessionCreatedSent st) then
                ws_send (SessionCreated sid)
                  (mkState (capturedSessionId st) true (activeClaudeProcesses st) (sent st))
              else st
            else st
        | None => st
        end in
      ws_send (ClaudeResponse response) st
  end.

(** [rawOutput.split('\n').filter(line => line.trim())] *)
Definition stdoutLines (rawOutput : string) : list string :=
  List.filter (fun line => negb (blank line)) (split_nl rawOutput).

(** The [error] handler of the child: the entry is removed and the
    message sent. *)
Definition onError (inv : Invocation) (message : string) (st : State) : State :=
  ws_send (ClaudeError message)
    (mkState (capturedSessionId st) (sessionCreatedSent st)
       (delete (finalKey inv st) (activeClaudeProcesses st)) (sent st)).

(** The data of the child that the handlers see: chunks on stdout and
    on stderr. *)
Inductive ChildEvent : Type :=
  | Stdout (data : string)
  | Stderr (data : string).

Definition onEvent (inv : Invocation) (st : State) (ev : ChildEvent) : State :=
  match ev with
  | Stdout data => foldl (handleLine inv) st (stdoutLines data)
  | Stderr data => ws_send (ClaudeError data) st
  end.

Definition run (inv : Invocation) (st : State) (events : list ChildEvent) : State :=
  foldl (onEvent inv) st events.

(** The [close] handler: the entry is removed and the terminal frame
    sent; [hasCommand] is [!!command]. *)
Definition onClose (inv : Invocation) (hasCommand : bool) (code : option Z) (st : State)
    : State :=
  ws_send (ClaudeComplete code (negb (truthy (inputSessionId inv)) && hasCommand))
    (mkState (capturedSessionId st) (sessionCreatedSent st)
       (delete (finalKey inv st) (activeClaudeProcesses st)) (sent st)).

End Handlers.

(** *** Properties of the environment *)












(** *** Properties of the argument vector *)








(** What the code accepts besides: [Object.keys] also counts the
    elements of an array and the characters of a string. *)
Definition keyed (v : json) : bool :=
  match v with
  | JObj (_ :: _) | JArr (_ :: _) => true
  | JStr s => negb (String.eqb s "")
  | _ => false
  end.

Definition mentions (o : json) : Prop :=
  exists v, get "mcpServers" o = Some v /\ keyed v = true.

Definition mentionsServer (config : option json) (process_cwd : string) : Prop :=
  exists claudeConfig, config = Some claudeConfig /\
    (mentions claudeConfig \/
     exists projects projectConfig,
       get "claudeProjects" claudeConfig = Some projects /\
       get process_cwd projects = Some projectConfig /\
       mentions projectConfig).



Lemma keyed_keys v : truthy_json (Some v) && (0 <? keys_length v)%nat = keyed v.
Proof.
  destruct v as [|b|n|s|items|fields]; cbn [truthy_json keys_length keyed]; try done.
  - by rewrite andb_false_r.
  - by rewrite andb_false_r.
  - by destruct s.
  - by destruct items.
  - by destruct fields.
Qed.

Lemma hasServers_mentions o : hasServers o = true <-> mentions o.
Proof.
  unfold hasServers, mentions. destruct (get "mcpServers" o) as [v|].
  - rewrite keyed_keys. split; [by exists v | by intros (v' & [= <-] & H)].
  - split; [done | by intros (v & H & _)].
Qed.

Lemma mentions_object o : mentions o -> exists fields, o = JObj fields.
Proof. intros (v & H & _). destruct o; try discriminate. eauto. Qed.

Lemma get_object k v x : get k v = Some x -> exists fields, v = JObj fields.
Proof. destruct v; try discriminate. eauto. Qed.

(** [checkMcpConfig] returns the path of the tool-config exactly when
    the file mentions a server. *)
Lemma checkMcpConfig_cases configPath config process_cwd :
  (mentionsServer config process_cwd /\
   checkMcpConfig configPath config process_cwd = Some configPath)
  \/ (~ mentionsServer config process_cwd /\
      checkMcpConfig configPath config process_cwd = None).
Proof.
  unfold checkMcpConfig, mentionsServer.
  destruct config as [cfg|]; [|right; split; [intros (? & ? & _); discriminate | done]].
  assert (Hnon : (forall fields, cfg ≠ JObj fields) ->
                 ~ (exists c, Some cfg = Some c /\
                      (mentions c \/
                       exists projects pc, get "claudeProjects" c = Some projects /\
                         get process_cwd projects = Some pc /\ mentions pc))).
  { intros Hno (c & [= <-] & [H|(projects & pc & H & _)]).
    - apply mentions_object in H as [f ->]. by eapply Hno.
    - apply get_object in H as [f ->]. by eapply Hno. }
  destruct cfg as [| | | | |fields];
    try (right; split; [by apply Hnon | done]).
  clear Hnon. destruct (hasServers (JObj fields)) eqn:Hg.
  { left. split; [|done]. exists (JObj fields). split; [done|]. left.
    by apply hasServers_mentions. }
  assert (Hng : ~ mentions (JObj fields)).
  { intros H%hasServers_mentions. congruence. }
  destruct (get "claudeProjects" (JObj fields)) as [projects|] eqn:Hp.
  2:{ right. split; [|done]. intros (c & [= <-] & [H|(? & ? & H & _)]); [done | congruence]. }
  destruct (get process_cwd projects) as [pc|] eqn:Hpc.
  2:{ right. split; [|by rewrite andb_false_r].
      intros (c & [= <-] & [H|(? & ? & H1 & H2 & _)]); [done | congruence]. }
  destruct (hasServers pc) eqn:Hs.
  - left. split.
    + exists (JObj fields). split; [done|]. right. exists projects, pc.
      split; [done|]. split; [done|]. by apply hasServers_mentions.
    + apply get_object in Hpc as Hpo. destruct Hpo as [pf ->].
      apply hasServers_mentions, mentions_object in Hs as [cf ->]. done.
  - right. split; [|by rewrite !andb_false_r].
    intros (c & [= <-] & [H|(? & ? & H1 & H2 & H3)]); [done|].
    apply hasServers_mentions in H3. congruence.
Qed.

#[global] Instance mentionsServer_dec config process_cwd :
  Decision (mentionsServer config process_cwd).
Proof.
  destruct (checkMcpConfig "x" config process_cwd) eqn:H.
  - left. destruct (checkMcpConfig_cases "x" config process_cwd) as [[Hd _]|[_ Hn]];
      [exact Hd | rewrite Hn in H; discriminate H].
  - right. destruct (checkMcpConfig_cases "x" config process_cwd) as [[_ Hy]|[Hd _]];
      [rewrite Hy in H; discriminate H | exact Hd].
Defined.


















(** *** Properties of the stream handlers *)

Section HandlerFacts.

Variable JSON_parse : string -> option json.

(** The session id a stdout line carries: the line parses to a value
    other than [null] whose [session_id] is truthy; it may be of any
    type. *)
Definition carries (line : string) : option json :=
  match JSON_parse line with
  | None | Some JNull => None
  | Some response =>
      match get "session_id" response with
      | Some sid => if truthy_json (Some sid) then Some sid else None
      | None => None
      end
  end.

(** The handlers see a flat sequence of stdout lines and stderr chunks. *)
Inductive Item : Type :=
  | Line (line : string)
  | Err (data : string).

Definition items (ev : ChildEvent) : list Item :=
  match ev with
  | Stdout data => map Line (stdoutLines data)
  | Stderr data => [Err data]
  end.

Definition handleItem (inv : Invocation) (st : State) (it : Item) : State :=
  match it with
  | Line line => handleLine JSON_parse inv st line
  | Err data => ws_send (ClaudeError data) st
  end.

(** The frame an item produces by itself: a response, a raw output or an
    error frame. *)
Definition plain (it : Item) : Frame :=
  match it with
  | Line line =>
      match JSON_parse line with
      | None | Some JNull => ClaudeOutput line
      | Some response => ClaudeResponse response
      end
  | Err data => ClaudeError data
  end.

Definition quiet (it : Item) : Prop :=
  match it with
  | Line line => carries line = None
  | Err _ => True
  end.

Definition isSessionCreated (f : Frame) : bool :=
  match f with SessionCreated _ => true | _ => false end.

Lemma foldl_map_Line inv st (ls : list string) :
  foldl (handleLine JSON_parse inv) st ls = foldl (handleItem inv) st (map Line ls).
Proof. revert st. induction ls as [|l ls IH]; intros st; [done|]. cbn. apply IH. Qed.

Lemma run_items inv st events :
  run JSON_parse inv st events = foldl (handleItem inv) st (concat (map items events)).
Proof.
  unfold run. revert st. induction events as [|ev events IH]; intros st; [done|].
  cbn [foldl map concat]. rewrite foldl_app, IH. f_equal.
  destruct ev as [data|data]; cbn [onEvent items]; [apply foldl_map_Line | done].
Qed.

(** What [handleLine] does with a line, by what the line carries. *)
Lemma handleLine_cases inv st line :
  handleLine JSON_parse inv st line
  = match carries line with
    | Some sid =>
        if negb (truthy_json (capturedSessionId st)) then
          mkState (Some sid)
            (sessionCreatedSent st || negb (truthy (inputSessionId inv)))
            (if negb (sameValueZero (JStr (processKey inv)) sid)
             then <[keyOf inv sid := claudeProcess inv]>
                    (delete (KString (processKey inv)) (activeClaudeProcesses st))
             else activeClaudeProcesses st)
            (sent st
               ++ (if negb (truthy (inputSessionId inv)) && negb (sessionCreatedSent st)
                   then [SessionCreated sid] else [])
               ++ [plain (Line line)])
        else ws_send (plain (Line line)) st
    | None => ws_send (plain (Line line)) st
    end.
Proof.
  unfold handleLine, carries. cbn [plain].
  destruct (JSON_parse line) as [r|]; [|done].
  assert (Hmain :
    ws_send (ClaudeResponse r)
      match get "session_id" r with
      | Some sid =>
          if truthy_json (Some sid) && negb (truthy_json (capturedSessionId st)) then
            let active :=
              if negb (sameValueZero (JStr (processKey inv)) sid) then
                <[keyOf inv sid := claudeProcess inv]>
                  (delete (KString (processKey inv)) (activeClaudeProcesses st))
              else activeClaudeProcesses st in
            let st0 := mkState (Some sid) (sessionCreatedSent st) active (sent st) in
            if negb (truthy (inputSessionId inv)) && negb (sessionCreatedSent st0) then
              ws_send (SessionCreated sid)
                (mkState (capturedSessionId st0) true (activeClaudeProcesses st0) (sent st0))
            else st0
          else st
      | None => st
      end
    = match (match get "session_id" r with
             | Some sid => if truthy_json (Some sid) then Some sid else None
             | None => None
             end) with
      | Some sid =>
          if negb (truthy_json (capturedSessionId st)) then
            mkState (Some sid)
              (sessionCreatedSent st || negb (truthy (inputSessionId inv)))
              (if negb (sameValueZero (JStr (processKey inv)) sid)
               then <[keyOf inv sid := claudeProcess inv]>
                      (delete (KString (processKey inv)) (activeClaudeProcesses st))
               else activeClaudeProcesses st)
              (sent st
                 ++ (if negb (truthy (inputSessionId inv)) && negb (sessionCreatedSent st)
                     then [SessionCreated sid] else [])
                 ++ [ClaudeResponse r])
          else ws_send (ClaudeResponse r) st
      | None => ws_send (ClaudeResponse r) st
      end).
  { destruct (get "session_id" r) as [sid|]; [|done].
    destruct (truthy_json (Some sid)); [|done]. cbn [andb].
    destruct (truthy_json (capturedSessionId st)); [done|]. cbn [negb].
    cbv zeta. cbn [sessionCreatedSent capturedSessionId activeClaudeProcesses sent].
    unfold ws_send.
    destruct (truthy (inputSessionId inv)), (sessionCreatedSent st);
      cbn [negb andb orb capturedSessionId sessionCreatedSent activeClaudeProcesses sent];
      by rewrite <- ?app_assoc. }
  destruct r; [done | exact Hmain ..].
Qed.

Lemma handleItem_plain inv st it :
  quiet it \/ truthy_json (capturedSessionId st) = true ->
  handleItem inv st it = ws_send (plain it) st.
Proof.
  intros H. destruct it as [line|data]; [|done]. cbn [handleItem].
  rewrite handleLine_cases. destruct H as [H|H].
  - cbn [quiet] in H. by rewrite H.
  - rewrite H. by destruct (carries line).
Qed.

Lemma foldl_plain inv (its : list Item) st :
  Forall quiet its \/ truthy_json (capturedSessionId st) = true ->
  foldl (handleItem inv) st its
  = mkState (capturedSessionId st) (sessionCreatedSent st) (activeClaudeProcesses st)
            (sent st ++ map plain its).
Proof.
  revert st. induction its as [|it its IH]; intros st H.
  - cbn. rewrite app_nil_r. by destruct st.
  - cbn [foldl map]. rewrite handleItem_plain.
    + rewrite IH; [cbn; by rewrite <- app_assoc|].
      destruct H as [H|H]; [left; by inversion H | by right].
    + destruct H as [H|H]; [left; by inversion H | by right].
Qed.

(** The map after the first capture: the child is moved from the
    timestamp key to the key of the captured value. *)
Definition rekey (inv : Invocation) (sid : json) (active : Processes) : Processes :=
  if negb (sameValueZero (JStr (processKey inv)) sid)
  then <[keyOf inv sid := claudeProcess inv]> (delete (KString (processKey inv)) active)
  else active.

Lemma handleLine_capture inv st line sid :
  truthy_json (capturedSessionId st) = false ->
  carries line = Some sid ->
  handleLine JSON_parse inv st line
  = mkState (Some sid)
      (sessionCreatedSent st || negb (truthy (inputSessionId inv)))
      (rekey inv sid (activeClaudeProcesses st))
      (sent st
         ++ (if negb (truthy (inputSessionId inv)) && negb (sessionCreatedSent st)
             then [SessionCreated sid] else [])
         ++ [plain (Line line)]).
Proof. intros Hcap Hc. by rewrite handleLine_cases, Hc, Hcap. Qed.

Lemma plain_not_created (its : list Item) :
  List.filter isSessionCreated (map plain its) = [].
Proof.
  induction its as [|it its IH]; [done|]. cbn [map List.filter].
  assert (isSessionCreated (plain it) = false) as ->; [|done].
  destruct it as [line|data]; [|done]. cbn. by destruct (JSON_parse line) as [[]|].
Qed.

Lemma carries_response line sid :
  carries line = Some sid ->
  exists response, plain (Line line) = ClaudeResponse response /\
                   get "session_id" response = Some sid /\
                   truthy_json (Some sid) = true.
Proof.
  unfold carries. cbn [plain]. destruct (JSON_parse line) as [r|]; [|discriminate].
  assert (H : match get "session_id" r with
              | Some sid => if truthy_json (Some sid) then Some sid else None
              | None => None
              end = Some sid ->
              get "session_id" r = Some sid /\ truthy_json (Some sid) = true).
  { destruct (get "session_id" r) as [v|]; [|discriminate].
    destruct (truthy_json (Some v)) eqn:Hv; [|discriminate]. by intros [= <-]. }
  destruct r; try discriminate; intros Hc; eexists; (split; [done | by apply H]).
Qed.

Lemma carries_truthy line sid : carries line = Some sid -> truthy_json (Some sid) = true.
Proof. by intros (r & _ & _ & H)%carries_response. Qed.

Lemma truthy_fmap (sessionId : option string) :
  truthy_json (JStr <$> sessionId) = truthy sessionId.
Proof. by destruct sessionId. Qed.

Lemma spawnRegister_new now sessionId child active :
  truthy sessionId = false ->
  spawnRegister now sessionId child active
  = (mkInvocation sessionId now child,
     mkState (JStr <$> sessionId) false (<[KString now := child]> active) []).
Proof. intros H. unfold spawnRegister, orElse. by rewrite !H. Qed.

Lemma spawnRegister_known now sessionId child active :
  truthy sessionId = true ->
  truthy_json (capturedSessionId (spawnRegister now sessionId child active).2) = true
  /\ inputSessionId (spawnRegister now sessionId child active).1 = sessionId
  /\ sent (spawnRegister now sessionId child active).2 = [].
Proof. intros H. cbn. by rewrite truthy_fmap. Qed.

(** The frames of a run that captures a session id at [line]. *)
Lemma run_capture inv st pre line post sid :
  truthy_json (capturedSessionId st) = false ->
  Forall quiet pre -> carries line = Some sid ->
  foldl (handleItem inv) st (pre ++ Line line :: post)
  = mkState (Some sid)
      (sessionCreatedSent st || negb (truthy (inputSessionId inv)))
      (rekey inv sid (activeClaudeProcesses st))
      (sent st ++ map plain pre
         ++ (if negb (truthy (inputSessionId inv)) && negb (sessionCreatedSent st)
             then [SessionCreated sid] else [])
         ++ [plain (Line line)] ++ map plain post).
Proof.
  intros Hcap Hpre Hc. rewrite foldl_app, (foldl_plain inv pre) by (by left).
  cbn [foldl handleItem]. rewrite (handleLine_capture _ _ _ sid) by done.
  rewrite foldl_plain by (right; cbn; by apply (carries_truthy line)).
  cbn. by rewrite <- !app_assoc.
Qed.

(** C7, amended: for an invocation started without a known sessionId, if
    [line] is the first stdout line that parses to an object carrying a
    session_id (a truthy value, of any type), exactly one session-created
    frame is sent, it carries that session_id and it stands immediately
    before the response frame of [line]; the frames of earlier items,
    among them the response frames of earlier objects without a
    session_id, come before it.  For an invocation started with a known
    sessionId no session-created frame is ever sent. *)
Theorem C7_session_created_once now sessionId child active events :
  let start := spawnRegister now sessionId child active in
  let frames := sent (run JSON_parse start.1 start.2 events) in
  (truthy sessionId = false ->
   forall pre line post sid,
     concat (map items events) = pre ++ Line line :: post ->
     Forall quiet pre -> carries line = Some sid ->
     frames = map plain pre ++ [SessionCreated sid; plain (Line line)] ++ map plain post
     /\ (exists response, plain (Line line) = ClaudeResponse response /\
                          get "session_id" response = Some sid)
     /\ List.filter isSessionCreated frames = [SessionCreated sid])
  /\ (truthy sessionId = true ->
      frames = map plain (concat (map items events)) /\
      List.filter isSessionCreated frames = []).
Proof.
  intros start frames. subst frames. rewrite run_items. split.
  - intros Hnew pre line post sid Hitems Hpre Hc. subst start.
    rewrite spawnRegister_new by done. cbn [fst snd].
    rewrite Hitems, (run_capture _ _ pre line post sid);
      [|by cbn; rewrite truthy_fmap|done|done].
    cbn [sent inputSessionId sessionCreatedSent]. rewrite Hnew. cbn [negb andb app].
    split; [done|].
    destruct (carries_response line sid Hc) as (r & Hr & Hget & _).
    split; [by exists r|].
    rewrite List.filter_app, plain_not_created. cbn [app List.filter isSessionCreated].
    rewrite Hr. cbn [isSessionCreated]. by rewrite plain_not_created.
  - intros Hknown.
    destruct (spawnRegister_known now sessionId child active Hknown) as (Hcap & _ & Hsent).
    rewrite foldl_plain by (by right). cbn [sent]. subst start. rewrite Hsent. cbn [app].
    split; [done | apply plain_not_created].
Qed.







End HandlerFacts.

(** *** The stream handlers on sample streams *)

Definition systemLine : json := objectOf [("type", "system")].
Definition assistantLine : json := objectOf [("session_id", "abc"); ("type", "assistant")].
Definition objectId : json := JObj [("id", JStr "abc")].
Definition objectLine : json := JObj [("session_id", objectId); ("type", JStr "assistant")].
Definition streamParse : string -> option json :=
  tableParse [systemLine; assistantLine; objectLine].

(** A session-created frame occurs and no response frame precedes it. *)
Fixpoint createdBeforeResponses (frames : list Frame) : bool :=
  match frames with
  | [] => false
  | SessionCreated _ :: _ => true
  | ClaudeResponse _ :: _ => false
  | _ :: rest => createdBeforeResponses rest
  end.

(** C7, refuted as stated: the agent's first object carries no
    session_id, the second does.  The response frame of the first object
    is sent before the session-created frame. *)
Lemma C7_response_precedes_session_created :
  let start := spawnRegister "1700000000000" None 7%nat ∅ in
  let frames :=
    sent (run streamParse start.1 start.2
            [Stdout (stringify systemLine +:+ NL +:+ stringify assistantLine +:+ NL)]) in
  frames = [ClaudeResponse systemLine; SessionCreated (JStr "abc");
            ClaudeResponse assistantLine]
  /\ createdBeforeResponses frames = false.
Proof. vm_compute. split; reflexivity. Qed.


(** A run whose second object carries the session id: one warning on
    stderr, then the capturing line. *)
Example C7_session_created_once_witness :
  let start := spawnRegister "1700000000000" None 7%nat ∅ in
  sent (run streamParse start.1 start.2
          [Stderr "warn"; Stdout (stringify assistantLine +:+ NL +:+ "done" +:+ NL)])
  = [ClaudeError "warn"; SessionCreated (JStr "abc"); ClaudeResponse assistantLine;
     ClaudeOutput "done"].
Proof.
  intros start.
  exact (proj1 (proj1 (C7_session_created_once streamParse "1700000000000" None 7%nat ∅
    [Stderr "warn"; Stdout (stringify assistantLine +:+ NL +:+ "done" +:+ NL)])
    eq_refl [Err "warn"] (stringify assistantLine) [Line "done"] (JStr "abc")
    eq_refl (Forall_cons (quiet streamParse) (Err "warn") [] I (Forall_nil _)) eq_refl)).
Defined.


End Runner.


(** ** The sidecar of renamed and manually added projects (projectConfig.ts) *)

Module ProjectConfig.

Import JS.

(** One entry of [project-config.json]. *)
Record Entry : Type := mkEntry {
  manuallyAdded : option bool;
  originalPath : option string;
  displayName : option string
}.

(** The parsed sidecar: alias to entry.  [loadProjectConfig] reads it
    and [saveProjectConfig] writes it back, so an operation is a function
    from the configuration read to the configuration saved. *)
Abbreviation ProjectConfig := (gmap string Entry).

(** [renameProject(projectName, newDisplayName)] *)
Definition renameProject (projectName newDisplayName : string)
    (config : ProjectConfig) : ProjectConfig :=
  if String.eqb newDisplayName "" || String.eqb (trim newDisplayName) "" then
    delete projectName config
  else
    let entry := default (mkEntry None None None) (config !! projectName) in
    <[projectName :=
        mkEntry (manuallyAdded entry) (originalPath entry) (Some (trim newDisplayName))]>
      config.

(** *** Properties *)

(** A rename never touches another alias. *)
Lemma renameProject_other projectName newDisplayName config other :
  other ≠ projectName ->
  renameProject projectName newDisplayName config !! other = config !! other.
Proof.
  intros Hne. unfold renameProject.
  destruct (_ || _); [by rewrite lookup_delete_ne | by rewrite lookup_insert_ne].
Qed.

(** A rename to a non-blank name changes the display name only. *)
Lemma renameProject_named projectName newDisplayName config :
  String.eqb newDisplayName "" || String.eqb (trim newDisplayName) "" = false ->
  exists entry,
    renameProject projectName newDisplayName config !! projectName = Some entry
    /\ displayName entry = Some (trim newDisplayName)
    /\ manuallyAdded entry = (config !! projectName) ≫= manuallyAdded
    /\ originalPath entry = (config !! projectName) ≫= originalPath.
Proof.
  intros H. unfold renameProject. rewrite H. eexists. rewrite lookup_insert_eq.
  split; [done|]. by destruct (config !! projectName).
Qed.

Definition manualConfig : ProjectConfig :=
  {[ "-tmp-p" := mkEntry (Some true) (Some "/tmp/p") (Some "P");
     "-tmp-q" := mkEntry None None (Some "Q") ]}.

(** C8, on the code: renaming a manually added project to a blank name
    deletes its whole sidecar entry, [manuallyAdded] and [originalPath]
    included, where the claim (and the comment in the code) keeps them
    and clears the display name only.  The other alias is untouched. *)
Theorem C8_blank_rename_deletes_entry :
  manualConfig !! "-tmp-p" = Some (mkEntry (Some true) (Some "/tmp/p") (Some "P"))
  /\ renameProject "-tmp-p" " " manualConfig !! "-tmp-p" = None
  /\ renameProject "-tmp-p" "" manualConfig !! "-tmp-p" = None
  /\ renameProject "-tmp-p" " " manualConfig !! "-tmp-q" = manualConfig !! "-tmp-q".
Proof.
  unfold manualConfig. split; [|split; [|split]].
  - by rewrite lookup_insert_eq.
  - unfold renameProject. cbn [String.eqb orb]. apply lookup_delete_eq.
  - unfold renameProject. cbn [String.eqb orb]. apply lookup_delete_eq.
  - by apply renameProject_other.
Qed.

End ProjectConfig.

(** ** The path sandbox (fileOperations.ts) *)

Module PathSandbox.

Import JS.

(** *** POSIX [path]: the functions of the runtime the sandbox calls,
    on the segments between separators *)

(** [s.split(sep)] for a single character. *)
Fixpoint split_on (sep : ascii) (s : string) : list string :=
  match s with
  | EmptyString => [EmptyString]
  | String c s' =>
      if Ascii.eqb c sep then EmptyString :: split_on sep s'
      else match split_on sep s' with
           | [] => [String c EmptyString]
           | l :: ls => String c l :: ls
           end
  end.

Definition segments (path : string) : list string := split_on "/"%char path.

(** [path.isAbsolute] *)
Definition isAbsolute (path : string) : bool := startsWith "/" path.

(** One segment of [normalizeString]: empty and [.] segments are
    skipped, [..] removes the last segment kept unless there is none or
    it is [..] itself, in which case [..] is kept when allowed. *)
Definition normStep (allowAboveRoot : bool) (res : list string) (seg : string)
    : list string :=
  if String.eqb seg "" || String.eqb seg "." then res
  else if String.eqb seg ".." then
    match list.last res with
    | Some l =>
        if String.eqb l ".." then (if allowAboveRoot then res ++ [".."] else res)
        else removelast res
    | None => if allowAboveRoot then res ++ [".."] else res
    end
  else res ++ [seg].

Definition normalizeSegs (allowAboveRoot : bool) (segs : list string) : list string :=
  foldl (normStep allowAboveRoot) [] segs.

Definition normalizeString (path : string) (allowAboveRoot : bool) : string :=
  join "/" (normalizeSegs allowAboveRoot (segments path)).

(** [path.normalize] *)
Definition normalize (path : string) : string :=
  if String.eqb path "" then "."
  else
    let isAbs := isAbsolute path in
    let trailingSeparator := endsWith "/" path in
    let p := normalizeString path (negb isAbs) in
    if String.eqb p "" then
      if isAbs then "/" else if trailingSeparator then "./" else "."
    else
      let p := if trailingSeparator then p +:+ "/" else p in
      if isAbs then "/" +:+ p else p.

(** [path.join(a, b)] *)
Definition join2 (a b : string) : string :=
  if String.eqb a "" then (if String.eqb b "" then "." else normalize b)
  else if String.eqb b "" then normalize a
  else normalize (a +:+ "/" +:+ b).

(** [path.resolve(path)]; [cwd] is the absolute working directory of the
    server process. *)
Definition resolve (cwd path : string) : string :=
  let resolvedPath := if String.eqb path "" then "" else path +:+ "/" in
  let resolvedPath :=
    if isAbsolute path then resolvedPath else cwd +:+ "/" +:+ resolvedPath in
  "/" +:+ normalizeString resolvedPath false.

Fixpoint stripCommon (from to : list string) : list string * list string :=
  match from, to with
  | f :: from', t :: to' => if String.eqb f t then stripCommon from' to' else (from, to)
  | _, _ => (from, to)
  end.

(** [path.relative(from, to)]: one [..] for every segment of [from]
    below the common directory, then the rest of [to]. *)
Definition relative (cwd from to : string) : string :=
  if String.eqb from to then ""
  else
    let from := resolve cwd from in
    let to := resolve cwd to in
    if String.eqb from to then ""
    else
      let nonEmpty := List.filter (fun s => negb (String.eqb s "")) in
      let '(up, down) := stripCommon (nonEmpty (segments from)) (nonEmpty (segments to)) in
      join "/" (map (fun _ => "..") up ++ down).

(** *** The sandbox *)

Definition isLetter (c : ascii) : bool :=
  let n := nat_of_ascii c in
  ((65 <=? n)%nat && (n <=? 90)%nat) || ((97 <=? n)%nat && (n <=? 122)%nat).

(** [/^[a-zA-Z]:/.test(p)] *)
Definition hasDrivePrefix (p : string) : bool :=
  match p with
  | String c (String d _) => isLetter c && Ascii.eqb d ":"%char
  | _ => false
  end.

(** The character class of the last test: less-than, greater-than,
    colon, double quote, vertical bar, question mark and asterisk. *)
Definition isUnsafeChar (c : ascii) : bool :=
  let n := nat_of_ascii c in
  (n =? 60)%nat || (n =? 62)%nat || (n =? 58)%nat || (n =? 34)%nat
  || (n =? 124)%nat || (n =? 63)%nat || (n =? 42)%nat.

Fixpoint hasUnsafeChar (p : string) : bool :=
  match p with
  | EmptyString => false
  | String c p' => isUnsafeChar c || hasUnsafeChar p'
  end.

(** [validateRelativePath(relativePath)] *)
Definition validateRelativePath (relativePath : string) : bool :=
  if includes ".." relativePath then false
  else if startsWith "/" relativePath then false
  else if hasDrivePrefix relativePath then false
  else if hasUnsafeChar relativePath then false
  else true.

Inductive Result : Type :=
  | Returned (path : string)
  | Thrown (message : string).

(** [resolveProjectFilePath(projectName, relativePath)]; [projectDir] is
    what [extractProjectDirectory(projectName)] returned. *)
Definition resolveProjectFilePath (cwd projectDir relativePath : string) : Result :=
  if isAbsolute relativePath then
    Thrown "Project files must use relative paths."
  else if negb (validateRelativePath relativePath) then
    Thrown "Invalid relative path - contains unsafe characters or path traversal"
  else
    let finalPath := resolve cwd (join2 projectDir relativePath) in
    let relativeFinal := relative cwd projectDir finalPath in
    if startsWith ".." relativeFinal || isAbsolute relativeFinal then
      Thrown "Invalid relative path - resolves outside project directory"
    else Returned finalPath.

(** [resolveSystemFilePath(absolutePath)] *)
Definition resolveSystemFilePath (absolutePath : string) : Result :=
  if negb (isAbsolute absolutePath) then Thrown "System files must use absolute paths."
  else Returned (normalize absolutePath).

(** *** Properties of the path functions *)

Lemma split_on_cons sep s : exists l ls, split_on sep s = l :: ls.
Proof.
  induction s as [|c s (l & ls & IH)]; cbn; [eauto|].
  destruct (Ascii.eqb c sep); [eauto|]. rewrite IH. eauto.
Qed.

(** Splitting at a separator that joins two strings. *)
Lemma split_on_app sep a b :
  split_on sep (a +:+ String sep b) = split_on sep a ++ split_on sep b.
Proof.
  induction a as [|c a IH].
  - rewrite append_nil. cbn. by rewrite Ascii.eqb_refl.
  - rewrite append_cons. cbn [split_on].
    destruct (Ascii.eqb c sep); [by rewrite IH|].
    rewrite IH. destruct (split_on_cons sep a) as (l & ls & ->). done.
Qed.

Fixpoint sepFree (sep : ascii) (s : string) : bool :=
  match s with
  | EmptyString => true
  | String c s' => negb (Ascii.eqb c sep) && sepFree sep s'
  end.

Lemma split_on_sepFree sep s : Forall (fun seg => sepFree sep seg = true) (split_on sep s).
Proof.
  induction s as [|c s IH]; cbn; [by repeat constructor|].
  destruct (Ascii.eqb c sep) eqn:E; [by constructor|].
  destruct (split_on_cons sep s) as (l & ls & Hs). rewrite Hs in *.
  inversion IH; subst. constructor; [|done]. cbn. by rewrite E.
Qed.

Lemma split_on_free sep s : sepFree sep s = true -> split_on sep s = [s].
Proof.
  induction s as [|c s IH]; cbn; [done|].
  intros [Hc Hs]%andb_prop. apply negb_true_iff in Hc. rewrite Hc, IH; done.
Qed.

Lemma segments_join (segs : list string) :
  segs ≠ [] ->
  Forall (fun seg => sepFree "/"%char seg = true) segs ->
  segments (join "/" segs) = segs.
Proof.
  unfold segments, join. induction segs as [|n segs IH]; [done|]. intros _ Hf.
  inversion Hf as [|? ? Hn Hrest]; subst. destruct segs as [|n' segs].
  - cbn. by apply split_on_free.
  - change (String.concat "/" (n :: n' :: segs))
      with (n +:+ String "/"%char (String.concat "/" (n' :: segs))).
    rewrite split_on_app, IH, split_on_free; done.
Qed.

Lemma prefix_cons c d (a b : string) :
  String.prefix (String c a) (String d b) = Ascii.eqb c d && String.prefix a b.
Proof.
  cbn [String.prefix]. destruct (ascii_dec c d) as [->|Hne].
  - by rewrite Ascii.eqb_refl.
  - by apply Ascii.eqb_neq in Hne as ->.
Qed.

Lemma prefix_nil (b : string) : String.prefix "" b = true.
Proof. by destruct b. Qed.

(** A segment that starts with [..] shows in the string. *)
Lemma first_segment_dot s l ls :
  split_on "/"%char s = l :: ls -> String.prefix "." l = true -> String.prefix "." s = true.
Proof.
  destruct s as [|c s]; cbn [split_on]; [by intros [= <- _]|].
  destruct (Ascii.eqb c "/"%char) eqn:E; [by intros [= <- _]|].
  destruct (split_on_cons "/"%char s) as (l' & ls' & ->).
  intros [= <- _]. by rewrite !prefix_cons, !prefix_nil.
Qed.

Lemma dotdot_prefix_includes s seg :
  seg ∈ segments s -> String.prefix ".." seg = true -> includes ".." s = true.
Proof.
  unfold segments. revert seg. induction s as [|c s IH]; intros seg; cbn [split_on includes].
  - intros H. apply list_elem_of_singleton in H. by subst.
  - destruct (Ascii.eqb c "/"%char) eqn:E.
    + intros [H|H]%elem_of_cons Hp; [by subst|]. rewrite (IH _ H Hp). apply orb_true_r.
    + destruct (split_on_cons "/"%char s) as (l & ls & Hs). rewrite Hs.
      intros [H|H]%elem_of_cons Hp.
      * subst seg. apply orb_true_iff. left.
        rewrite prefix_cons in Hp. apply andb_prop in Hp as [Hc Hl].
        rewrite prefix_cons, Hc. cbn [andb].
        by apply (first_segment_dot s l ls).
      * rewrite (IH seg); [apply orb_true_r | | done]. rewrite Hs. by right.
Qed.

Lemma dotdot_segment_includes s :
  ".." ∈ segments s -> includes ".." s = true.
Proof. intros H. by apply (dotdot_prefix_includes s ".."). Qed.

(** Segments that survive normalisation by themselves. *)
Definition keeps (seg : string) : bool :=
  negb (String.eqb seg "" || String.eqb seg ".").

Definition clean (segs : list string) : list string := List.filter keeps segs.

Lemma foldl_clean allow (segs acc : list string) :
  ".." ∉ segs ->
  foldl (normStep allow) acc segs = acc ++ clean segs.
Proof.
  revert acc. induction segs as [|x segs IH]; intros acc Hno; cbn [foldl clean List.filter].
  - by rewrite app_nil_r.
  - apply not_elem_of_cons in Hno as [Hx Hno]. rewrite IH by done.
    unfold normStep, keeps. destruct (String.eqb x "" || String.eqb x "."); cbn [negb]; [done|].
    destruct (String.eqb_spec x ".."); [congruence|]. by rewrite <- app_assoc.
Qed.

Definition isName (seg : string) : Prop := keeps seg = true /\ seg ≠ "..".

Lemma Forall_removelast {A} (P : A -> Prop) (l : list A) :
  Forall P l -> Forall P (removelast l).
Proof.
  intros H. destruct (decide (l = [])) as [->|Hne]; [done|].
  destruct (exists_last Hne) as (l' & x & ->). rewrite removelast_last.
  by apply Forall_app in H as [H _].
Qed.

Lemma normStep_keeps allow res seg :
  Forall (fun s => keeps s = true) res ->
  Forall (fun s => keeps s = true) (normStep allow res seg).
Proof.
  intros H. unfold normStep.
  destruct (String.eqb seg "" || String.eqb seg ".") eqn:E; [done|].
  destruct (String.eqb seg "..") eqn:E2.
  - destruct (list.last res) as [l|]; [destruct (String.eqb l "..")|];
      try destruct allow; try done; try (by apply Forall_removelast);
      apply Forall_app; split; try done; by repeat constructor.
  - apply Forall_app. split; [done|]. repeat constructor. unfold keeps. by rewrite E.
Qed.

Lemma normStep_names res seg :
  Forall isName res -> Forall isName (normStep false res seg).
Proof.
  intros H. unfold normStep.
  destruct (String.eqb seg "" || String.eqb seg ".") eqn:E; [done|].
  destruct (String.eqb_spec seg "..") as [->|Hne].
  - destruct (list.last res) as [l|]; [destruct (String.eqb l "..")|];
      try done. by apply Forall_removelast.
  - apply Forall_app. split; [done|]. repeat constructor; [|done]. unfold keeps. by rewrite E.
Qed.

Lemma foldl_keeps allow (segs res : list string) :
  Forall (fun s => keeps s = true) res ->
  Forall (fun s => keeps s = true) (foldl (normStep allow) res segs).
Proof.
  revert res. induction segs as [|x segs IH]; intros res H; [done|].
  cbn [foldl]. by apply IH, normStep_keeps.
Qed.

Lemma foldl_names (segs res : list string) :
  Forall isName res -> Forall isName (foldl (normStep false) res segs).
Proof.
  revert res. induction segs as [|x segs IH]; intros res H; [done|].
  cbn [foldl]. by apply IH, normStep_names.
Qed.

Lemma normStep_push allow res seg :
  keeps seg = true -> seg ≠ ".." -> normStep allow res seg = res ++ [seg].
Proof.
  intros Hk Hne. unfold normStep. unfold keeps in Hk. apply negb_true_iff in Hk.
  rewrite Hk. by destruct (String.eqb_spec seg "..").
Qed.

(** Popping with [..] what was just pushed. *)
Lemma normStep_pop allow res seg :
  keeps seg = true -> seg ≠ ".." -> normStep allow (res ++ [seg]) ".." = res.
Proof.
  intros Hk Hne. unfold normStep. cbn [String.eqb Ascii.eqb Bool.eqb orb].
  rewrite last_snoc. destruct (String.eqb_spec seg ".."); [done|].
  apply removelast_last.
Qed.

Lemma normStep_skip allow res seg :
  String.eqb seg "" || String.eqb seg "." = true -> normStep allow res seg = res.
Proof. intros E. unfold normStep. by rewrite E. Qed.

Lemma normStep_dotdot allow res :
  normStep allow res ".."
  = match list.last res with
    | Some l =>
        if String.eqb l ".." then (if allow then res ++ [".."] else res)
        else removelast res
    | None => if allow then res ++ [".."] else res
    end.
Proof. reflexivity. Qed.

Lemma normStep_context acc S x :
  Forall (fun s => keeps s = true) S ->
  foldl (normStep false) acc (normStep true S x)
  = normStep false (foldl (normStep false) acc S) x.
Proof.
  intros HS.
  destruct (String.eqb x "" || String.eqb x ".") eqn:E.
  { by rewrite !normStep_skip. }
  destruct (String.eqb_spec x "..") as [->|Hne].
  - rewrite (normStep_dotdot true S). destruct (list.last S) as [l|] eqn:Hl.
    + destruct (String.eqb_spec l "..") as [->|Hl2]; [by rewrite foldl_app|].
      apply last_Some in Hl as [A ->]. rewrite removelast_last, foldl_app. cbn [foldl].
      apply Forall_app in HS as [_ Hk]. inversion Hk; subst.
      rewrite (normStep_push false _ l) by done. by rewrite normStep_pop.
    + apply last_None in Hl as ->. done.
  - rewrite (normStep_push true) by (try done; unfold keeps; by rewrite E).
    by rewrite foldl_app.
Qed.

Lemma norm_context (X S acc : list string) :
  Forall (fun s => keeps s = true) S ->
  foldl (normStep false) acc (foldl (normStep true) S X)
  = foldl (normStep false) (foldl (normStep false) acc S) X.
Proof.
  revert S. induction X as [|x X IH]; intros S HS; [done|].
  cbn [foldl]. rewrite IH by (by apply normStep_keeps). by rewrite normStep_context.
Qed.

Lemma names_fixed (N acc : list string) :
  Forall isName N -> foldl (normStep false) acc N = acc ++ N.
Proof.
  intros HN. rewrite foldl_clean.
  - f_equal. unfold clean. induction HN as [|n N [Hk _] _ IH]; [done|].
    cbn [List.filter]. by rewrite Hk, IH.
  - intros Hin. rewrite list.Forall_forall in HN. by destruct (HN _ Hin).
Qed.

(** The segments of [path.resolve(path)]: [path] normalised against the
    normalised working directory unless it is absolute. *)
Definition resolveSegs (cwd path : string) : list string :=
  foldl (normStep false)
        (if isAbsolute path then [] else normalizeSegs false (segments cwd))
        (segments path).

Lemma isAbsolute_cons c rest : isAbsolute (String c rest) = Ascii.eqb c "/"%char.
Proof.
  unfold isAbsolute, startsWith. cbn [String.prefix].
  destruct (ascii_dec "/"%char c) as [<-|Hne]; [by destruct rest|].
  symmetry. apply Ascii.eqb_neq. congruence.
Qed.

Lemma normStep_empty allow res : normStep allow res "" = res.
Proof. reflexivity. Qed.

Lemma resolve_segs cwd path :
  resolve cwd path = "/" +:+ join "/" (resolveSegs cwd path).
Proof.
  unfold resolve, normalizeString, resolveSegs. do 2 f_equal.
  unfold normalizeSegs, segments.
  destruct path as [|c path].
  - cbn [String.eqb isAbsolute startsWith String.prefix].
    change (cwd +:+ "/" +:+ "") with (cwd +:+ String "/"%char "").
    by rewrite split_on_app, foldl_app.
  - cbn [String.eqb]. rewrite isAbsolute_cons.
    change (String c path +:+ "/") with (String c path +:+ String "/"%char "").
    destruct (Ascii.eqb c "/"%char).
    + by rewrite split_on_app, foldl_app.
    + change (cwd +:+ "/" +:+ (String c path +:+ String "/"%char ""))
        with (cwd +:+ String "/"%char (String c path +:+ String "/"%char "")).
      by rewrite !split_on_app, !foldl_app.
Qed.

Lemma sepFree_foldl allow (segs res : list string) :
  Forall (fun s => sepFree "/"%char s = true) res ->
  Forall (fun s => sepFree "/"%char s = true) segs ->
  Forall (fun s => sepFree "/"%char s = true) (foldl (normStep allow) res segs).
Proof.
  revert res. induction segs as [|x segs IH]; intros res Hres Hsegs; [done|].
  inversion Hsegs; subst. cbn [foldl]. apply IH; [|done].
  unfold normStep. destruct (_ || _); [done|].
  destruct (String.eqb x "..").
  - destruct (list.last res) as [l|]; [destruct (String.eqb l "..")|];
      try destruct allow; try done; try (by apply Forall_removelast);
      apply Forall_app; split; try done; by repeat constructor.
  - apply Forall_app. split; [done | by repeat constructor].
Qed.

Lemma join_cons_first c n (rest : list string) :
  exists tail, join "/" (String c n :: rest) = String c tail.
Proof. unfold join. destruct rest; cbn; eauto. Qed.

Lemma keeps_cons seg : keeps seg = true -> exists c n, seg = String c n.
Proof. destruct seg; [discriminate | eauto]. Qed.

(** Normalising a path does not change what it resolves to. *)
Lemma resolveSegs_normalize cwd path :
  path ≠ "" -> resolveSegs cwd (normalize path) = resolveSegs cwd path.
Proof.
  intros Hne. unfold normalize, normalizeString.
  destruct (String.eqb_spec path "") as [|_]; [done|].
  set (N := normalizeSegs (negb (isAbsolute path)) (segments path)).
  assert (HkN : Forall (fun s => keeps s = true) N) by (by apply foldl_keeps).
  assert (HfN : Forall (fun s => sepFree "/"%char s = true) N).
  { apply sepFree_foldl; [done | apply split_on_sepFree]. }
  assert (Hrel : isAbsolute path = false ->
                 forall acc, foldl (normStep false) acc (segments path)
                             = foldl (normStep false) acc N).
  { intros Hr acc. subst N. rewrite Hr. cbn [negb]. unfold normalizeSegs.
    by rewrite norm_context. }
  assert (Habs : isAbsolute path = true ->
                 foldl (normStep false) [] (segments path) = N
                 /\ forall acc, foldl (normStep false) acc N = acc ++ N).
  { intros Ha. subst N. rewrite Ha. cbn [negb]. split; [done|].
    intros acc. apply names_fixed. by apply foldl_names. }
  destruct N as [|n N'] eqn:HN.
  - cbn [join String.concat String.eqb]. unfold resolveSegs at 2.
    destruct (isAbsolute path) eqn:Ha.
    + destruct (Habs eq_refl) as [-> _]. reflexivity.
    + rewrite (Hrel eq_refl). cbn [foldl]. by destruct (endsWith "/" path).
  - destruct (keeps_cons n) as (c & n' & ->); [by inversion HkN|].
    destruct (join_cons_first c n' N') as [tail Hj]. rewrite Hj. cbn [String.eqb].
    assert (Hc : Ascii.eqb c "/"%char = false).
    { inversion HfN as [|? ? Hs _]; subst. cbn in Hs. by apply andb_prop in Hs as [->%negb_true_iff _]. }
    assert (Hseg : forall trailing : bool,
       segments (if trailing then String c tail +:+ "/" else String c tail)
       = (String c n' :: N') ++ (if trailing then [""] else [])).
    { intros trailing. rewrite <- Hj. destruct trailing.
      - change (join "/" (String c n' :: N') +:+ "/")
          with (join "/" (String c n' :: N') +:+ String "/"%char "").
        unfold segments at 1. rewrite split_on_app.
        change (split_on "/"%char (join "/" (String c n' :: N')))
          with (segments (join "/" (String c n' :: N'))).
        by rewrite segments_join.
      - rewrite segments_join by done. by rewrite app_nil_r. }
    unfold resolveSegs. destruct (isAbsolute path) eqn:Ha.
    + destruct (Habs eq_refl) as [-> Hfix].
      rewrite append_cons, append_nil, isAbsolute_cons. cbn [Ascii.eqb Bool.eqb].
      unfold segments at 1. cbn [split_on Ascii.eqb Bool.eqb].
      change (split_on "/"%char ?x) with (segments x).
      cbn [foldl]. rewrite normStep_empty, Hseg, foldl_app, Hfix.
      by destruct (endsWith "/" path).
    + assert (Hia : isAbsolute (if endsWith "/" path then String c tail +:+ "/"
                                else String c tail) = false).
      { destruct (endsWith "/" path); [rewrite append_cons|]; by rewrite isAbsolute_cons. }
      rewrite Hia, Hseg, (Hrel eq_refl), foldl_app.
      by destruct (endsWith "/" path).
Qed.

Lemma resolveSegs_names cwd path :
  Forall isName (resolveSegs cwd path)
  /\ Forall (fun s => sepFree "/"%char s = true) (resolveSegs cwd path).
Proof.
  unfold resolveSegs, normalizeSegs. split.
  - apply foldl_names. destruct (isAbsolute path); [done | by apply foldl_names].
  - apply sepFree_foldl; [|apply split_on_sepFree].
    destruct (isAbsolute path); [done|]. apply sepFree_foldl; [done | apply split_on_sepFree].
Qed.

(** What the joined path resolves to: the project directory followed
    by the kept segments of the relative path. *)
Lemma resolveSegs_join2 cwd projectDir relativePath :
  isAbsolute relativePath = false ->
  includes ".." relativePath = false ->
  resolveSegs cwd (join2 projectDir relativePath)
  = resolveSegs cwd projectDir ++ clean (segments relativePath).
Proof.
  intros Hrel Hdd.
  assert (Hno : ".." ∉ segments relativePath).
  { intros H. apply dotdot_segment_includes in H. congruence. }
  unfold join2.
  destruct (String.eqb_spec projectDir "") as [->|HD];
    destruct (String.eqb_spec relativePath "") as [->|HR].
  - unfold resolveSegs. rewrite isAbsolute_cons. cbn. by rewrite app_nil_r.
  - rewrite resolveSegs_normalize by done. unfold resolveSegs at 1. rewrite Hrel.
    by rewrite foldl_clean.
  - rewrite resolveSegs_normalize by done. cbn. by rewrite app_nil_r.
  - rewrite resolveSegs_normalize by (by destruct projectDir).
    unfold resolveSegs.
    assert (isAbsolute (projectDir +:+ "/" +:+ relativePath) = isAbsolute projectDir) as ->.
    { destruct projectDir; [done|]. by rewrite append_cons, !isAbsolute_cons. }
    change (projectDir +:+ "/" +:+ relativePath)
      with (projectDir +:+ String "/"%char relativePath).
    unfold segments. rewrite split_on_app, foldl_app. by apply foldl_clean.
Qed.

Abbreviation nonEmpty := (List.filter (fun s : string => negb (String.eqb s ""))).

Lemma nonEmpty_names (S : list string) : Forall isName S -> nonEmpty S = S.
Proof.
  induction 1 as [|n S [Hk _] _ IH]; [done|]. cbn [List.filter].
  destruct n; [done|]. cbn. by rewrite IH.
Qed.

Lemma segments_slash (x : string) : segments (String "/"%char x) = "" :: segments x.
Proof. reflexivity. Qed.

Lemma segments_absolute (S : list string) :
  Forall isName S -> Forall (fun s => sepFree "/"%char s = true) S ->
  nonEmpty (segments ("/" +:+ join "/" S)) = S
  /\ resolveSegs "" ("/" +:+ join "/" S) = S.
Proof.
  intros Hn Hf. rewrite append_cons, append_nil.
  unfold resolveSegs. rewrite isAbsolute_cons, !segments_slash.
  cbn [Ascii.eqb Bool.eqb foldl List.filter String.eqb negb].
  rewrite normStep_empty.
  destruct S as [|n S].
  - by cbn.
  - rewrite segments_join by done. split; [by apply nonEmpty_names|].
    by apply (names_fixed _ []).
Qed.

Lemma resolveSegs_absolute cwd path :
  isAbsolute path = true -> resolveSegs cwd path = resolveSegs "" path.
Proof. intros H. unfold resolveSegs. by rewrite H. Qed.

Lemma stripCommon_extend (S E : list string) : stripCommon S (S ++ E) = ([], E).
Proof. induction S as [|x S IH]; cbn; [by destruct E|]. by rewrite String.eqb_refl. Qed.

(** The relative path from the project directory to the final path is
    empty or the kept segments of the relative path. *)
Lemma relative_final cwd projectDir (E : list string) :
  let finalPath := "/" +:+ join "/" (resolveSegs cwd projectDir ++ E) in
  Forall isName E -> Forall (fun s => sepFree "/"%char s = true) E ->
  relative cwd projectDir finalPath = "" \/ relative cwd projectDir finalPath = join "/" E.
Proof.
  intros finalPath HnE HfE. unfold relative.
  destruct (String.eqb projectDir finalPath); [by left|].
  destruct (resolveSegs_names cwd projectDir) as [HnD HfD].
  assert (HnF : Forall isName (resolveSegs cwd projectDir ++ E)) by (by apply Forall_app).
  assert (HfF : Forall (fun s => sepFree "/"%char s = true) (resolveSegs cwd projectDir ++ E))
    by (by apply Forall_app).
  rewrite !resolve_segs.
  assert (resolveSegs cwd finalPath = resolveSegs cwd projectDir ++ E) as ->.
  { subst finalPath. rewrite resolveSegs_absolute
      by (by rewrite append_cons, isAbsolute_cons).
    by apply segments_absolute. }
  destruct (String.eqb _ _); [by left|]. right.
  rewrite (proj1 (segments_absolute _ HnD HfD)), (proj1 (segments_absolute _ HnF HfF)).
  by rewrite stripCommon_extend.
Qed.

Lemma clean_names (segs : list string) :
  ".." ∉ segs -> Forall isName (clean segs).
Proof.
  intros Hno. apply list.Forall_forall. intros seg Hin.
  apply list_elem_of_In, filter_In in Hin as [Hin Hk].
  split; [done|]. intros ->. by apply Hno, list_elem_of_In.
Qed.

Lemma clean_subset (segs : list string) seg : seg ∈ clean segs -> seg ∈ segs.
Proof. intros Hin. by apply list_elem_of_In, filter_In in Hin as [?%list_elem_of_In _]. Qed.

Lemma join_not_above (E : list string) :
  Forall isName E -> Forall (fun s => sepFree "/"%char s = true) E ->
  (forall e, e ∈ E -> String.prefix ".." e = false) ->
  startsWith ".." (join "/" E) = false /\ isAbsolute (join "/" E) = false.
Proof.
  intros Hn Hf Hp. destruct E as [|e E]; [done|].
  inversion Hn as [|? ? [Hk Hdd] _]; inversion Hf as [|? ? Hs _]; subst.
  specialize (Hp e (list_elem_of_here _ _)).
  destruct e as [|c1 e1]; [done|]. cbn in Hs. apply andb_prop in Hs as [Hc1 _].
  apply negb_true_iff in Hc1.
  destruct (join_cons_first c1 e1 E) as [tail Hj]. split.
  - unfold startsWith. destruct e1 as [|c2 e2].
    + rewrite Hj, prefix_cons.
      destruct (Ascii.eqb_spec "."%char c1) as [<-|]; [done|done].
    + assert (exists tail', join "/" (String c1 (String c2 e2) :: E)
                           = String c1 (String c2 tail')) as [tail' ->].
      { unfold join. destruct E; cbn; eauto. }
      rewrite !prefix_cons, prefix_nil in *. done.
  - by rewrite Hj, isAbsolute_cons.
Qed.

(** Every relative path that passes the two tests is accepted, and the
    path returned is the resolved project directory followed by the kept
    segments of the relative path. *)
Lemma resolveProjectFilePath_accepts cwd projectDir relativePath :
  isAbsolute relativePath = false ->
  validateRelativePath relativePath = true ->
  resolveProjectFilePath cwd projectDir relativePath
  = Returned ("/" +:+ join "/" (resolveSegs cwd projectDir ++ clean (segments relativePath))).
Proof.
  intros Hrel Hvalid.
  assert (Hdd : includes ".." relativePath = false).
  { unfold validateRelativePath in Hvalid. by destruct (includes ".." relativePath). }
  assert (Hno : ".." ∉ segments relativePath).
  { intros H. apply dotdot_segment_includes in H. congruence. }
  unfold resolveProjectFilePath. rewrite Hrel, Hvalid. cbn [negb].
  rewrite resolve_segs, resolveSegs_join2 by done.
  assert (HnE : Forall isName (clean (segments relativePath))) by (by apply clean_names).
  assert (HfE : Forall (fun s => sepFree "/"%char s = true) (clean (segments relativePath))).
  { apply list.Forall_forall. intros seg Hin%clean_subset.
    by eapply list.Forall_forall in Hin; [|apply split_on_sepFree]. }
  destruct (join_not_above (clean (segments relativePath)) HnE HfE) as [H1 H2].
  { intros e He%clean_subset. destruct (String.prefix ".." e) eqn:Hp; [|done].
    rewrite (dotdot_prefix_includes _ _ He Hp) in Hdd. discriminate. }
  destruct (relative_final cwd projectDir _ HnE HfE) as [-> | ->]; [done|].
  by rewrite H1, H2.
Qed.

(** A resolved path lies inside a directory when it is the path the
    directory resolves to, followed by names: segments that are not
    empty, are neither [.] nor [..] and hold no separator, so that none
    of them leads up again. *)
Definition inside (cwd dir path : string) : Prop :=
  exists names,
    Forall isName names
    /\ Forall (fun name => sepFree "/"%char name = true) names
    /\ path = "/" +:+ join "/" (resolveSegs cwd dir ++ names).

Lemma clean_sepFree (relativePath : string) :
  Forall (fun s => sepFree "/"%char s = true) (clean (segments relativePath)).
Proof.
  apply list.Forall_forall. intros seg Hin%clean_subset.
  by eapply list.Forall_forall in Hin; [|apply split_on_sepFree].
Qed.

(** An accepted path lies inside the project's directory. *)
Lemma resolveProjectFilePath_inside cwd projectDir relativePath path :
  resolveProjectFilePath cwd projectDir relativePath = Returned path ->
  inside cwd projectDir path.
Proof.
  intros Hret.
  destruct (isAbsolute relativePath) eqn:Ha;
    [by unfold resolveProjectFilePath in Hret; rewrite Ha in Hret|].
  destruct (validateRelativePath relativePath) eqn:Hv;
    [|by unfold resolveProjectFilePath in Hret; rewrite Ha, Hv in Hret].
  rewrite resolveProjectFilePath_accepts in Hret by done.
  injection Hret as <-. exists (clean (segments relativePath)).
  split; [|split; [apply clean_sepFree | done]].
  apply clean_names. intros H. apply dotdot_segment_includes in H.
  unfold validateRelativePath in Hv. by rewrite H in Hv.
Qed.

Definition NUL : string := String "000"%char EmptyString.

(** C6, refuted as stated: a relative path with a NUL byte passes every
    test of the sandbox and is resolved like any other file name. *)
Lemma C6_nul_byte_accepted :
  resolveProjectFilePath "/srv" "/home/u/proj" ("foo" +:+ NUL +:+ "bar")
  = Returned ("/home/u/proj/foo" +:+ NUL +:+ "bar").
Proof. vm_compute. reflexivity. Qed.

(** C6, amended: project-relative resolution raises an error for
    absolute paths, paths containing [..], paths with a drive prefix and
    paths containing one of the seven listed characters; it accepts every
    other path, and an accepted path resolves inside the project's real
    directory.  In particular [../etc/passwd], [/etc/passwd] and
    [C:\Windows] are rejected and [etc/passwd] is accepted, for every
    project; a NUL byte is not among the characters tested. *)
Theorem C6_project_relative_sandbox cwd projectDir relativePath :
  let result := resolveProjectFilePath cwd projectDir relativePath in
  (isAbsolute relativePath = true \/ includes ".." relativePath = true \/
   hasDrivePrefix relativePath = true \/ hasUnsafeChar relativePath = true ->
   exists message, result = Thrown message)
  /\ (isAbsolute relativePath = false -> includes ".." relativePath = false ->
      hasDrivePrefix relativePath = false -> hasUnsafeChar relativePath = false ->
      exists path, result = Returned path)
  /\ (forall path, result = Returned path ->
        inside cwd projectDir path /\ inside cwd projectDir (resolve cwd projectDir))
  /\ (exists message, resolveProjectFilePath cwd projectDir "../etc/passwd" = Thrown message)
  /\ (exists message, resolveProjectFilePath cwd projectDir "/etc/passwd" = Thrown message)
  /\ (exists message, resolveProjectFilePath cwd projectDir "C:\Windows" = Thrown message)
  /\ resolveProjectFilePath cwd projectDir "etc/passwd"
     = Returned ("/" +:+ join "/" (resolveSegs cwd projectDir ++ ["etc"; "passwd"])).
Proof.
  assert (Hrej : forall rel,
    isAbsolute rel = true \/ includes ".." rel = true \/
    hasDrivePrefix rel = true \/ hasUnsafeChar rel = true ->
    exists message, resolveProjectFilePath cwd projectDir rel = Thrown message).
  { intros rel H. unfold resolveProjectFilePath.
    destruct (isAbsolute rel) eqn:Ha; [eauto|].
    assert (validateRelativePath rel = false) as ->; [|eauto].
    unfold validateRelativePath.
    destruct H as [H|[H|[H|H]]]; [done|by rewrite H|..];
      destruct (includes ".." rel); try done;
      destruct (startsWith "/" rel); try done;
      destruct (hasDrivePrefix rel); try done; by rewrite H. }
  intros result. subst result. split; [apply Hrej|]. split.
  { intros Ha Hdd Hdr Hun. eexists. apply resolveProjectFilePath_accepts; [done|].
    unfold validateRelativePath. rewrite Hdd, Hdr, Hun.
    change (startsWith "/" relativePath) with (isAbsolute relativePath). by rewrite Ha. }
  split.
  { intros path Hret. split.
    - by eapply resolveProjectFilePath_inside.
    - exists []. split; [done|]. split; [done|]. by rewrite app_nil_r, resolve_segs. }
  split; [apply Hrej; right; left; reflexivity|].
  split; [apply Hrej; left; reflexivity|].
  split; [apply Hrej; right; right; left; reflexivity|].
  by rewrite resolveProjectFilePath_accepts.
Qed.

(** A source file resolved against a project: accepted, inside. *)
Example C6_project_relative_sandbox_witness :
  resolveProjectFilePath "/srv" "/home/u/proj" "./src//a.ts" = Returned "/home/u/proj/src/a.ts"
  /\ inside "/srv" "/home/u/proj" "/home/u/proj/src/a.ts".
Proof.
  assert (H : resolveProjectFilePath "/srv" "/home/u/proj" "./src//a.ts"
              = Returned "/home/u/proj/src/a.ts") by (vm_compute; reflexivity).
  split; [exact H|].
  exact (proj1 (proj1 (proj2 (proj2
    (C6_project_relative_sandbox "/srv" "/home/u/proj" "./src//a.ts"))) _ H)).
Defined.

End PathSandbox.

(** ** The session log reader (sessionManagerNew.ts) *)

Module SessionLog.

Import JS.

Inductive Outcome : Type :=
  | Resolved
  | Rejected (message : string).

(** A project directory as [readdir] lists it: file names with their
    contents; [~/.claude/projects] maps an alias to its directory. *)
Abbreviation Directory := (list (string * string)).
Abbreviation Projects := (gmap string Directory).

Definition isJsonl (file : string) : bool := endsWith ".jsonl" file.

(** [content.split('\n').filter(line => line.trim())] *)
Definition nonBlankLines (content : string) : list string :=
  List.filter (fun line => negb (blank line)) (split_nl content).

Section Delete.

(** [JSON.parse]: [None] when it throws. *)
Variable JSON_parse : string -> option json.

(** [data.sessionId === sessionId] for the parsed line; a line that does
    not parse, or parses to [null] (reading its field throws), ends in
    the [catch]. *)
Definition lineOfSession (sessionId line : string) : option bool :=
  match JSON_parse line with
  | None | Some JNull => None
  | Some data => Some (field_is "sessionId" sessionId data)
  end.

(** The first loop over the lines of a file: [hasSession]. *)
Definition hasSession (sessionId : string) (lines : list string) : bool :=
  existsb (fun line => default false (lineOfSession sessionId line)) lines.

(** The filter of the rewrite: malformed lines are kept. *)
Definition filteredLines (sessionId : string) (lines : list string) : list string :=
  List.filter (fun line => negb (default false (lineOfSession sessionId line))) lines.

(** [filteredLines.length > 0 ? filteredLines.join('\n') + '\n' : ''] *)
Definition newContent (filtered : list string) : string :=
  match filtered with
  | [] => ""
  | _ => join NL filtered +:+ NL
  end.

(** The loop over the [.jsonl] files: the flag [sessionFound] and the
    directory after the writes. *)
Fixpoint processFiles (sessionId : string) (files : Directory) : bool * Directory :=
  match files with
  | [] => (false, [])
  | (file, content) :: rest =>
      let '(found, rest') := processFiles sessionId rest in
      if isJsonl file then
        let lines := nonBlankLines content in
        if hasSession sessionId lines then
          (true, (file, newContent (filteredLines sessionId lines)) :: rest')
        else (found, (file, content) :: rest')
      else (found, (file, content) :: rest')
  end.

(** [deleteSession(projectName, sessionId)]: the promise's outcome and
    the projects directory afterwards. *)
Definition deleteSession (projectName sessionId : string) (projects : Projects)
    : Outcome * Projects :=
  match projects !! projectName with
  | None => (Rejected "ENOENT", projects)
  | Some files =>
      if existsb (fun f => isJsonl f.1) files then
        let '(sessionFound, files') := processFiles sessionId files in
        (if sessionFound then Resolved
         else Rejected ("Session " +:+ sessionId +:+ " not found in any files"),
         <[projectName := files']> projects)
      else (Rejected "No session files found for this project", projects)
  end.

(** *** Properties of [deleteSession] *)

(** The file holds a parseable line of the session. *)
Definition contains (sessionId : string) (f : string * string) : bool :=
  isJsonl f.1 && hasSession sessionId (nonBlankLines f.2).

(** The file after the call. *)
Definition rewritten (sessionId : string) (f : string * string) : string * string :=
  (f.1, if contains sessionId f
        then newContent (filteredLines sessionId (nonBlankLines f.2))
        else f.2).

Lemma processFiles_spec sessionId files :
  processFiles sessionId files
  = (existsb (contains sessionId) files, map (rewritten sessionId) files).
Proof.
  induction files as [|[file content] files IH]; [done|].
  cbn [processFiles existsb map]. rewrite IH. unfold rewritten, contains. cbn [fst snd].
  destruct (isJsonl file); cbn [andb orb]; [|done].
  by destruct (hasSession sessionId (nonBlankLines content)).
Qed.

Lemma rewritten_unchanged sessionId files :
  existsb (contains sessionId) files = false ->
  map (rewritten sessionId) files = files.
Proof.
  induction files as [|[file content] files IH]; [done|]. cbn [existsb map].
  intros [Hc Hrest]%orb_false_elim. rewrite IH by done.
  unfold rewritten. by rewrite Hc.
Qed.




End Delete.

(** *** Session summaries: [parseJsonlSessions] and [getClaudeSessions] *)

(** [lastActivity] is kept as epoch milliseconds: the code stores
    [new Date(t).toISOString()] and only reads it back through
    [new Date(s).getTime()].  [id], [summary] and [cwd] are declared
    strings and hold whatever the log line holds: the fields of a parsed
    line are of any type. *)
Record ClaudeSession : Type := mkSession {
  id : json;
  summary : json;
  lastActivity : Z;
  messageCount : nat;
  cwd : json
}.

(** A log file of the directory: name, modification time, content. *)
Record LogFile : Type := mkLogFile {
  fileName : string;
  mtime : Z;
  fileContent : string
}.

Section Sessions.

Variable JSON_parse : string -> option json.

(** [new Date(v).getTime()] for a truthy JSON value: [None] when the
    date is invalid, in which case [toISOString] throws. *)
Variable Date_getTime : json -> option Z.

(** [content.length > 50 ? content.substring(0, 50) + '...' : content]:
    lengths and positions of a string count UTF-16 code units, which is
    a matter of the runtime. *)
Variable clip : string -> string.

(** [entry.message?.role === role] *)
Definition roleIs (role : string) (entry : json) : bool :=
  match get "message" entry with
  | Some message => field_is "role" role message
  | None => false
  end.

(** The two branches that set [session.summary]. *)
Definition nextSummary (entry : json) (current : json) : json :=
  match (if field_is "type" "summary" entry && truthy_json (get "summary" entry)
         then get "summary" entry else None) with
  | Some s => s
  | None =>
      match get "message" entry with
      | Some message =>
          if field_is "role" "user" message && truthy_json (get "content" message)
             && sameValueZero current (JStr "New Session") then
            match get "content" message with
            | Some (JStr content) =>
                if negb (String.eqb content "")
                   && negb (startsWith "<command-name>" content) then
                  JStr (clip content)
                else current
            | _ => current
            end
          else current
      | None => current
      end
  end.

(** The statements of the loop body after the session was found or
    created; when the date is invalid the last one throws and leaves
    [lastActivity] as it was. *)
Definition applyEntry (entry : json) (session : ClaudeSession) : ClaudeSession :=
  let summary' := nextSummary entry (summary session) in
  let count' :=
    if roleIs "user" entry || roleIs "assistant" entry
    then S (messageCount session) else messageCount session in
  let activity' :=
    if truthy_json (get "timestamp" entry) then
      match get "timestamp" entry ≫= Date_getTime with
      | Some t => t
      | None => lastActivity session
      end
    else lastActivity session in
  mkSession (id session) summary' activity' count' (cwd session).

(** [sessions.has(sid)]: the summaries are the values of a [Map] keyed
    by their ids, in insertion order. *)
Definition hasSessionId (sessions : list ClaudeSession) (sid : json) : bool :=
  existsb (fun s => sameValueZero (id s) sid) sessions.

(** The summary a line creates for an id not seen before: [entry.cwd ||
    '']. *)
Definition newSession (now : Z) (sid entry : json) : ClaudeSession :=
  mkSession sid (JStr "New Session") now 0
    (match get "cwd" entry with
     | Some c => if truthy_json (Some c) then c else JStr ""
     | None => JStr ""
     end).

(** One line of the log; [now] is the clock read for a new session.
    An id that is an array or an object is a reference no earlier line
    can have stored, so the line makes a summary of its own. *)
Definition processLine (now : Z) (sessions : list ClaudeSession) (line : string)
    : list ClaudeSession :=
  if blank line then sessions
  else
    match JSON_parse line with
    | None | Some JNull => sessions
    | Some entry =>
        match get "sessionId" entry with
        | None => sessions
        | Some sid =>
            if negb (truthy_json (Some sid)) then sessions
            else if isRef sid then sessions ++ [applyEntry entry (newSession now sid entry)]
            else
              let sessions :=
                if hasSessionId sessions sid then sessions
                else sessions ++ [newSession now sid entry] in
              map (fun s => if sameValueZero (id s) sid then applyEntry entry s else s)
                  sessions
        end
    end.

(** [parseJsonlSessions(filePath)] on the content of the file. *)
Definition parseJsonlSessions (now : Z) (content : string) : list ClaudeSession :=
  sortDesc lastActivity (foldl (processLine now) [] (readlineLines content)).

Record SessionPage : Type := mkPage {
  sessions : list ClaudeSession;
  hasMore : bool;
  total : nat
}.

(** The merge of one file's sessions: a session id already seen is
    skipped. *)
Definition mergeSession (allSessions : list ClaudeSession) (session : ClaudeSession)
    : list ClaudeSession :=
  if hasSessionId allSessions (id session) then allSessions
  else allSessions ++ [session].

Definition mergeFile (now : Z) (allSessions : list ClaudeSession) (file : LogFile)
    : list ClaudeSession :=
  foldl mergeSession allSessions (parseJsonlSessions now (fileContent file)).

(** The sessions of a directory before pagination. *)
Definition sortedSessions (now : Z) (files : list LogFile) : list ClaudeSession :=
  let jsonlFiles := List.filter (fun f => isJsonl (fileName f)) files in
  let filesWithStats := sortDesc mtime jsonlFiles in
  sortDesc lastActivity (foldl (mergeFile now) [] filesWithStats).

(** [getClaudeSessions(projectName, limit, offset)]; a directory that
    does not exist ends in the [catch]. *)
Definition getClaudeSessions (now : Z) (projectName : string) (limit offset : nat)
    (projects : gmap string (list LogFile)) : SessionPage :=
  match projects !! projectName with
  | None => mkPage [] false 0
  | Some files =>
      let all := sortedSessions now files in
      mkPage (take limit (drop offset all))
             (offset + limit <? length all)%nat
             (length all)
  end.

(** *** Properties of the session summaries *)

(** The entry of session [sid] a line holds, if any: the line is not
    blank and parses to a value whose [sessionId] is the string [sid],
    which is not empty. *)
Definition entryOf (sid line : string) : option json :=
  if blank line then None
  else
    match JSON_parse line with
    | None | Some JNull => None
    | Some entry =>
        if field_is "sessionId" sid entry && negb (String.eqb sid "")
        then Some entry else None
    end.

(** The entries of session [sid] in a file, in line order. *)
Definition sessionEntries (sid content : string) : list json :=
  omap (entryOf sid) (readlineLines content).

Definition isMessage (entry : json) : bool :=
  roleIs "user" entry || roleIs "assistant" entry.

(** The timestamp of the last entry that has a valid one, [now] when
    there is none. *)
Definition lastTimestamp (now : Z) (entries : list json) : Z :=
  foldl (fun t entry =>
           if truthy_json (get "timestamp" entry) then
             default t (get "timestamp" entry ≫= Date_getTime)
           else t) now entries.

(** The summaries whose id is the string [sid]. *)
Abbreviation bySid sid :=
  (filter (fun s : ClaudeSession => sameValueZero (id s) (JStr sid) = true)).

Lemma sameValueZero_JStr v t : sameValueZero v (JStr t) = true <-> v = JStr t.
Proof.
  destruct v; cbn; try (split; discriminate).
  split; [by intros ->%String.eqb_eq | intros [= ->]; apply String.eqb_refl].
Qed.

Lemma sameValueZero_trans a b c :
  sameValueZero a b = true -> sameValueZero a c = sameValueZero b c.
Proof.
  destruct a, b; cbn; try discriminate; try done.
  - intros ->%Bool.eqb_prop. done.
  - intros ->%Z.eqb_eq. done.
  - intros ->%String.eqb_eq. done.
Qed.

Lemma sameValueZero_sym a b : sameValueZero a b = sameValueZero b a.
Proof.
  destruct a, b; cbn; try done.
  - by destruct b, b0.
  - apply Z.eqb_sym.
  - apply String.eqb_sym.
Qed.

Lemma sameValueZero_ref a b : isRef b = true -> sameValueZero a b = false.
Proof. by destruct a, b. Qed.

Lemma insertDesc_Permutation {A} (key : A -> Z) x (l : list A) :
  insertDesc key x l ≡ₚ x :: l.
Proof.
  induction l as [|y l IH]; [done|]. cbn. destruct (key x <? key y); [|done].
  rewrite IH. apply Permutation_swap.
Qed.

Lemma sortDesc_Permutation {A} (key : A -> Z) (l : list A) : sortDesc key l ≡ₚ l.
Proof.
  induction l as [|x l IH]; [done|]. cbn. by rewrite insertDesc_Permutation, IH.
Qed.

(** Sorting does not change the summaries of a session when there is
    at most one. *)
Lemma bySid_sortDesc sid (key : ClaudeSession -> Z) l σs :
  bySid sid l = σs -> (length σs <= 1)%nat -> bySid sid (sortDesc key l) = σs.
Proof.
  intros Hl Hlen.
  assert (Hp : bySid sid (sortDesc key l) ≡ₚ σs).
  { by rewrite sortDesc_Permutation, Hl. }
  destruct σs as [|σ [|σ' σs]]; [| |cbn in Hlen; lia].
  - by apply Permutation_nil_r.
  - by apply Permutation_singleton_r.
Qed.

Lemma hasSessionId_bySid (l : list ClaudeSession) sid :
  hasSessionId l (JStr sid) = false <-> bySid sid l = [].
Proof.
  unfold hasSessionId. induction l as [|s l IH]; [done|]. cbn [existsb].
  destruct (sameValueZero (id s) (JStr sid)) eqn:He; cbn [orb].
  - rewrite filter_cons_True by done. split; discriminate.
  - rewrite filter_cons_False by (by rewrite He). done.
Qed.

Lemma bySid_update sid t (f : ClaudeSession -> ClaudeSession) (l : list ClaudeSession) :
  (forall s, id (f s) = id s) ->
  bySid sid (map (fun s => if sameValueZero (id s) t then f s else s) l)
  = if sameValueZero t (JStr sid) then map f (bySid sid l) else bySid sid l.
Proof.
  intros Hid. induction l as [|s l IH]; [by destruct (sameValueZero t (JStr sid))|].
  cbn [map].
  destruct (sameValueZero (id s) t) eqn:He.
  - pose proof (sameValueZero_trans _ _ (JStr sid) He) as Hst.
    destruct (sameValueZero t (JStr sid)) eqn:Ht.
    + rewrite !filter_cons_True by (rewrite ?Hid; done). cbn [map]. by rewrite IH.
    + rewrite !filter_cons_False by (rewrite ?Hid, Hst; done). by rewrite IH.
  - destruct (sameValueZero (id s) (JStr sid)) eqn:Hs.
    + rewrite !filter_cons_True by done.
      destruct (sameValueZero t (JStr sid)) eqn:Ht; [|by rewrite IH].
      rewrite sameValueZero_sym in Ht.
      rewrite (sameValueZero_sym (id s)), (sameValueZero_trans _ _ _ Ht) in Hs.
      rewrite sameValueZero_sym in Hs. congruence.
    + rewrite !filter_cons_False by (by rewrite Hs). done.
Qed.

(** The effect of one line on the summaries of session [sid]. *)
Definition trackLine (now : Z) (sid : string) (σs : list ClaudeSession) (line : string)
    : list ClaudeSession :=
  match entryOf sid line with
  | Some entry =>
      map (applyEntry entry)
          (match σs with
           | [] => [newSession now (JStr sid) entry]
           | _ => σs
           end)
  | None => σs
  end.

Lemma field_is_get k s v : field_is k s v = true <-> get k v = Some (JStr s).
Proof.
  unfold field_is. destruct (get k v) as [[]|]; try (split; discriminate).
  split; [by intros ->%String.eqb_eq | intros [= ->]; apply String.eqb_refl].
Qed.

Lemma bySid_processLine now sid st line :
  bySid sid (processLine now st line) = trackLine now sid (bySid sid st) line.
Proof.
  unfold processLine, trackLine, entryOf. destruct (blank line); [done|].
  destruct (JSON_parse line) as [entry|]; [|done].
  assert (Hmain :
    bySid sid
      match get "sessionId" entry with
      | None => st
      | Some v =>
          if negb (truthy_json (Some v)) then st
          else if isRef v then st ++ [applyEntry entry (newSession now v entry)]
          else
            map (fun s => if sameValueZero (id s) v then applyEntry entry s else s)
                (if hasSessionId st v then st else st ++ [newSession now v entry])
      end
    = match (if field_is "sessionId" sid entry && negb (String.eqb sid "")
             then Some entry else None) with
      | Some entry =>
          map (applyEntry entry)
              (match bySid sid st with
               | [] => [newSession now (JStr sid) entry]
               | _ => bySid sid st
               end)
      | None => bySid sid st
      end).
  { destruct (get "sessionId" entry) as [v|] eqn:Hv.
    2:{ assert (field_is "sessionId" sid entry = false) as ->; [|done].
        apply not_true_iff_false. intros H%field_is_get. congruence. }
    destruct (field_is "sessionId" sid entry && negb (String.eqb sid "")) eqn:Hf.
    - apply andb_prop in Hf as [Hf Hne]. apply field_is_get in Hf.
      rewrite Hv in Hf. injection Hf as ->.
      assert (truthy_json (Some (JStr sid)) = true) as -> by done.
      cbn [negb isRef]. rewrite bySid_update by done.
      assert (sameValueZero (JStr sid) (JStr sid) = true) as ->
        by (by apply sameValueZero_JStr).
      destruct (hasSessionId st (JStr sid)) eqn:Hh.
      + destruct (bySid sid st) eqn:Hb; [|done].
        apply hasSessionId_bySid in Hb. congruence.
      + apply hasSessionId_bySid in Hh as Hb. rewrite list.filter_app, Hb.
        rewrite filter_cons_True by (by apply sameValueZero_JStr). done.
    - assert (Hnot : truthy_json (Some v) = true -> sameValueZero v (JStr sid) = false).
      { intros Ht. apply not_true_iff_false. intros ->%sameValueZero_JStr.
        rewrite (proj2 (field_is_get "sessionId" sid entry) Hv) in Hf.
        cbn in Ht. cbn in Hf. by rewrite Ht in Hf. }
      destruct (truthy_json (Some v)) eqn:Ht; [|done]. cbn [negb].
      specialize (Hnot eq_refl).
      destruct (isRef v) eqn:Hr.
      + rewrite list.filter_app, filter_cons_False; [by rewrite app_nil_r|].
        cbn [id applyEntry newSession]. by rewrite Hnot.
      + rewrite bySid_update, Hnot by done.
        destruct (hasSessionId st v); [done|].
        rewrite list.filter_app, filter_cons_False; [by rewrite app_nil_r|].
        cbn [id newSession]. by rewrite Hnot. }
  destruct entry; try done; exact Hmain.
Qed.

Lemma bySid_lines now sid (lines : list string) st :
  bySid sid (foldl (processLine now) st lines)
  = foldl (trackLine now sid) (bySid sid st) lines.
Proof.
  revert st. induction lines as [|line lines IH]; intros st; [done|].
  cbn [foldl]. by rewrite IH, bySid_processLine.
Qed.

Lemma omap_cons {A B} (f : A -> option B) x (l : list A) :
  omap f (x :: l) = match f x with Some y => y :: omap f l | None => omap f l end.
Proof. reflexivity. Qed.

(** What the summary of a session accumulates over lines. *)
Lemma trackLine_some now sid (lines : list string) σ :
  exists σ', foldl (trackLine now sid) [σ] lines = [σ']
    /\ id σ' = id σ
    /\ messageCount σ'
       = (messageCount σ + length (List.filter isMessage (omap (entryOf sid) lines)))%nat
    /\ lastActivity σ' = lastTimestamp (lastActivity σ) (omap (entryOf sid) lines).
Proof.
  revert σ. induction lines as [|line lines IH]; intros σ.
  - exists σ. cbn. repeat split; lia.
  - cbn [foldl]. rewrite omap_cons. unfold trackLine at 2.
    destruct (entryOf sid line) as [entry|] eqn:He; [|apply IH].
    cbn [map]. destruct (IH (applyEntry entry σ)) as (σ' & -> & Hid & Hc & Ht).
    exists σ'. split; [done|]. split; [by rewrite Hid|]. split.
    + rewrite Hc. cbn [List.filter applyEntry messageCount]. unfold isMessage at 2.
      destruct (roleIs "user" entry || roleIs "assistant" entry); cbn [length]; lia.
    + rewrite Ht. reflexivity.
Qed.

Lemma trackLine_none now sid (lines : list string) :
  (omap (entryOf sid) lines = [] -> foldl (trackLine now sid) [] lines = [])
  /\ (omap (entryOf sid) lines ≠ [] ->
      exists σ, foldl (trackLine now sid) [] lines = [σ]
        /\ id σ = JStr sid
        /\ messageCount σ = length (List.filter isMessage (omap (entryOf sid) lines))
        /\ lastActivity σ = lastTimestamp now (omap (entryOf sid) lines)).
Proof.
  induction lines as [|line lines IH]; [done|]. cbn [foldl]. rewrite omap_cons.
  unfold trackLine at 2 4.
  destruct (entryOf sid line) as [entry|] eqn:He; [|exact IH].
  split; [discriminate|]. intros _. cbn [map].
  destruct (trackLine_some now sid lines
              (applyEntry entry (newSession now (JStr sid) entry)))
    as (σ & -> & Hid & Hc & Ht).
  exists σ. split; [done|]. split; [done|]. split.
  - rewrite Hc. cbn [List.filter applyEntry messageCount newSession].
    unfold isMessage at 2.
    destruct (roleIs "user" entry || roleIs "assistant" entry); cbn [length]; lia.
  - rewrite Ht. reflexivity.
Qed.

Lemma bySid_parse now sid content :
  (sessionEntries sid content = [] -> bySid sid (parseJsonlSessions now content) = [])
  /\ (sessionEntries sid content ≠ [] ->
      exists σ, bySid sid (parseJsonlSessions now content) = [σ]
        /\ id σ = JStr sid
        /\ messageCount σ = length (List.filter isMessage (sessionEntries sid content))
        /\ lastActivity σ = lastTimestamp now (sessionEntries sid content)).
Proof.
  unfold parseJsonlSessions, sessionEntries.
  destruct (trackLine_none now sid (readlineLines content)) as [Hnil Hsome]. split.
  - intros H. apply bySid_sortDesc; [|cbn; lia]. rewrite bySid_lines. by apply Hnil.
  - intros H. destruct (Hsome H) as (σ & Hσ & Hrest). exists σ. split; [|done].
    apply bySid_sortDesc; [|cbn; lia]. by rewrite bySid_lines.
Qed.

Lemma bySid_parse_length now sid content :
  (length (bySid sid (parseJsonlSessions now content)) <= 1)%nat.
Proof.
  destruct (bySid_parse now sid content) as [Hnil Hsome].
  destruct (decide (sessionEntries sid content = [])) as [H|H].
  - rewrite (Hnil H). cbn. lia.
  - destruct (Hsome H) as (σ & -> & _). cbn. lia.
Qed.

Lemma bySid_mergeSession sid acc x :
  bySid sid (mergeSession acc x)
  = match bySid sid acc with [] => bySid sid [x] | l => l end.
Proof.
  unfold mergeSession. destruct (hasSessionId acc (id x)) eqn:Hh.
  - destruct (bySid sid acc) eqn:Hb; [|done].
    rewrite filter_cons_False; [done|]. intros Hx%sameValueZero_JStr.
    rewrite Hx in Hh. apply hasSessionId_bySid in Hb. congruence.
  - rewrite list.filter_app.
    destruct (sameValueZero (id x) (JStr sid)) eqn:Hx.
    + apply sameValueZero_JStr in Hx. rewrite Hx in Hh.
      apply hasSessionId_bySid in Hh. by rewrite Hh.
    + rewrite (filter_cons_False _ x) by (by rewrite Hx). rewrite app_nil_r.
      by destruct (bySid sid acc).
Qed.

Lemma bySid_mergeList sid (X acc : list ClaudeSession) :
  (length (bySid sid X) <= 1)%nat ->
  bySid sid (foldl mergeSession acc X)
  = match bySid sid acc with [] => bySid sid X | l => l end.
Proof.
  revert acc. induction X as [|x X IH]; intros acc Hlen.
  - cbn. by destruct (bySid sid acc).
  - cbn [foldl].
    assert (Hlen' : (length (bySid sid X) <= 1)%nat).
    { destruct (sameValueZero (id x) (JStr sid)) eqn:Hx.
      - rewrite filter_cons_True in Hlen by done. cbn in Hlen. lia.
      - rewrite filter_cons_False in Hlen by (by rewrite Hx). done. }
    rewrite IH, bySid_mergeSession by done.
    destruct (bySid sid acc) as [|a l]; [|done].
    destruct (sameValueZero (id x) (JStr sid)) eqn:Hx.
    + rewrite filter_cons_True in Hlen by done. rewrite !filter_cons_True by done.
      destruct (bySid sid X); [done | cbn in Hlen; lia].
    + rewrite !filter_cons_False by (by rewrite Hx). done.
Qed.

Lemma bySid_mergeFile now sid acc file :
  bySid sid (mergeFile now acc file)
  = match bySid sid acc with
    | [] => bySid sid (parseJsonlSessions now (fileContent file))
    | l => l
    end.
Proof. apply bySid_mergeList, bySid_parse_length. Qed.

Lemma bySid_mergeFiles_kept now sid (files : list LogFile) acc σ σs :
  bySid sid acc = σ :: σs ->
  bySid sid (foldl (mergeFile now) acc files) = σ :: σs.
Proof.
  revert acc. induction files as [|f files IH]; intros acc Ha; [done|].
  cbn [foldl]. apply IH. by rewrite bySid_mergeFile, Ha.
Qed.

Lemma bySid_mergeFiles_skipped now sid (files : list LogFile) acc :
  Forall (fun f => sessionEntries sid (fileContent f) = []) files ->
  bySid sid acc = [] ->
  bySid sid (foldl (mergeFile now) acc files) = [].
Proof.
  revert acc. induction files as [|f files IH]; intros acc Hf Ha; [done|].
  inversion Hf; subst. cbn [foldl]. apply IH; [done|].
  rewrite bySid_mergeFile, Ha. by apply bySid_parse.
Qed.

(** The files of a directory in the order they are merged. *)
Definition mergeOrder (files : list LogFile) : list LogFile :=
  sortDesc mtime (List.filter (fun f => isJsonl (fileName f)) files).

(** C3, amended: when the session occurs in several files of the alias
    directory, [listSessions] still returns exactly one summary for it,
    and that summary is the one of the first file, newest modification
    time first, that has lines of the session (first writer wins): its
    messageCount is the number of lines with role user or assistant of
    that session in that file alone, and its lastActivity is the
    timestamp of the last timestamped line of the session in that file.
    The summary is on the page when the page covers all sessions.  The
    lines of a file are those [readline] yields. *)
Theorem C3_listSessions_first_writer now projectName projects files sid pre F post limit :
  projects !! projectName = Some files ->
  mergeOrder files = pre ++ F :: post ->
  Forall (fun f => sessionEntries sid (fileContent f) = []) pre ->
  sessionEntries sid (fileContent F) ≠ [] ->
  let page := getClaudeSessions now projectName limit 0 projects in
  exists σ,
    bySid sid (sortedSessions now files) = [σ]
    /\ id σ = JStr sid
    /\ messageCount σ = length (List.filter isMessage (sessionEntries sid (fileContent F)))
    /\ lastActivity σ = lastTimestamp now (sessionEntries sid (fileContent F))
    /\ total page = length (sortedSessions now files)
    /\ ((total page <= limit)%nat -> bySid sid (sessions page) = [σ]).
Proof.
  intros Hfiles Horder Hpre HF page.
  destruct (proj2 (bySid_parse now sid (fileContent F)) HF) as (σ & Hσ & Hid & Hc & Ht).
  assert (Hall : bySid sid (sortedSessions now files) = [σ]).
  { unfold sortedSessions. cbv zeta. fold (mergeOrder files). rewrite Horder.
    apply bySid_sortDesc; [|cbn; lia]. rewrite foldl_app. cbn [foldl].
    apply bySid_mergeFiles_kept. rewrite bySid_mergeFile.
    by rewrite (bySid_mergeFiles_skipped now sid pre []). }
  exists σ. subst page. unfold getClaudeSessions. rewrite Hfiles. cbn [total sessions].
  repeat (split; [done|]). intros Hlimit. rewrite drop_0, take_ge; done.
Qed.

End Sessions.

(** *** The reader on sample logs *)

(** A log line of a session: a message with a role and a numeric
    timestamp in epoch milliseconds. *)
Definition logLine (sid role text : string) (timestamp : Z) : json :=
  JObj [("sessionId", JStr sid); ("timestamp", JNum timestamp);
        ("message", JObj [("role", JStr role); ("content", JStr text)])].

(** [new Date(n).getTime()] for the numeric timestamps of the samples. *)
Definition sampleDate (v : json) : option Z :=
  match v with JNum n => Some n | _ => None end.

(** The clipping of the samples, whose texts are short. *)
Definition sampleClip (content : string) : string := content.

Definition a1 : json := logLine "s" "user" "hi" 10.
Definition b1 : json := logLine "s" "user" "more" 20.
Definition b2 : json := logLine "s" "assistant" "sure" 30.
Definition c1 : json := logLine "t" "user" "other" 5.

Definition sampleParse : string -> option json := tableParse [a1; b1; b2; c1].

Definition fileA : LogFile := mkLogFile "a.jsonl" 2 (stringify a1 +:+ NL).
Definition fileB : LogFile :=
  mkLogFile "b.jsonl" 1 (stringify b1 +:+ NL +:+ stringify b2 +:+ NL).

(** C3, refuted as stated: session [s] has one message in the newer file
    and two in the older one.  The one summary returned counts the
    message of the newer file only and carries its timestamp, not the
    three messages of the union nor the maximum timestamp 30. *)
Lemma C3_older_file_not_merged :
  let projects : gmap string (list LogFile) := {[ "-tmp-p" := [fileB; fileA] ]} in
  let page := getClaudeSessions sampleParse sampleDate sampleClip 99 "-tmp-p" 5 0 projects in
  let union := sessionEntries sampleParse "s" (fileContent fileA)
               ++ sessionEntries sampleParse "s" (fileContent fileB) in
  sessions page = [mkSession (JStr "s") (JStr "hi") 10 1 (JStr "")]
  /\ length (List.filter isMessage union) = 3%nat
  /\ lastTimestamp sampleDate 99 union = 30.
Proof. vm_compute. repeat split; reflexivity. Qed.

Example C3_listSessions_first_writer_witness :
  exists σ,
    filter (fun s : ClaudeSession => sameValueZero (id s) (JStr "s") = true)
      (sortedSessions sampleParse sampleDate sampleClip 99 [fileB; fileA]) = [σ]
    /\ messageCount σ = 1%nat /\ lastActivity σ = 10.
Proof.
  destruct (C3_listSessions_first_writer sampleParse sampleDate sampleClip 99 "-tmp-p"
              {[ "-tmp-p" := [fileB; fileA] ]} [fileB; fileA] "s" [] fileA [fileB] 5%nat
              (lookup_singleton_eq _ _) eq_refl (Forall_nil _) ltac:(discriminate))
    as (σ & H1 & _ & H3 & H4 & _).
  exists σ. split; [exact H1|]. split; [exact H3 | exact H4].
Defined.




End SessionLog.

(** ** Project discovery (projectDiscovery.ts) *)

Module Discovery.

Import JS.

(** The loop state of [extractProjectDirectory]: the [cwdCounts] map in
    insertion order, [latestTimestamp] and [latestCwd].  The [cwd] of a
    parsed line is of any type, so the keys are JSON values, which a
    [Map] compares as [sameValueZero] does. *)
Record Scan : Type := mkScan {
  cwdCounts : list (json * nat);
  latestTimestamp : Z;
  latestCwd : option json
}.

(** [cwdCounts.set(cwd, (cwdCounts.get(cwd) || 0) + 1)]: a key already
    present keeps its place, a new key goes last.  An array or an object
    is a new key each time. *)
Fixpoint increment (c : json) (counts : list (json * nat)) : list (json * nat) :=
  match counts with
  | [] => [(c, 1%nat)]
  | (k, n) :: rest =>
      if sameValueZero k c then (k, S n) :: rest else (k, n) :: increment c rest
  end.

(** The count stored under a value. *)
Fixpoint lookupCount (c : json) (counts : list (json * nat)) : nat :=
  match counts with
  | [] => 0%nat
  | (k, n) :: rest => if sameValueZero k c then n else lookupCount c rest
  end.

(** [cwdCounts.get(c) || 0] for a [c] taken from the map, as the code
    has it: an array or an object is found by its identity, and was
    counted once. *)
Definition countOf (c : json) (counts : list (json * nat)) : nat :=
  if isRef c then 1%nat else lookupCount c counts.

Section Extract.

(** [JSON.parse]: [None] when it throws. *)
Variable JSON_parse : string -> option json.

(** [new Date(v).getTime()] for a truthy JSON value: [None] for NaN. *)
Variable Date_getTime : json -> option Z.

(** One line of a log file, for any truthy [cwd]; a line that parses to
    [null] throws on the field and is skipped like a malformed one.  A
    NaN timestamp is greater than nothing. *)
Definition scanLine (st : Scan) (line : string) : Scan :=
  if blank line then st
  else
    match JSON_parse line with
    | None | Some JNull => st
    | Some entry =>
        match get "cwd" entry with
        | None => st
        | Some c =>
            if negb (truthy_json (Some c)) then st else
            let counts := increment c (cwdCounts st) in
            let timestamp :=
              if truthy_json (get "timestamp" entry)
              then get "timestamp" entry ≫= Date_getTime
              else Some 0 in
            match timestamp with
            | Some t =>
                if latestTimestamp st <? t then mkScan counts t (Some c)
                else mkScan counts (latestTimestamp st) (latestCwd st)
            | None => mkScan counts (latestTimestamp st) (latestCwd st)
            end
        end
    end.

(** The lines of a file are those [readline] yields. *)
Definition scanFile (st : Scan) (file : string * string) : Scan :=
  foldl scanLine st (readlineLines file.2).

(** [projectName.replace(/-/g, '/')] *)
Definition decodeAlias (projectName : string) : string :=
  replace_char "-"%char "/"%char projectName.

(** The choice after the scan.  The test
    [latestCount >= mostFrequentCount * 0.3] is stated over the
    integers: for counts below 2^49 the double product is the integer
    [3 * mostFrequentCount / 10] when that is an integer and lies
    strictly between two integers otherwise, so the two tests agree. *)
Definition chooseDirectory (projectName : string) (st : Scan) : json :=
  match cwdCounts st with
  | [] => JStr (decodeAlias projectName)
  | [(firstKey, _)] =>
      if truthy_json (Some firstKey) then firstKey else JStr (decodeAlias projectName)
  | counts =>
      let entries := sortDesc (fun e : json * nat => Z.of_nat e.2) counts in
      match entries with
      | [] => JStr (decodeAlias projectName)
      | (mostFrequent, _) :: _ =>
          if negb (truthy_json (Some mostFrequent)) then JStr (decodeAlias projectName)
          else
            let latestCount :=
              match latestCwd st with
              | Some l => if truthy_json (Some l) then countOf l counts else 0%nat
              | None => 0%nat
              end in
            let mostFrequentCount := countOf mostFrequent counts in
            match latestCwd st with
            | Some l =>
                if truthy_json (Some l)
                   && (3 * mostFrequentCount <=? 10 * latestCount)%nat
                then l else mostFrequent
            | None => mostFrequent
            end
      end
  end.

(** [extractProjectDirectory(projectName)]: the path and the cache
    afterwards.  A project directory that does not exist ends in the
    [catch].  The path is declared a string and is the [cwd] value
    chosen, of whatever type. *)
Definition extractProjectDirectory (projectName : string)
    (projects : gmap string (list (string * string)))
    (projectDirectoryCache : gmap string json) : json * gmap string json :=
  match projectDirectoryCache !! projectName with
  | Some cached => (cached, projectDirectoryCache)
  | None =>
      let extractedPath :=
        match projects !! projectName with
        | None => JStr (decodeAlias projectName)
        | Some files =>
            let jsonlFiles := List.filter (fun f => SessionLog.isJsonl f.1) files in
            match jsonlFiles with
            | [] => JStr (decodeAlias projectName)
            | _ => chooseDirectory projectName (foldl scanFile (mkScan [] 0 None) jsonlFiles)
            end
        end in
      (extractedPath, <[projectName := extractedPath]> projectDirectoryCache)
  end.

(** *** Properties of the scan and the choice *)

(** What a line contributes: its [cwd] and the time read from its
    timestamp ([Some 0] when it has none, [None] when it is not a date). *)
Definition cwdOfLine (line : string) : option (json * option Z) :=
  if blank line then None
  else
    match JSON_parse line with
    | None | Some JNull => None
    | Some entry =>
        match get "cwd" entry with
        | None => None
        | Some c =>
            if negb (truthy_json (Some c)) then None else
            Some (c, if truthy_json (get "timestamp" entry)
                     then get "timestamp" entry ≫= Date_getTime
                     else Some 0)
        end
    end.

(** The [cwd] occurrences of the log files, in reading order. *)
Definition pairsOf (files : list (string * string)) : list (json * option Z) :=
  flat_map (fun f => omap cwdOfLine (readlineLines f.2)) files.

Definition scanPair (st : Scan) (p : json * option Z) : Scan :=
  let counts := increment p.1 (cwdCounts st) in
  match p.2 with
  | Some t =>
      if latestTimestamp st <? t then mkScan counts t (Some p.1)
      else mkScan counts (latestTimestamp st) (latestCwd st)
  | None => mkScan counts (latestTimestamp st) (latestCwd st)
  end.

Lemma scanLine_pair st line :
  scanLine st line = match cwdOfLine line with Some p => scanPair st p | None => st end.
Proof.
  unfold scanLine, cwdOfLine, scanPair. destruct (blank line); [done|].
  destruct (JSON_parse line) as [entry|]; [|done].
  destruct entry; try done;
    (destruct (get "cwd" _) as [c|]; [|done]; by destruct (truthy_json (Some c))).
Qed.

Lemma scanLines_pairs (lines : list string) st :
  foldl scanLine st lines = foldl scanPair st (omap cwdOfLine lines).
Proof.
  revert st. induction lines as [|line lines IH]; intros st; [done|].
  cbn [foldl]. rewrite SessionLog.omap_cons, scanLine_pair.
  destruct (cwdOfLine line); [cbn [foldl]|]; apply IH.
Qed.

Lemma scanFiles_pairs (files : list (string * string)) st :
  foldl scanFile st files = foldl scanPair st (pairsOf files).
Proof.
  revert st. induction files as [|f files IH]; intros st; [done|].
  cbn [foldl pairsOf flat_map]. rewrite foldl_app, <- scanLines_pairs. apply IH.
Qed.

Lemma cwdOfLine_truthy line c t :
  cwdOfLine line = Some (c, t) -> truthy_json (Some c) = true.
Proof.
  unfold cwdOfLine. destruct (blank line); [done|].
  destruct (JSON_parse line) as [entry|]; [|done].
  assert (H : match get "cwd" entry with
              | None => None
              | Some c =>
                  if negb (truthy_json (Some c)) then None else
                  Some (c, if truthy_json (get "timestamp" entry)
                           then get "timestamp" entry ≫= Date_getTime
                           else Some 0)
              end = Some (c, t) -> truthy_json (Some c) = true).
  { destruct (get "cwd" entry) as [c'|]; [|done].
    destruct (truthy_json (Some c')) eqn:E; [|done]. by intros [= <- _]. }
  destruct entry; try done; exact H.
Qed.

Lemma pairsOf_truthy files p : p ∈ pairsOf files -> truthy_json (Some p.1) = true.
Proof.
  unfold pairsOf. intros Hin. apply list_elem_of_In, in_flat_map in Hin as (f & _ & Hin).
  apply list_elem_of_In, list_elem_of_omap in Hin as (line & _ & Hl).
  destruct p as [c t]. by eapply cwdOfLine_truthy.
Qed.

(** On values one of which is no reference, the comparison of the map
    is equality. *)
Lemma sameValueZero_spec (a b : json) :
  isRef b = false -> reflect (a = b) (sameValueZero a b).
Proof.
  intros Hb. destruct a, b; cbn; try discriminate Hb; try (by constructor).
  - destruct (Bool.eqb_spec b0 b); constructor; congruence.
  - destruct (Z.eqb_spec n n0); constructor; congruence.
  - destruct (String.eqb_spec s s0); constructor; congruence.
Qed.

(** Counting. *)
Definition occurrences (c : json) (pairs : list (json * option Z)) : nat :=
  length (filter (fun p : json * option Z => p.1 = c) pairs).

Lemma countOf_lookupCount c counts : isRef c = false -> countOf c counts = lookupCount c counts.
Proof. unfold countOf. by intros ->. Qed.

Lemma lookupCount_increment c c' counts :
  isRef c = false -> isRef c' = false ->
  lookupCount c (increment c' counts)
  = (lookupCount c counts + if bool_decide (c = c') then 1 else 0)%nat.
Proof.
  intros Hc Hc'. induction counts as [|[k n] counts IH]; cbn [increment lookupCount].
  - destruct (sameValueZero_spec c' c Hc); case_bool_decide; try congruence; lia.
  - destruct (sameValueZero_spec k c' Hc') as [->|Hne]; cbn [lookupCount].
    + destruct (sameValueZero_spec c' c Hc); case_bool_decide; try congruence; lia.
    + destruct (sameValueZero_spec k c Hc) as [->|Hne2]; [|apply IH].
      rewrite bool_decide_eq_false_2 by done. lia.
Qed.

Lemma keys_increment c counts :
  isRef c = false ->
  map fst (increment c counts)
  = if bool_decide (c ∈ map fst counts) then map fst counts else map fst counts ++ [c].
Proof.
  intros Hc. induction counts as [|[k n] counts IH]; cbn [increment map fst].
  - rewrite bool_decide_eq_false_2; [done | apply not_elem_of_nil].
  - destruct (sameValueZero_spec k c Hc) as [->|Hne]; cbn [map fst].
    + rewrite bool_decide_eq_true_2; [done | apply list_elem_of_here].
    + rewrite IH. case_bool_decide as H1.
      * rewrite bool_decide_eq_true_2; [done | by apply list_elem_of_further].
      * rewrite bool_decide_eq_false_2; [done|].
        intros [?|?]%elem_of_cons; congruence.
Qed.

Definition countAll (counts : list (json * nat)) (pairs : list (json * option Z))
    : list (json * nat) :=
  foldl (fun cs p => increment p.1 cs) counts pairs.

Lemma scan_counts pairs st :
  cwdCounts (foldl scanPair st pairs) = countAll (cwdCounts st) pairs.
Proof.
  revert st. unfold countAll. induction pairs as [|p pairs IH]; intros st; [done|].
  cbn [foldl]. rewrite IH. f_equal. unfold scanPair.
  destruct p.2; [destruct (_ <? _)|]; done.
Qed.

(** The logs whose [cwd] values are strings, numbers or booleans. *)
Definition primitive (pairs : list (json * option Z)) : Prop :=
  Forall (fun p : json * option Z => isRef p.1 = false) pairs.

Lemma lookupCount_countAll c pairs counts :
  isRef c = false -> primitive pairs ->
  lookupCount c (countAll counts pairs) = (lookupCount c counts + occurrences c pairs)%nat.
Proof.
  intros Hc Hp. revert counts. unfold countAll, occurrences.
  induction Hp as [|p pairs Hp _ IH]; intros counts; [cbn; lia|].
  cbn [foldl]. rewrite IH, lookupCount_increment by done.
  destruct (decide (p.1 = c)) as [He|Hne].
  - rewrite filter_cons_True by done. rewrite bool_decide_eq_true_2 by done. cbn [length]. lia.
  - rewrite filter_cons_False by done. rewrite bool_decide_eq_false_2 by congruence. lia.
Qed.

Lemma keys_countAll pairs counts k :
  primitive pairs ->
  k ∈ map fst (countAll counts pairs)
  <-> k ∈ map fst counts \/ exists p, p ∈ pairs /\ p.1 = k.
Proof.
  intros Hp. revert counts. unfold countAll.
  induction Hp as [|p pairs Hp _ IH]; intros counts.
  - cbn. split; [by left|]. intros [?|(p & Hp & _)]; [done|]. by apply elem_of_nil in Hp.
  - cbn [foldl]. rewrite IH, keys_increment by done. split.
    + intros [H|(q & Hq & <-)].
      * case_bool_decide; [by left|]. apply elem_of_app in H as [H|H]; [by left|].
        apply list_elem_of_singleton in H as ->. right. exists p. split; [left|done].
      * right. exists q. split; [by right | done].
    + intros [H|(q & Hq & <-)].
      * left. case_bool_decide; [done|]. apply elem_of_app. by left.
      * apply elem_of_cons in Hq as [->|Hq]; [|right; eauto].
        left. case_bool_decide; [done|]. apply elem_of_app. right. apply list_elem_of_here.
Qed.

Lemma keys_countAll_NoDup pairs counts :
  primitive pairs ->
  NoDup (map fst counts) -> NoDup (map fst (countAll counts pairs)).
Proof.
  intros Hp. revert counts. unfold countAll.
  induction Hp as [|p pairs Hp _ IH]; intros counts Hnd; [done|].
  cbn [foldl]. apply IH. rewrite keys_increment by done. case_bool_decide as H; [done|].
  apply list.NoDup_app. split; [done|]. split; [|apply NoDup_singleton].
  intros x Hx ->%list_elem_of_singleton. done.
Qed.

Lemma lookupCount_member counts k n :
  isRef k = false ->
  NoDup (map fst counts) -> (k, n) ∈ counts -> lookupCount k counts = n.
Proof.
  intros Hk.
  induction counts as [|[k' n'] counts IH]; intros Hnd Hin; [by apply elem_of_nil in Hin|].
  cbn [map fst] in Hnd. apply list.NoDup_cons in Hnd as [Hk' Hnd]. cbn [lookupCount].
  apply elem_of_cons in Hin as [[= -> ->]|Hin].
  { by destruct (sameValueZero_spec k' k' Hk). }
  destruct (sameValueZero_spec k' k Hk) as [->|Hne]; [|by apply IH].
  exfalso. apply Hk'. apply list_elem_of_In, in_map_iff. exists (k, n).
  split; [done | by apply list_elem_of_In].
Qed.

(** The head of a descending sort is a maximum. *)
Lemma sortDesc_head_max {A} (key : A -> Z) (l : list A) x rest :
  sortDesc key l = x :: rest -> x ∈ l /\ forall y, y ∈ l -> key y <= key x.
Proof.
  revert x rest. induction l as [|a l IH]; intros x rest; [done|].
  cbn [sortDesc foldr]. fold (sortDesc key l).
  destruct (sortDesc key l) as [|y r] eqn:Hs; cbn [insertDesc].
  - intros [= <- <-]. destruct l as [|b l].
    + split; [left|]. intros y ->%list_elem_of_singleton. lia.
    + exfalso. cbn [sortDesc foldr] in Hs. fold (sortDesc key l) in Hs.
      destruct (sortDesc key l); cbn in Hs; [done|]. by destruct (_ <? _).
  - destruct (IH y r eq_refl) as [Hy Hmax].
    destruct (Z.ltb_spec (key a) (key y)); intros [= <- <-].
    + split; [by right|]. intros z [->|Hz]%elem_of_cons; [lia | by apply Hmax].
    + split; [left|]. intros z [->|Hz]%elem_of_cons; [lia|]. specialize (Hmax z Hz). lia.
Qed.

(** The latest timestamp seen, and whose it is. *)
Definition latestInv (seen : list (json * option Z)) (st : Scan) : Prop :=
  (forall c t, (c, Some t) ∈ seen -> t <= latestTimestamp st)
  /\ match latestCwd st with
     | Some l => 0 < latestTimestamp st /\ (l, Some (latestTimestamp st)) ∈ seen
     | None => latestTimestamp st = 0
     end.

Lemma latest_fold pairs seen st :
  latestInv seen st -> latestInv (seen ++ pairs) (foldl scanPair st pairs).
Proof.
  revert seen st. induction pairs as [|[c ot] pairs IH]; intros seen st Hinv.
  - by rewrite app_nil_r.
  - cbn [foldl]. replace (seen ++ (c, ot) :: pairs) with ((seen ++ [(c, ot)]) ++ pairs)
      by (by rewrite <- app_assoc).
    apply IH. destruct Hinv as [Hmax Hl]. unfold scanPair. cbn [fst snd].
    destruct ot as [t|].
    + destruct (Z.ltb_spec (latestTimestamp st) t) as [Hlt|Hge]; split; cbn.
      * intros c' t' [H|H]%elem_of_app; [specialize (Hmax _ _ H); lia|].
        apply list_elem_of_singleton in H as [= -> ->]. lia.
      * split; [|apply elem_of_app; right; apply list_elem_of_here].
        destruct (latestCwd st); [lia | lia].
      * intros c' t' [H|H]%elem_of_app; [by apply (Hmax c')|].
        apply list_elem_of_singleton in H as [= -> ->]. lia.
      * destruct (latestCwd st); [|done]. destruct Hl as [? ?]. split; [done|].
        apply elem_of_app. by left.
    + split; cbn.
      * intros c' t' [H|H]%elem_of_app; [by apply (Hmax c')|].
        apply list_elem_of_singleton in H. discriminate.
      * destruct (latestCwd st); [|done]. destruct Hl as [? ?]. split; [done|].
        apply elem_of_app. by left.
Qed.

Lemma lookupCount_in c counts :
  lookupCount c counts = 0%nat \/ exists k, (k, lookupCount c counts) ∈ counts.
Proof.
  induction counts as [|[k n] counts IH]; [by left|]. cbn [lookupCount].
  destruct (sameValueZero k c); [right; exists k; left|].
  destruct IH as [IH|[k' IH]]; [by left | right; exists k'; by right].
Qed.

Lemma sortDesc_cons {A} (key : A -> Z) a (l : list A) :
  exists x rest, sortDesc key (a :: l) = x :: rest.
Proof.
  cbn [sortDesc foldr]. destruct (foldr (insertDesc key) [] l); cbn; [eauto|].
  destruct (_ <? _); eauto.
Qed.

(** The [cwd] occurrences a call reads. *)
Definition pairsRead (projectName : string)
    (projects : gmap string (list (string * string))) : list (json * option Z) :=
  match projects !! projectName with
  | Some files => pairsOf (List.filter (fun f => SessionLog.isJsonl f.1) files)
  | None => []
  end.

Lemma extract_choose projectName projects cache :
  cache !! projectName = None ->
  (extractProjectDirectory projectName projects cache).1
  = chooseDirectory projectName
      (foldl scanPair (mkScan [] 0 None) (pairsRead projectName projects)).
Proof.
  intros Hmiss. unfold extractProjectDirectory, pairsRead. rewrite Hmiss. cbn [fst].
  destruct (projects !! projectName) as [files|]; [|done].
  destruct (List.filter _ files) as [|f fs] eqn:Hf; [done|].
  by rewrite scanFiles_pairs.
Qed.

(** C4: on a cache miss the real path is the decoded alias when the log
    lines carry no cwd (or there is no log file, or no directory); the
    one cwd when all occurrences agree; and with several distinct cwds a
    most frequent cwd [m], unless a cwd [l] carries the latest timestamp
    and occurs at least 30% as often as [m], in which case it is [l].
    The choice is cached.  The lines of a log are those [readline]
    yields, an occurrence of a cwd is a line with a truthy [cwd] field,
    and the two rules that compare cwds are stated for logs whose cwds
    are strings, numbers or booleans. *)
Theorem C4_extractProjectDirectory_choice projectName projects cache :
  cache !! projectName = None ->
  let result := (extractProjectDirectory projectName projects cache).1 in
  let pairs := pairsRead projectName projects in
  (pairs = [] -> result = JStr (decodeAlias projectName))
  /\ (primitive pairs ->
      (forall c, pairs ≠ [] -> (forall p, p ∈ pairs -> p.1 = c) -> result = c)
      /\ ((exists p q, p ∈ pairs /\ q ∈ pairs /\ p.1 ≠ q.1) ->
          exists m,
            (exists p, p ∈ pairs /\ p.1 = m)
            /\ (forall c, (occurrences c pairs <= occurrences m pairs)%nat)
            /\ ((exists l t,
                   (l, Some t) ∈ pairs /\ 0 < t
                   /\ (forall c' t', (c', Some t') ∈ pairs -> t' <= t)
                   /\ result = if (3 * occurrences m pairs <=? 10 * occurrences l pairs)%nat
                               then l else m)
                \/ ((forall c' t', (c', Some t') ∈ pairs -> t' <= 0) /\ result = m))))
  /\ (extractProjectDirectory projectName projects cache).2 !! projectName = Some result.
Proof.
  intros Hmiss result pairs.
  assert (Hres : result = chooseDirectory projectName
                            (foldl scanPair (mkScan [] 0 None) pairs))
    by (by apply extract_choose).
  assert (Hne : forall p, p ∈ pairs -> truthy_json (Some p.1) = true).
  { subst pairs. unfold pairsRead. destruct (projects !! projectName); [|by intros ? ?%elem_of_nil].
    apply pairsOf_truthy. }
  set (st := foldl scanPair (mkScan [] 0 None) pairs) in *.
  assert (Hcounts : cwdCounts st = countAll [] pairs) by apply scan_counts.
  assert (Hlatest : latestInv pairs st).
  { apply (latest_fold pairs [] (mkScan [] 0 None)). split; [|done].
    by intros ? ? ?%elem_of_nil. }
  split; [|split].
  - intros Hnil. rewrite Hres. subst st. by rewrite Hnil.
  - intros Hprim.
    assert (Hpr : forall p, p ∈ pairs -> isRef p.1 = false).
    { unfold primitive in Hprim. rewrite list.Forall_forall in Hprim. exact Hprim. }
    assert (Hocc : forall c, isRef c = false ->
                     countOf c (cwdCounts st) = occurrences c pairs).
    { intros c Hc. by rewrite countOf_lookupCount, Hcounts, lookupCount_countAll. }
    assert (Hkeys : forall k, k ∈ map fst (cwdCounts st) <-> exists p, p ∈ pairs /\ p.1 = k).
    { intros k. rewrite Hcounts, keys_countAll by done. cbn. split; [|by right].
      intros [H|H]; [by apply elem_of_nil in H | done]. }
    assert (Hnd : NoDup (map fst (cwdCounts st))).
    { rewrite Hcounts. apply keys_countAll_NoDup; [done | constructor]. }
    split.
    + intros c Hnon Hall. rewrite Hres. unfold chooseDirectory.
      destruct (cwdCounts st) as [|[k n] rest] eqn:Hc.
      { destruct pairs as [|p ps]; [done|]. exfalso.
        assert (H : p.1 ∈ map fst (@nil (json * nat)))
          by (apply Hkeys; exists p; split; [left|done]).
        by apply elem_of_nil in H. }
      assert (Hk : k = c).
      { assert (H : k ∈ map fst ((k, n) :: rest)) by left.
        apply Hkeys in H as (p & Hp & <-). by apply Hall. }
      subst k. destruct rest as [|[k2 n2] rest].
      * assert (truthy_json (Some c) = true) as ->; [|done].
        destruct pairs as [|p ps]; [done|]. rewrite <- (Hall p); [|left].
        apply Hne. left.
      * exfalso. assert (H : k2 ∈ map fst ((c, n) :: (k2, n2) :: rest)) by (right; left).
        apply Hkeys in H as (p & Hp & Hp1). rewrite (Hall p Hp) in Hp1. subst k2.
        cbn [map fst] in Hnd. apply list.NoDup_cons in Hnd as [Hnot _]. apply Hnot. left.
    + intros (p & q & Hp & Hq & Hpq). rewrite Hres. unfold chooseDirectory.
      destruct (cwdCounts st) as [|e1 [|e2 rest]] eqn:Hc.
      { exfalso. assert (H : p.1 ∈ map fst (@nil (json * nat)))
          by (apply Hkeys; eauto). by apply elem_of_nil in H. }
      { exfalso. destruct e1 as [k n].
        assert (H1 : p.1 ∈ map fst [(k, n)]) by (apply Hkeys; eauto).
        assert (H2 : q.1 ∈ map fst [(k, n)]) by (apply Hkeys; eauto).
        apply list_elem_of_singleton in H1, H2. cbn in H1, H2. congruence. }
      destruct e1 as [k1 n1].
      destruct (sortDesc_cons (fun e : json * nat => Z.of_nat e.2) (k1, n1) (e2 :: rest))
        as ([m n] & tail & Hsort).
      cbv zeta. rewrite Hsort.
      destruct (sortDesc_head_max _ _ _ _ Hsort) as [Hm Hmax].
      assert (Hmkey : m ∈ map fst ((k1, n1) :: e2 :: rest)).
      { apply list_elem_of_In, in_map_iff. exists (m, n).
        split; [done | by apply list_elem_of_In]. }
      apply Hkeys in Hmkey as (pm & Hpm & Hpm1).
      assert (Hmref : isRef m = false) by (rewrite <- Hpm1; by apply Hpr).
      assert (Hmn : countOf m ((k1, n1) :: e2 :: rest) = n).
      { rewrite countOf_lookupCount by done. by apply lookupCount_member. }
      assert (Hmne : truthy_json (Some m) = true) by (rewrite <- Hpm1; by apply Hne).
      rewrite Hmne. cbn [negb].
      exists m. split; [eauto|]. split.
      { intros c. destruct (decide (occurrences c pairs = 0%nat)) as [->|Hpos]; [lia|].
        assert (Hcref : isRef c = false).
        { unfold occurrences in Hpos.
          destruct (filter (fun p : json * option Z => p.1 = c) pairs) as [|x xs] eqn:Hf;
            [done|].
          assert (Hx : x ∈ filter (fun p : json * option Z => p.1 = c) pairs)
            by (rewrite Hf; left).
          apply list_elem_of_filter in Hx as [<- Hx]. by apply Hpr. }
        rewrite <- !Hocc, Hmn by done. rewrite countOf_lookupCount by done.
        destruct (lookupCount_in c ((k1, n1) :: e2 :: rest)) as [->|[k Hin]]; [lia|].
        specialize (Hmax _ Hin). cbn [snd] in Hmax. lia. }
      destruct Hlatest as [Hle Hl]. destruct (latestCwd st) as [l|] eqn:Hlc.
      * left. destruct Hl as [Hpos Hin]. exists l, (latestTimestamp st).
        split; [done|]. split; [done|]. split; [done|].
        assert (truthy_json (Some l) = true) as -> by (by apply (Hne _ Hin)).
        cbn [andb]. rewrite <- !Hocc; [done | by apply (Hpr _ Hin) | done].
      * right. split; [|done]. intros c' t' Hin. rewrite <- Hl. by apply (Hle c').
  - clear Hres. subst result. unfold extractProjectDirectory. rewrite Hmiss.
    cbn [fst snd]. apply lookup_insert_eq.
Qed.

End Extract.

(** *** The selection rule on sample logs *)

Definition cwdLine (cwd : string) (timestamp : Z) : json :=
  JObj [("cwd", JStr cwd); ("timestamp", JNum timestamp)].

Definition lineA : json := cwdLine "/work/A" 1000.
Definition lineB : json := cwdLine "/work/B" 2000.

Definition discoveryParse : string -> option json := tableParse [lineA; lineB].

Definition discoveryDate (v : json) : option Z :=
  match v with JNum n => Some n | _ => None end.

(** A log with [a] lines of [/work/A] followed by [b] later lines of
    [/work/B]. *)
Definition logOf (a b : nat) : string :=
  join NL (replicate a (stringify lineA) ++ replicate b (stringify lineB)) +:+ NL.

Definition projectsOf (a b : nat) : gmap string (list (string * string)) :=
  {[ "-work-A" := [("s1.jsonl", logOf a b); ("readme.md", stringify lineB)] ]}.

(** The two cases of the specification: counts 10 and 3 with the rarer
    cwd latest give the latest cwd, counts 10 and 2 the most frequent;
    an alias without logs is decoded. *)
Example C4_extractProjectDirectory_choice_witness :
  (extractProjectDirectory discoveryParse discoveryDate "-work-A" (projectsOf 10 3) ∅).1
    = JStr "/work/B"
  /\ (extractProjectDirectory discoveryParse discoveryDate "-work-A" (projectsOf 10 2) ∅).1
    = JStr "/work/A"
  /\ (extractProjectDirectory discoveryParse discoveryDate "-work-A" (projectsOf 4 0) ∅).1
    = JStr "/work/A"
  /\ (extractProjectDirectory discoveryParse discoveryDate "-home-u-p" (projectsOf 10 3) ∅).1
    = JStr "/home/u/p"
  /\ (extractProjectDirectory discoveryParse discoveryDate "-work-A" (projectsOf 10 3) ∅).2
       !! "-work-A" = Some (JStr "/work/B").
Proof.
  split; [vm_compute; reflexivity|]. split; [vm_compute; reflexivity|].
  split; [vm_compute; reflexivity|]. split; [vm_compute; reflexivity|].
  rewrite (proj2 (proj2
    (C4_extractProjectDirectory_choice discoveryParse discoveryDate "-work-A"
       (projectsOf 10 3) ∅ (lookup_empty _)))).
  vm_compute. reflexivity.
Defined.

End Discovery.

(** ** JavaScript arrays: [sort] and [slice] *)

Module JSArray.

(** [list.sort(cmp)] by insertion: stable, an element goes after those
    it compares greater than.  For a comparison that is a total preorder
    this is the order every stable sort gives. *)
Fixpoint insertBy {A} (cmp : A -> A -> Z) (x : A) (sorted : list A) : list A :=
  match sorted with
  | [] => [x]
  | y :: rest => if 0 <? cmp x y then y :: insertBy cmp x rest else x :: sorted
  end.

Definition sortBy {A} (cmp : A -> A -> Z) (l : list A) : list A :=
  foldr (insertBy cmp) [] l.

(** [list.slice(start, end)]: a negative index counts from the end, and
    both are clamped to the length. *)
Definition slice {A} (start end_ : Z) (l : list A) : list A :=
  let len := Z.of_nat (length l) in
  let k := if start <? 0 then Z.max (len + start) 0 else Z.min start len in
  let final := if end_ <? 0 then Z.max (len + end_) 0 else Z.min end_ len in
  take (Z.to_nat (final - k)) (drop (Z.to_nat k) l).

Lemma insertBy_Permutation {A} (cmp : A -> A -> Z) x (l : list A) :
  insertBy cmp x l ≡ₚ x :: l.
Proof.
  induction l as [|y l IH]; [done|]. cbn. destruct (0 <? cmp x y); [|done].
  rewrite IH. apply Permutation_swap.
Qed.

Lemma sortBy_Permutation {A} (cmp : A -> A -> Z) (l : list A) : sortBy cmp l ≡ₚ l.
Proof.
  induction l as [|x l IH]; [done|]. cbn. by rewrite insertBy_Permutation, IH.
Qed.

(** Sorting by a key: the result ascends. *)
Lemma insertBy_sorted {A} (key : A -> Z) x (l : list A) :
  StronglySorted (fun a b => key a <= key b) l ->
  StronglySorted (fun a b => key a <= key b) (insertBy (fun a b => key a - key b) x l).
Proof.
  induction 1 as [|y l Hl IH Hy]; cbn; [repeat constructor|].
  destruct (0 <? key x - key y) eqn:Hc.
  - apply Z.ltb_lt in Hc. constructor; [done|].
    rewrite insertBy_Permutation. constructor; [lia | done].
  - apply Z.ltb_ge in Hc. constructor; [by constructor|].
    constructor; [lia|]. eapply list.Forall_impl; [exact Hy|]. cbn. intros; lia.
Qed.

Lemma sortBy_sorted {A} (key : A -> Z) (l : list A) :
  StronglySorted (fun a b => key a <= key b) (sortBy (fun a b => key a - key b) l).
Proof. induction l as [|x l IH]; cbn; [constructor | by apply insertBy_sorted]. Qed.

Lemma insertBy_ext {A} (cmp cmp' : A -> A -> Z) x (s : list A) :
  (forall b, b ∈ s -> cmp x b = cmp' x b) -> insertBy cmp x s = insertBy cmp' x s.
Proof.
  induction s as [|y s IH]; [done|]. intros H. cbn [insertBy].
  rewrite <- (H y) by left. rewrite IH by (intros; apply H; by right). done.
Qed.

Lemma sortBy_ext {A} (cmp cmp' : A -> A -> Z) (l : list A) :
  (forall a b, a ∈ l -> b ∈ l -> cmp a b = cmp' a b) -> sortBy cmp l = sortBy cmp' l.
Proof.
  induction l as [|x l IH]; [done|]. intros H. cbn [sortBy foldr].
  fold (sortBy cmp l). fold (sortBy cmp' l).
  rewrite <- IH by (intros; apply H; by right).
  apply insertBy_ext. intros b Hb. apply H; [left|]. right.
  by rewrite sortBy_Permutation in Hb.
Qed.

End JSArray.

(** ** Reading and writing the environment store (claudeEnvMemory.ts) *)

Module EnvApi.

Import JS EnvStore.

(** [getClaudeEnvVar(key)]: [claudeEnvStore.get(key) || null] *)
Definition getClaudeEnvVar (k : string) (st : Store) : option ClaudeEnvVar := st !! k.

(** [hasClaudeEnvVar(key)] *)
Definition hasClaudeEnvVar (k : string) (st : Store) : bool :=
  bool_decide (is_Some (st !! k)).

(** [getClaudeEnvCount()] *)
Definition getClaudeEnvCount (st : Store) : nat := size st.

(** [clearAllClaudeEnvVars()] *)
Definition clearAllClaudeEnvVars (st : Store) : Store := ∅.

(** *** Properties *)

(** The time of creation a write keeps: that of the variable it
    replaces, unless that is the empty string. *)
Definition createdAt (now k : string) (st : Store) : string :=
  match st !! k with
  | Some e => if String.eqb (created_at e) "" then now else created_at e
  | None => now
  end.


(** X2: [deleteClaudeEnvVar] answers true exactly when the key was
    stored; afterwards the key is gone, so reading it gives nothing, the
    record made for a child has no such key, deleting it again answers
    false and leaves the store as it is, the count has dropped by one
    exactly when the key was stored, and no other key changes. *)
Theorem delete_then_get k (st : Store) :
  let r := deleteClaudeEnvVar k st in
  (r.1 = true <-> is_Some (st !! k))
  /\ getClaudeEnvVar k r.2 = None
  /\ hasClaudeEnvVar k r.2 = false
  /\ getClaudeEnvAsRecord r.2 !! k = None
  /\ deleteClaudeEnvVar k r.2 = (false, r.2)
  /\ getClaudeEnvCount st
     = (getClaudeEnvCount r.2 + if hasClaudeEnvVar k st then 1 else 0)%nat
  /\ (forall k', k' ≠ k -> getClaudeEnvVar k' r.2 = getClaudeEnvVar k' st).
Proof.
  intros r. subst r. unfold deleteClaudeEnvVar. cbn [fst snd].
  split; [apply bool_decide_eq_true|]. split; [apply lookup_delete_eq|]. split.
  { unfold hasClaudeEnvVar. rewrite lookup_delete_eq. apply bool_decide_eq_false_2.
    by intros [? ?]. }
  split; [unfold getClaudeEnvAsRecord; by rewrite lookup_fmap, lookup_delete_eq|]. split.
  { rewrite lookup_delete_eq. rewrite bool_decide_eq_false_2 by (by intros [? ?]).
    by rewrite delete_delete_eq. }
  split.
  - unfold getClaudeEnvCount, hasClaudeEnvVar. case_bool_decide as H.
    + rewrite map_size_delete. destruct H as [e He]. rewrite He.
      assert (size st ≠ 0%nat).
      { intros Hz%map_size_empty_inv. rewrite Hz, lookup_empty in He. discriminate He. }
      lia.
    + apply eq_None_not_Some in H. rewrite delete_id by done. lia.
  - intros k' Hne. unfold getClaudeEnvVar. by rewrite lookup_delete_ne.
Qed.

(** X3: for a request whose keys are distinct,
    [bulkUpdateClaudeEnvVars] writes every entry with a non-empty key,
    stamped with the clock and without description, keeping the creation
    time of a variable it replaces, and returns the variables written in
    the order of the entries; entries with an empty key are skipped and
    keys that are not named keep their variable. *)
Theorem bulk_update now (envVars : list (string * string)) (st : Store) :
  NoDup (map fst envVars) ->
  let r := bulkUpdateClaudeEnvVars now envVars st in
  map key r.1 = List.filter (fun k => negb (String.eqb k "")) (map fst envVars)
  /\ (forall k v, (k, v) ∈ envVars -> k ≠ "" ->
        r.2 !! k = Some (mkEnvVar k v None (createdAt now k st) now))
  /\ (forall k, k ∉ map fst envVars \/ k = "" -> r.2 !! k = st !! k).
Proof.
  intros Hnd r. subst r. split; [|split].
  - clear Hnd. revert st. induction envVars as [|[k v] rest IH]; intros st; [done|].
    cbn [bulkUpdateClaudeEnvVars map fst List.filter].
    destruct (String.eqb k ""); cbn [negb]; [apply IH|].
    specialize (IH (<[k := mkEnvVar k v None (createdAt now k st) now]> st)).
    unfold setClaudeEnvVar. fold (createdAt now k st).
    destruct (bulkUpdateClaudeEnvVars now rest _) as [results st2]. cbn [fst map key].
    by rewrite <- IH.
  - revert st Hnd. induction envVars as [|[k0 v0] rest IH]; intros st Hnd k v Hin Hk.
    { by apply elem_of_nil in Hin. }
    cbn [map fst] in Hnd. apply list.NoDup_cons in Hnd as [Hnot Hnd].
    assert (Hkeep : forall (st1 : Store) k1, k1 ∉ map fst rest ->
              (bulkUpdateClaudeEnvVars now rest st1).2 !! k1 = st1 !! k1).
    { clear. induction rest as [|[k2 v2] rest IH]; intros st1 k1 Hn; [done|].
      cbn [map fst] in Hn. apply not_elem_of_cons in Hn as [Hne Hn].
      cbn [bulkUpdateClaudeEnvVars]. destruct (String.eqb k2 ""); cbn [negb]; [by apply IH|].
      unfold setClaudeEnvVar.
      specialize (IH (<[k2 := mkEnvVar k2 v2 None
                            match st1 !! k2 with
                            | Some e => if String.eqb (created_at e) "" then now else created_at e
                            | None => now
                            end now]> st1) k1 Hn).
      destruct (bulkUpdateClaudeEnvVars now rest _) as [results st2]. cbn [snd] in *.
      rewrite IH. by rewrite lookup_insert_ne. }
    cbn [bulkUpdateClaudeEnvVars].
    apply elem_of_cons in Hin as [[= -> ->]|Hin].
    + apply String.eqb_neq in Hk. rewrite Hk. cbn [negb]. unfold setClaudeEnvVar.
      fold (createdAt now k0 st).
      specialize (Hkeep (<[k0 := mkEnvVar k0 v0 None (createdAt now k0 st) now]> st) k0 Hnot).
      destruct (bulkUpdateClaudeEnvVars now rest _) as [results st2]. cbn [snd] in *.
      rewrite Hkeep. by rewrite lookup_insert_eq.
    + assert (Hne : k ≠ k0).
      { intros ->. apply Hnot. apply list_elem_of_In, in_map_iff. exists (k0, v).
        split; [done | by apply list_elem_of_In]. }
      destruct (String.eqb k0 ""); cbn [negb]; [by apply IH|].
      unfold setClaudeEnvVar. fold (createdAt now k0 st).
      specialize (IH (<[k0 := mkEnvVar k0 v0 None (createdAt now k0 st) now]> st) Hnd k v Hin Hk).
      destruct (bulkUpdateClaudeEnvVars now rest _) as [results st2]. cbn [snd] in *.
      rewrite IH. unfold createdAt. by rewrite lookup_insert_ne.
  - clear Hnd. revert st. induction envVars as [|[k0 v0] rest IH]; intros st k Hk; [done|].
    cbn [bulkUpdateClaudeEnvVars].
    destruct (String.eqb_spec k0 "") as [->|Hne0]; cbn [negb].
    + apply IH. destruct Hk as [Hk|Hk]; [|by right]. left.
      cbn [map fst] in Hk. by apply not_elem_of_cons in Hk as [_ Hk].
    + unfold setClaudeEnvVar. fold (createdAt now k0 st).
      assert (Hne : k ≠ k0).
      { destruct Hk as [Hk | ->]; [|congruence]. cbn [map fst] in Hk.
        by apply not_elem_of_cons in Hk as [Hk _]. }
      specialize (IH (<[k0 := mkEnvVar k0 v0 None (createdAt now k0 st) now]> st) k).
      destruct (bulkUpdateClaudeEnvVars now rest _) as [results st2]. cbn [snd] in *.
      rewrite IH, lookup_insert_ne; [done | done |].
      destruct Hk as [Hk|Hk]; [|by right]. left.
      cbn [map fst] in Hk. by apply not_elem_of_cons in Hk as [_ Hk].
Qed.

(** Two tokens and an entry without key on a store that holds one of
    them. *)
Example bulk_update_witness :
  let st : Store := {[ "A_TOKEN" := mkEnvVar "A_TOKEN" "old" (Some "d") "t0" "t0" ]} in
  let r := bulkUpdateClaudeEnvVars "t1" [("A_TOKEN", "new"); ("", "x"); ("B", "b")] st in
  map key r.1 = ["A_TOKEN"; "B"]
  /\ r.2 !! "A_TOKEN" = Some (mkEnvVar "A_TOKEN" "new" None "t0" "t1")
  /\ r.2 !! "" = None.
Proof.
  intros st r.
  assert (Hnd : NoDup (map fst [("A_TOKEN", "new"); ("", "x"); ("B", "b")])).
  { cbn [map fst]. repeat (apply list.NoDup_cons; split; [rewrite ?elem_of_cons, elem_of_nil; intros H; repeat (destruct H as [H|H]; try discriminate H); exact H|]). apply NoDup_nil_2. }
  destruct (bulk_update "t1" [("A_TOKEN", "new"); ("", "x"); ("B", "b")] st Hnd)
    as (H1 & H2 & H3).
  subst r. split; [exact H1|]. split.
  - rewrite (H2 "A_TOKEN" "new"); [|apply list_elem_of_here|discriminate].
    unfold createdAt. subst st. by rewrite lookup_singleton_eq.
  - rewrite (H3 ""); [|by right]. subst st. by rewrite lookup_singleton_ne.
Defined.

End EnvApi.

(** ** The end of an invocation (claudeCliService.ts, the close and error
    handlers) *)

Module Lifecycle.

Import JS Runner.

Section Ending.

Variable JSON_parse : string -> option json.

(** What the child emits while it lives: data on its pipes and process
    errors (the child could not be spawned, or could not be signalled),
    each of which runs the [error] handler.  The [close] event comes
    last; after a failed spawn it follows the process error. *)
Inductive Event : Type :=
  | Data (ev : ChildEvent)
  | ProcessError (message : string).

Definition step (inv : Invocation) (st : State) (e : Event) : State :=
  match e with
  | Data ev => onEvent JSON_parse inv st ev
  | ProcessError message => onError inv message st
  end.

(** The state when the child closes with [code], after [events]. *)
Definition lifetime (inv : Invocation) (hasCommand : bool) (st : State)
    (events : list Event) (code : option Z) : State :=
  onClose inv hasCommand code (foldl (step inv) st events).

(** What the handlers of an invocation keep true of the map, as long as
    no other invocation touches it: the child is registered under no key
    but the one the [close] and [error] handlers remove, and a session
    id that was given stays the captured one. *)
Definition registered (inv : Invocation) (st : State) : Prop :=
  (truthy_json (capturedSessionId st) = false -> truthy (inputSessionId inv) = false)
  /\ (truthy (inputSessionId inv) = true ->
      capturedSessionId st = JStr <$> inputSessionId inv)
  /\ (forall k, activeClaudeProcesses st !! k = Some (claudeProcess inv) ->
        k = finalKey inv st).

Lemma finalKey_new inv st :
  truthy_json (capturedSessionId st) = false -> truthy (inputSessionId inv) = false ->
  finalKey inv st = KString (processKey inv).
Proof.
  intros Hc Hi. unfold finalKey, orElse. rewrite Hi. cbn [default].
  destruct (capturedSessionId st) as [v|]; [|done]. by rewrite Hc.
Qed.

Lemma finalKey_captured inv st v :
  capturedSessionId st = Some v -> truthy_json (Some v) = true ->
  finalKey inv st = keyOf inv v.
Proof. intros Hc Hv. unfold finalKey. by rewrite Hc, Hv. Qed.

Lemma registered_send inv st f : registered inv st -> registered inv (ws_send f st).
Proof. done. Qed.

Lemma registered_line inv st line :
  registered inv st -> registered inv (handleLine JSON_parse inv st line).
Proof.
  intros Hreg. pose proof Hreg as (H1 & H2 & H3). rewrite handleLine_cases.
  destruct (carries JSON_parse line) as [sid|] eqn:Hc; [|by apply registered_send].
  destruct (truthy_json (capturedSessionId st)) eqn:Hcap;
    [by apply registered_send|]. cbn [negb].
  pose proof (carries_truthy _ _ _ Hc) as Hsid.
  pose proof (H1 eq_refl) as Hin.
  split; [cbn [capturedSessionId]; intros H; rewrite Hsid in H; discriminate H|].
  split; [intros H; rewrite Hin in H; discriminate H|].
  intros k. cbn [activeClaudeProcesses].
  rewrite (finalKey_captured _ _ sid) by done.
  destruct (sameValueZero (JStr (processKey inv)) sid) eqn:Hsame; cbn [negb].
  - intros Hk. rewrite (H3 k Hk), finalKey_new by done.
    rewrite SessionLog.sameValueZero_sym in Hsame.
    apply SessionLog.sameValueZero_JStr in Hsame. by subst sid.
  - destruct (decide (k = keyOf inv sid)) as [->|Hne]; [done|].
    rewrite lookup_insert_ne by done.
    destruct (decide (k = KString (processKey inv))) as [->|Hne2].
    + by rewrite lookup_delete_eq.
    + rewrite lookup_delete_ne by done. intros Hk. exfalso. apply Hne2.
      rewrite (H3 k Hk). by apply finalKey_new.
Qed.

Lemma registered_removed inv st (P : list Frame) :
  registered inv st ->
  let st' := mkState (capturedSessionId st) (sessionCreatedSent st)
               (delete (finalKey inv st) (activeClaudeProcesses st)) P in
  registered inv st' /\ forall k, activeClaudeProcesses st' !! k ≠ Some (claudeProcess inv).
Proof.
  intros (H1 & H2 & H3) st'.
  assert (Hnone : forall k, activeClaudeProcesses st' !! k ≠ Some (claudeProcess inv)).
  { intros k. cbn [st' activeClaudeProcesses].
    destruct (decide (k = finalKey inv st)) as [->|Hne]; [by rewrite lookup_delete_eq|].
    rewrite lookup_delete_ne by done. intros Hk. by apply Hne, H3. }
  split; [|exact Hnone]. split; [exact H1|]. split; [exact H2|].
  intros k Hk. by apply Hnone in Hk.
Qed.

Lemma registered_step inv st e : registered inv st -> registered inv (step inv st e).
Proof.
  intros H. destruct e as [[data|data]|message]; cbn [step onEvent].
  - generalize (stdoutLines data). intros lines. revert st H.
    induction lines as [|line lines IH]; intros st H; [done|].
    cbn [foldl]. by apply IH, registered_line.
  - by apply registered_send.
  - unfold onError, ws_send.
    cbn [capturedSessionId sessionCreatedSent activeClaudeProcesses sent].
    apply (registered_removed inv st (sent st ++ [ClaudeError message]) H).
Qed.

Lemma registered_run inv (events : list Event) st :
  registered inv st -> registered inv (foldl (step inv) st events).
Proof.
  revert st. induction events as [|e events IH]; intros st H; [done|].
  cbn [foldl]. by apply IH, registered_step.
Qed.

Lemma registered_spawn now sessionId child (active : Processes) :
  (forall k, active !! k ≠ Some child) ->
  registered (spawnRegister now sessionId child active).1
             (spawnRegister now sessionId child active).2.
Proof.
  intros Hfresh. cbn [spawnRegister fst snd]. split; [|split].
  - cbn [capturedSessionId inputSessionId]. by rewrite truthy_fmap.
  - done.
  - intros k Hk.
    set (key := default now (orElse (orElse sessionId sessionId) (Some now))) in *.
    assert (Hkey : k = KString key).
    { cbn [activeClaudeProcesses claudeProcess] in Hk.
      destruct (decide (k = KString key)) as [->|Hne]; [done|].
      rewrite lookup_insert_ne in Hk by done. by apply Hfresh in Hk. }
    rewrite Hkey. destruct (truthy sessionId) eqn:Ht.
    + destruct sessionId as [s|]; [|discriminate Ht].
      rewrite (finalKey_captured _ _ (JStr s)) by done.
      subst key. unfold orElse. by rewrite !Ht.
    + rewrite finalKey_new; [done | by cbn; rewrite truthy_fmap | done].
Qed.

(** X4: for a child whose handle was not in the process map when it
    was spawned, and as long as no other invocation touches the map:
    whatever data and process errors the handlers have seen, the child is
    registered under no key but the one the [close] and [error] handlers
    remove, which is the given session id when there was one, else the
    captured session id once a stdout line has carried one, else the
    timestamp key.  So after the [close] handler no key points at the
    child, and the last frame sent is the completion frame, with
    isNewSession set exactly when no session id was given and there was a
    command; after an [error] handler no key points at the child either
    and the last frame is the error frame, and when the [close] handler
    follows, as after a failed spawn, the completion frame comes after
    the error frame. *)
Theorem ended_invocation_unregistered now sessionId child active events hasCommand code :
  (forall k, active !! k ≠ Some child) ->
  let start := spawnRegister now sessionId child active in
  let st := foldl (step start.1) start.2 events in
  let closed := lifetime start.1 hasCommand start.2 events code in
  let complete := ClaudeComplete code (negb (truthy sessionId) && hasCommand) in
  (forall k, activeClaudeProcesses st !! k = Some child -> k = finalKey start.1 st)
  /\ (forall sid, sessionId = Some sid -> truthy sessionId = true ->
        finalKey start.1 st = KString sid)
  /\ (truthy sessionId = false ->
      finalKey start.1 st
      = match capturedSessionId st with
        | Some v => if truthy_json (Some v) then keyOf start.1 v else KString now
        | None => KString now
        end)
  /\ activeClaudeProcesses closed = delete (finalKey start.1 st) (activeClaudeProcesses st)
  /\ (forall k, activeClaudeProcesses closed !! k ≠ Some child)
  /\ sent closed = sent st ++ [complete]
  /\ (forall message,
        let failed := onError start.1 message st in
        (forall k, activeClaudeProcesses failed !! k ≠ Some child)
        /\ sent failed = sent st ++ [ClaudeError message]
        /\ lifetime start.1 hasCommand start.2 (events ++ [ProcessError message]) code
           = onClose start.1 hasCommand code failed
        /\ (forall k, activeClaudeProcesses (onClose start.1 hasCommand code failed) !! k
                      ≠ Some child)
        /\ sent (onClose start.1 hasCommand code failed)
           = sent st ++ [ClaudeError message; complete]).
Proof.
  intros Hfresh start st closed complete.
  assert (Hreg : registered start.1 st).
  { subst st start. by apply registered_run, registered_spawn. }
  assert (Hchild : claudeProcess start.1 = child) by done.
  assert (Hin : inputSessionId start.1 = sessionId) by done.
  destruct Hreg as (H1 & H2 & H3). rewrite Hchild in H3.
  split; [exact H3|]. split.
  { intros sid -> Hknown. rewrite Hin in H2. specialize (H2 Hknown).
    by rewrite (finalKey_captured _ _ (JStr sid)). }
  split.
  { intros Hnew. unfold finalKey, orElse. rewrite Hin, Hnew. cbn [default].
    assert (processKey start.1 = now) as ->; [|done].
    subst start. by rewrite spawnRegister_new. }
  split; [done|].
  destruct (registered_removed start.1 st (sent st ++ [complete])
              (conj H1 (conj H2 H3))) as [_ Hclosed].
  rewrite Hchild in Hclosed.
  split; [exact Hclosed|].
  split; [subst closed complete; unfold lifetime, onClose, ws_send; cbn [sent];
          by rewrite Hin|].
  intros message failed.
  destruct (registered_removed start.1 st (sent st ++ [ClaudeError message])
              (conj H1 (conj H2 H3))) as [Hreg' Hfailed].
  rewrite Hchild in Hfailed.
  split; [exact Hfailed|]. split; [done|].
  split; [unfold lifetime; by rewrite foldl_app|].
  split.
  - destruct (registered_removed start.1 failed (sent failed ++ [complete]) Hreg')
      as [_ Hnone].
    rewrite Hchild in Hnone. exact Hnone.
  - subst complete failed. unfold onClose, onError, ws_send. cbn [sent]. rewrite Hin.
    by rewrite <- app_assoc.
Qed.

End Ending.

(** A new session whose child could not be spawned: the error frame,
    then the completion frame, and the timestamp key is gone. *)
Example ended_invocation_unregistered_witness :
  let closed := lifetime streamParse (spawnRegister "1700" None 7 ∅).1 true
                  (spawnRegister "1700" None 7 ∅).2
                  [ProcessError "spawn claude ENOENT"] (Some (-2)) in
  sent closed = [ClaudeError "spawn claude ENOENT"; ClaudeComplete (Some (-2)) true]
  /\ forall k, activeClaudeProcesses closed !! k ≠ Some 7%nat.
Proof.
  destruct (ended_invocation_unregistered streamParse "1700" None 7%nat ∅ [] true
              (Some (-2)) ltac:(intros k; by rewrite lookup_empty))
    as (_ & _ & _ & _ & _ & _ & Hfail).
  destruct (Hfail "spawn claude ENOENT") as (_ & _ & Hlife & Hnone & Hsent).
  cbv zeta. cbn [app] in Hlife. rewrite Hlife. split; [exact Hsent | exact Hnone].
Defined.

End Lifecycle.
(** ** The file tree (fileOperations.ts, [permToRwx] and [buildFileTree]) *)

Module FileTree.

Import JS PathSandbox JSArray.

(** [perm & 4 ? 'r' : '-'] and so on. *)
Definition permToRwx (perm : Z) : string :=
  let r := if Z.land perm 4 =? 0 then "-" else "r" in
  let w := if Z.land perm 2 =? 0 then "-" else "w" in
  let x := if Z.land perm 1 =? 0 then "-" else "x" in
  r +:+ w +:+ x.

(** [n.toString()] of an integer. *)
Definition Number_toString (n : Z) : string := NilZero.string_of_int (Z.to_int n).

(** What [stat] reports of an entry; [mtime] is [stats.mtime.toISOString()]. *)
Record Stats : Type := mkStats {
  stat_size : Z;
  stat_mtime : string;
  stat_mode : Z
}.

(** The two permission strings of an item, from [stats.mode].  The
    shifts and masks act on the 32-bit two's complement of the mode,
    whose low nine bits are those of the integer. *)
Definition permissionsOf (mode : Z) : string * string :=
  let ownerPerm := Z.land (Z.shiftr mode 6) 7 in
  let groupPerm := Z.land (Z.shiftr mode 3) 7 in
  let otherPerm := Z.land mode 7 in
  (Number_toString ownerPerm +:+ Number_toString groupPerm +:+ Number_toString otherPerm,
   permToRwx ownerPerm +:+ permToRwx groupPerm +:+ permToRwx otherPerm).

(** A directory as [readdir] with file types and [stat] show it: a
    file (anything that is not a directory) or a directory with what
    [access] says of reading it and its own listing, [None] when
    [readdir] fails. *)
#[local] Unset Elimination Schemes.
Inductive DirEntry : Type :=
  | FileEntry (name : string) (stats : option Stats)
  | Directory (name : string) (stats : option Stats) (readable : bool)
              (entries : option (list DirEntry)).

Inductive ItemType : Type := directory | file.

Inductive FileTreeItem : Type :=
  | mkItem (name path : string) (type : ItemType) (size : Z) (modified : option string)
           (permissions permissionsRwx : string) (children : option (list FileTreeItem)).
#[local] Set Elimination Schemes.

Definition entry_name (e : DirEntry) : string :=
  match e with FileEntry n _ | Directory n _ _ _ => n end.

Definition item_name (it : FileTreeItem) : string :=
  match it with mkItem n _ _ _ _ _ _ _ => n end.
Definition item_path (it : FileTreeItem) : string :=
  match it with mkItem _ p _ _ _ _ _ _ => p end.
Definition item_type (it : FileTreeItem) : ItemType :=
  match it with mkItem _ _ t _ _ _ _ _ => t end.
Definition item_children (it : FileTreeItem) : option (list FileTreeItem) :=
  match it with mkItem _ _ _ _ _ _ _ c => c end.

Definition isDirectory (it : FileTreeItem) : bool :=
  match item_type it with directory => true | file => false end.

(** The item of an entry before its children are read: the defaults,
    overwritten from [stat] when it succeeds. *)
Definition describe (name itemPath : string) (type : ItemType) (stats : option Stats)
    (children : option (list FileTreeItem)) : FileTreeItem :=
  match stats with
  | Some s =>
      mkItem name itemPath type (stat_size s) (Some (stat_mtime s))
             (permissionsOf (stat_mode s)).1 (permissionsOf (stat_mode s)).2 children
  | None => mkItem name itemPath type 0 None "000" "---------" children
  end.

(** The build directories the walk skips. *)
Definition heavy (name : string) : bool :=
  String.eqb name "node_modules" || String.eqb name "dist" || String.eqb name "build".

Section Tree.

(** [a.localeCompare(b)] in the locale of the server. *)
Variable localeCompare : string -> string -> Z.

(** The comparison of the final sort: directories first, then by name. *)
Definition compareItems (a b : FileTreeItem) : Z :=
  match item_type a, item_type b with
  | directory, file => -1
  | file, directory => 1
  | _, _ => localeCompare (item_name a) (item_name b)
  end.

(** The body of the loop of [buildFileTree] for one entry that is not
    skipped, at depth [currentDepth] below [dirPath]; a directory above
    the depth limit gets the sorted items of its own listing, none when
    it cannot be read. *)
Fixpoint buildItem (maxDepth currentDepth : nat) (dirPath : string) (entry : DirEntry)
    {struct entry} : FileTreeItem :=
  match entry with
  | FileEntry name stats => describe name (join2 dirPath name) file stats None
  | Directory name stats readable entries =>
      let itemPath := join2 dirPath name in
      let children :=
        if (currentDepth <? maxDepth)%nat then
          Some (if readable then
                  match entries with
                  | Some es =>
                      sortBy compareItems
                        ((fix loop (es : list DirEntry) : list FileTreeItem :=
                            match es with
                            | [] => []
                            | e :: es' =>
                                if heavy (entry_name e) then loop es'
                                else buildItem maxDepth (S currentDepth) itemPath e :: loop es'
                            end) es)
                  | None => []
                  end
                else [])
        else None in
      describe name itemPath directory stats children
  end.

(** [buildFileTree(dirPath, maxDepth, currentDepth, showHidden)] on the
    listing of [dirPath]; [showHidden] is not read. *)
Definition buildFileTree (dirPath : string) (maxDepth currentDepth : nat)
    (showHidden : bool) (listing : option (list DirEntry)) : list FileTreeItem :=
  match listing with
  | Some es =>
      sortBy compareItems
        (map (buildItem maxDepth currentDepth dirPath)
             (List.filter (fun e => negb (heavy (entry_name e))) es))
  | None => []
  end.

(** *** Properties *)

Lemma loop_map maxDepth depth dirPath (es : list DirEntry) :
  (fix loop (es : list DirEntry) : list FileTreeItem :=
     match es with
     | [] => []
     | e :: es' =>
         if heavy (entry_name e) then loop es'
         else buildItem maxDepth depth dirPath e :: loop es'
     end) es
  = map (buildItem maxDepth depth dirPath)
        (List.filter (fun e => negb (heavy (entry_name e))) es).
Proof.
  induction es as [|e es IH]; [done|]. cbn [List.filter].
  destruct (heavy (entry_name e)); cbn [negb map]; by rewrite IH.
Qed.

(** The item of a directory, in terms of the tree of its listing. *)
Lemma buildItem_Directory maxDepth depth dirPath name stats readable entries :
  buildItem maxDepth depth dirPath (Directory name stats readable entries)
  = describe name (join2 dirPath name) directory stats
      (if (depth <? maxDepth)%nat
       then Some (if readable
                  then buildFileTree (join2 dirPath name) maxDepth (S depth) true entries
                  else [])
       else None).
Proof.
  cbn [buildItem]. unfold buildFileTree. destruct entries as [es|]; [|done].
  by rewrite loop_map.
Qed.

Lemma DirEntry_ind (P : DirEntry -> Prop) :
  (forall name stats, P (FileEntry name stats)) ->
  (forall name stats readable entries,
     (forall es, entries = Some es -> Forall P es) ->
     P (Directory name stats readable entries)) ->
  forall e, P e.
Proof.
  intros Hf Hd. fix IH 1. intros [name stats|name stats readable entries]; [apply Hf|].
  apply Hd. destruct entries as [es|]; [|intros ? [=]].
  assert (H : Forall P es).
  { induction es as [|e es IHes]; constructor; [apply IH | apply IHes]. }
  by intros ? [= <-].
Qed.

Lemma forallb_Forall {A} (f : A -> bool) (l : list A) :
  forallb f l = true <-> Forall (fun x => f x = true) l.
Proof.
  induction l as [|x l IH]; cbn; [by split; [constructor|]|].
  rewrite andb_true_iff, IH. split; [intros [? ?]; by constructor | by inversion 1].
Qed.

Lemma describe_fields name itemPath type stats children :
  item_name (describe name itemPath type stats children) = name
  /\ item_path (describe name itemPath type stats children) = itemPath
  /\ item_type (describe name itemPath type stats children) = type
  /\ item_children (describe name itemPath type stats children) = children.
Proof. by destruct stats. Qed.

(** Every item of the tree below [it], [it] included, passes [P]. *)
Fixpoint allItems (P : FileTreeItem -> bool) (it : FileTreeItem) : bool :=
  match it with
  | mkItem _ _ _ _ _ _ _ children =>
      P it && match children with
              | Some cs => forallb (allItems P) cs
              | None => true
              end
  end.

(** An item at depth [depth]: a file has no [children] field, a
    directory has one exactly when it lies above the depth limit, and
    the items in it are one level deeper. *)
Fixpoint nested (maxDepth depth : nat) (it : FileTreeItem) : bool :=
  match it with
  | mkItem _ _ type _ _ _ _ children =>
      match type, children with
      | file, None => true
      | file, Some _ => false
      | directory, None => (maxDepth <=? depth)%nat
      | directory, Some cs =>
          (depth <? maxDepth)%nat && forallb (nested maxDepth (S depth)) cs
      end
  end.

(** The path of an item is its name joined to the path of the directory
    it lies in. *)
Fixpoint located (parent : string) (it : FileTreeItem) : bool :=
  match it with
  | mkItem name path _ _ _ _ _ children =>
      String.eqb path (join2 parent name)
      && match children with
         | Some cs => forallb (located path) cs
         | None => true
         end
  end.

(** No file stands before a directory. *)
Fixpoint dirsFirst (l : list FileTreeItem) : bool :=
  match l with
  | [] => true
  | it :: rest =>
      (isDirectory it || forallb (fun it' => negb (isDirectory it')) rest) && dirsFirst rest
  end.

(** At every level below [it] the directories come first. *)
Fixpoint ordered (it : FileTreeItem) : bool :=
  match it with
  | mkItem _ _ _ _ _ _ _ children =>
      match children with
      | Some cs => dirsFirst cs && forallb ordered cs
      | None => true
      end
  end.

Lemma allItems_describe P name itemPath type stats children :
  allItems P (describe name itemPath type stats children)
  = P (describe name itemPath type stats children)
    && match children with Some cs => forallb (allItems P) cs | None => true end.
Proof. by destruct stats. Qed.

Lemma nested_describe maxDepth depth name itemPath type stats children :
  nested maxDepth depth (describe name itemPath type stats children)
  = match type, children with
    | file, None => true
    | file, Some _ => false
    | directory, None => (maxDepth <=? depth)%nat
    | directory, Some cs =>
        (depth <? maxDepth)%nat && forallb (nested maxDepth (S depth)) cs
    end.
Proof. by destruct stats. Qed.

Lemma located_describe parent name itemPath type stats children :
  located parent (describe name itemPath type stats children)
  = String.eqb itemPath (join2 parent name)
    && match children with Some cs => forallb (located itemPath) cs | None => true end.
Proof. by destruct stats. Qed.

Lemma ordered_describe name itemPath type stats children :
  ordered (describe name itemPath type stats children)
  = match children with Some cs => dirsFirst cs && forallb ordered cs | None => true end.
Proof. by destruct stats. Qed.

Lemma insertBy_dirsFirst x (sorted : list FileTreeItem) :
  dirsFirst sorted = true -> dirsFirst (insertBy compareItems x sorted) = true.
Proof.
  induction sorted as [|y rest IH]; [intros _; cbn; by rewrite orb_true_r|]. intros Hs.
  cbn [dirsFirst] in Hs. apply andb_prop in Hs as [Hy Hrest].
  cbn [insertBy]. destruct (0 <? compareItems x y) eqn:Hc.
  - cbn [dirsFirst]. rewrite IH by done. rewrite andb_true_r.
    destruct (isDirectory y) eqn:Hdy; [done|]. cbn [orb] in *.
    assert (Hx : isDirectory x = false).
    { unfold compareItems, isDirectory in *. destruct (item_type x), (item_type y); try done. }
    apply forallb_Forall. rewrite insertBy_Permutation. constructor; [by rewrite Hx|].
    by apply forallb_Forall.
  - cbn [dirsFirst]. rewrite Hy, Hrest. rewrite !andb_true_r.
    destruct (isDirectory x) eqn:Hdx; [done|]. cbn [orb forallb].
    assert (Hyf : isDirectory y = false).
    { unfold compareItems, isDirectory in *. destruct (item_type x), (item_type y); try done. }
    rewrite Hyf in *. cbn [negb orb andb] in *. done.
Qed.

Lemma sortBy_dirsFirst (l : list FileTreeItem) : dirsFirst (sortBy compareItems l) = true.
Proof. induction l as [|x l IH]; [done|]. cbn. by apply insertBy_dirsFirst. Qed.

(** The four properties for one item and for a listing. *)
Definition shaped (maxDepth depth : nat) (parent : string) (it : FileTreeItem) : Prop :=
  allItems (fun it' => negb (heavy (item_name it'))) it = true
  /\ nested maxDepth depth it = true
  /\ located parent it = true
  /\ ordered it = true.

Lemma shaped_sort maxDepth depth parent (l : list FileTreeItem) :
  Forall (shaped maxDepth depth parent) l ->
  Forall (shaped maxDepth depth parent) (sortBy compareItems l).
Proof. intros H. by rewrite sortBy_Permutation. Qed.

Lemma shaped_split maxDepth depth parent (l : list FileTreeItem) :
  Forall (shaped maxDepth depth parent) l ->
  forallb (allItems (fun it' => negb (heavy (item_name it')))) l = true
  /\ forallb (nested maxDepth depth) l = true
  /\ forallb (located parent) l = true
  /\ forallb ordered l = true.
Proof.
  induction 1 as [|it l (H1 & H2 & H3 & H4) _ (I1 & I2 & I3 & I4)]; [done|]. cbn [forallb].
  by rewrite H1, H2, H3, H4, I1, I2, I3, I4.
Qed.

Lemma buildItem_shaped maxDepth (e : DirEntry) :
  forall depth dirPath,
    heavy (entry_name e) = false ->
    shaped maxDepth depth dirPath (buildItem maxDepth depth dirPath e).
Proof.
  induction e as [name stats|name stats readable entries IH] using DirEntry_ind;
    intros depth dirPath Hname; cbn [entry_name] in Hname.
  - cbn [buildItem]. unfold shaped.
    rewrite allItems_describe, nested_describe, located_describe, ordered_describe.
    destruct (describe_fields name (join2 dirPath name) file stats None) as (-> & _).
    by rewrite Hname, String.eqb_refl.
  - rewrite buildItem_Directory. unfold shaped.
    rewrite allItems_describe, nested_describe, located_describe, ordered_describe.
    destruct (describe_fields name (join2 dirPath name) directory stats
                (if (depth <? maxDepth)%nat
                 then Some (if readable
                            then buildFileTree (join2 dirPath name) maxDepth (S depth) true
                                   entries
                            else [])
                 else None)) as (-> & _).
    rewrite Hname, String.eqb_refl. cbn [negb andb].
    destruct (depth <? maxDepth)%nat eqn:Hd.
    2:{ apply Nat.ltb_ge in Hd. by apply Nat.leb_le in Hd as ->. }
    cbn [andb].
    assert (Hkids : Forall (shaped maxDepth (S depth) (join2 dirPath name))
              (if readable
               then buildFileTree (join2 dirPath name) maxDepth (S depth) true entries
               else [])).
    { destruct readable; [|constructor]. unfold buildFileTree.
      destruct entries as [es|]; [|constructor]. apply shaped_sort.
      specialize (IH es eq_refl). apply Forall_map.
      induction IH as [|e es He _ IHes]; [constructor|]. cbn [List.filter].
      destruct (heavy (entry_name e)) eqn:Hh; cbn [negb]; [done|].
      constructor; [by apply He | done]. }
    destruct (shaped_split _ _ _ _ Hkids) as (-> & -> & -> & ->).
    rewrite andb_true_r. split; [done|]. split; [done|]. split; [done|].
    destruct readable; [|done]. unfold buildFileTree. destruct entries; [|done].
    apply sortBy_dirsFirst.
Qed.

(** X5: the tree [buildFileTree] returns holds no item named
    node_modules, dist or build at any level; an item has a children
    list exactly when it is a directory less than [maxDepth] levels down,
    so the tree is at most [maxDepth + 1] levels deep; every item's path
    is its name joined to the path of the directory it lies in; and at
    every level the directories stand before the files.  The names at the
    top are those of the listing without the three skipped ones. *)
Theorem buildFileTree_shape dirPath maxDepth showHidden listing :
  let tree := buildFileTree dirPath maxDepth 0 showHidden listing in
  forallb (allItems (fun it => negb (heavy (item_name it)))) tree = true
  /\ forallb (nested maxDepth 0) tree = true
  /\ forallb (located dirPath) tree = true
  /\ dirsFirst tree = true /\ forallb ordered tree = true
  /\ map item_name tree
     ≡ₚ List.filter (fun n => negb (heavy n)) (map entry_name (default [] listing)).
Proof.
  intros tree. subst tree. unfold buildFileTree. destruct listing as [es|]; [|done].
  assert (Hall : Forall (shaped maxDepth 0 dirPath)
            (sortBy compareItems
               (map (buildItem maxDepth 0 dirPath)
                    (List.filter (fun e => negb (heavy (entry_name e))) es)))).
  { apply shaped_sort, Forall_map.
    induction es as [|e es IH]; [constructor|]. cbn [List.filter].
    destruct (heavy (entry_name e)) eqn:Hh; cbn [negb]; [done|].
    constructor; [by apply buildItem_shaped | done]. }
  destruct (shaped_split _ _ _ _ Hall) as (-> & -> & -> & ->).
  repeat (split; [done|]). split; [apply sortBy_dirsFirst|]. split; [done|].
  rewrite sortBy_Permutation. change (default [] (Some es)) with es. clear Hall.
  induction es as [|e es IH]; [done|]. cbn [List.filter map].
  destruct (heavy (entry_name e)) eqn:Hh; cbn [negb]; [done|]. cbn [map].
  assert (item_name (buildItem maxDepth 0 dirPath e) = entry_name e) as ->.
  { destruct e as [n s|n s r en]; [cbn [buildItem]|rewrite buildItem_Directory];
      apply describe_fields. }
  by rewrite IH.
Qed.

End Tree.

(** *** The permission strings read back *)

(** An octal numeral. *)
Fixpoint readOctal (acc : Z) (s : string) : option Z :=
  match s with
  | EmptyString => Some acc
  | String c s' =>
      let d := Z.of_nat (nat_of_ascii c) - 48 in
      if (0 <=? d) && (d <? 8) then readOctal (8 * acc + d) s' else None
  end.

Definition readFlag (letter c : ascii) : option Z :=
  if Ascii.eqb c letter then Some 1
  else if Ascii.eqb c "-"%char then Some 0 else None.

(** Triples of flags, as [ls -l] prints them, as the number whose bits
    they are. *)
Fixpoint readRwx (acc : Z) (s : string) : option Z :=
  match s with
  | EmptyString => Some acc
  | String r (String w (String x s')) =>
      match readFlag "r"%char r, readFlag "w"%char w, readFlag "x"%char x with
      | Some a, Some b, Some c => readRwx (8 * acc + 4 * a + 2 * b + c) s'
      | _, _, _ => None
      end
  | _ => None
  end.

Definition readsBack (mode : Z) : Prop :=
  String.length (permissionsOf mode).1 = 3%nat
  /\ String.length (permissionsOf mode).2 = 9%nat
  /\ readOctal 0 (permissionsOf mode).1 = Some mode
  /\ readRwx 0 (permissionsOf mode).2 = Some mode.

Lemma readsBack_all :
  forallb (fun n => bool_decide (readsBack (Z.of_nat n))) (seq 0 512) = true.
Proof. vm_compute. reflexivity. Qed.

Lemma permissionsOf_low mode : permissionsOf mode = permissionsOf (mode mod 512).
Proof.
  unfold permissionsOf.
  assert (H7 : forall a, Z.land a 7 = a mod 8) by (intros a; apply (Z.land_ones a 3); lia).
  rewrite !H7, !Z.shiftr_div_pow2 by lia.
  change (2 ^ 6) with 64. change (2 ^ 3) with 8.
  assert (H1 : (mode mod 512 / 64) mod 8 = (mode / 64) mod 8)
    by (Z.div_mod_to_equations; lia).
  assert (H2 : (mode mod 512 / 8) mod 8 = (mode / 8) mod 8)
    by (Z.div_mod_to_equations; lia).
  assert (H3 : (mode mod 512) mod 8 = mode mod 8)
    by (Z.div_mod_to_equations; lia).
  by rewrite H1, H2, H3.
Qed.

(** X6: the two permission strings of an item show the low nine bits of
    the mode [stat] reports and nothing else: [permissions] is their
    three octal digits and [permissionsRwx] their nine flags, so either
    string read back gives the mode modulo 512. *)
Theorem permissions_read_back mode :
  String.length (permissionsOf mode).1 = 3%nat
  /\ String.length (permissionsOf mode).2 = 9%nat
  /\ readOctal 0 (permissionsOf mode).1 = Some (mode mod 512)
  /\ readRwx 0 (permissionsOf mode).2 = Some (mode mod 512).
Proof.
  rewrite permissionsOf_low.
  assert (Hm : 0 <= mode mod 512 < 512) by (apply Z.mod_pos_bound; lia).
  pose proof readsBack_all as Hall. rewrite forallb_forall in Hall.
  specialize (Hall (Z.to_nat (mode mod 512))).
  rewrite Z2Nat.id in Hall by lia.
  apply (bool_decide_eq_true (readsBack (mode mod 512))), Hall, in_seq. lia.
Qed.

End FileTree.

(** ** Reading and saving files (fileOperations.ts and its routes) *)

Module FileService.

Import JS PathSandbox.

(** What the file system answers to [readFile]: the content, or an error
    with its [code] and [message]. *)
Inductive ReadOutcome : Type :=
  | ReadOk (content : string)
  | ReadFailed (code message : string).

(** What a reader returns or throws. *)
Inductive Served : Type :=
  | ServedFile (content path : string)
  | ReadThrown (message : string).

(** The [catch] of the two readers. *)
Definition readError (code message : string) : string :=
  if String.eqb code "ENOENT" then "File not found"
  else if String.eqb code "EACCES" then "Permission denied"
  else message.

Definition readAt (finalPath : string) (readFile : string -> ReadOutcome) : Served :=
  match readFile finalPath with
  | ReadOk content => ServedFile content finalPath
  | ReadFailed code message => ReadThrown (readError code message)
  end.

(** [readProjectFile(projectName, relativePath)]; [projectDir] is what
    [extractProjectDirectory(projectName)] returned. *)
Definition readProjectFile (cwd projectDir relativePath : string)
    (readFile : string -> ReadOutcome) : Served :=
  match resolveProjectFilePath cwd projectDir relativePath with
  | Thrown message => ReadThrown message
  | Returned finalPath => readAt finalPath readFile
  end.

(** [readSystemFile(absolutePath)] *)
Definition readSystemFile (absolutePath : string) (readFile : string -> ReadOutcome)
    : Served :=
  match resolveSystemFilePath absolutePath with
  | Thrown message => ReadThrown message
  | Returned finalPath => readAt finalPath readFile
  end.

(** *** Saving

    The regular files on disk by path. *)
Abbreviation Files := (gmap string string).

(** What the file system does when a file is created or overwritten at
    a path: the write succeeds, or it raises an error with its [code]
    and [message], after which the path holds [remains]: what it held before
    when [remains] is [None], else the part written, possibly nothing, of a
    file that was opened and truncated. *)
Inductive WriteOutcome : Type :=
  | WriteOk
  | WriteFailed (code message : string) (remains : option string).

(** The files after a failed write at a path. *)
Definition leftAt (path : string) (remains : option string) (files : Files) : Files :=
  match remains with
  | Some part => <[path := part]> files
  | None => files
  end.

Inductive SaveResult : Type :=
  | SavedFile (path message : string)
  | SaveThrown (message : string).

(** The [catch] of the two writers. *)
Definition saveError (code message : string) : string :=
  if String.eqb code "ENOENT" then "File or directory not found"
  else if String.eqb code "EACCES" then "Permission denied"
  else message.

(** The body of the two writers once the path is resolved: the backup
    of an existing file (a failure is only logged), then the write.
    [now] is [Date.now()] as a string, [writeTo path] what the file
    system does with a write at [path]. *)
Definition saveAt (now finalPath content : string)
    (writeTo : string -> WriteOutcome) (files : Files)
    : SaveResult * Files :=
  let backupPath := finalPath +:+ ".backup." +:+ now in
  let files :=
    match files !! finalPath with
    | Some original =>
        match writeTo backupPath with
        | WriteOk => <[backupPath := original]> files
        | WriteFailed _ _ remains => leftAt backupPath remains files
        end
    | None => files
    end in
  match writeTo finalPath with
  | WriteOk => (SavedFile finalPath "File saved successfully", <[finalPath := content]> files)
  | WriteFailed code message remains =>
      (SaveThrown (saveError code message), leftAt finalPath remains files)
  end.

(** [saveProjectFile(projectName, relativePath, content)]; [content] is
    [None] when it is [undefined]. *)
Definition saveProjectFile (now cwd projectDir relativePath : string)
    (content : option string) (writeTo : string -> WriteOutcome) (files : Files)
    : SaveResult * Files :=
  match content with
  | None => (SaveThrown "Content is required", files)
  | Some content =>
      match resolveProjectFilePath cwd projectDir relativePath with
      | Thrown message => (SaveThrown message, files)
      | Returned finalPath => saveAt now finalPath content writeTo files
      end
  end.

(** [saveSystemFile(absolutePath, content)] *)
Definition saveSystemFile (now absolutePath : string) (content : option string)
    (writeTo : string -> WriteOutcome) (files : Files)
    : SaveResult * Files :=
  match content with
  | None => (SaveThrown "Content is required", files)
  | Some content =>
      match resolveSystemFilePath absolutePath with
      | Thrown message => (SaveThrown message, files)
      | Returned finalPath => saveAt now finalPath content writeTo files
      end
  end.

(** *** The routes *)

Inductive Body : Type :=
  | ContentBody (content path : string)
  | ErrorBody (error : string).

Record Response : Type := mkResponse {
  status : nat;
  body : Body
}.

(** The status the [catch] of a reading route of a project chooses. *)
Definition projectReadStatus (errorMessage : string) : nat :=
  if includes "File not found" errorMessage then 404
  else if includes "Permission denied" errorMessage then 403
  else if includes "relative paths" errorMessage || includes "Invalid" errorMessage
          || includes "unsafe" errorMessage then 400
  else 500.

(** The status the [catch] of a reading route of the system files
    chooses. *)
Definition systemReadStatus (errorMessage : string) : nat :=
  if includes "File not found" errorMessage then 404
  else if includes "Permission denied" errorMessage then 403
  else if includes "absolute paths" errorMessage || includes "Invalid" errorMessage then 400
  else 500.

(** [GET /:projectName/file], the handler once [authGuard] has let the
    request through; [filePath] is the query parameter. *)
Definition getProjectFile (cwd projectDir : string)
    (filePath : option string) (readFile : string -> ReadOutcome) : Response :=
  if negb (truthy filePath) then
    mkResponse 400 (ErrorBody "filePath query parameter is required")
  else
    match readProjectFile cwd projectDir (default "" filePath) readFile with
    | ServedFile content path => mkResponse 200 (ContentBody content path)
    | ReadThrown errorMessage =>
        mkResponse (projectReadStatus errorMessage) (ErrorBody errorMessage)
    end.

(** [GET /] of the system files; the handler calls no guard. *)
Definition getSystemFile (filePath : option string) (readFile : string -> ReadOutcome)
    : Response :=
  if negb (truthy filePath) then
    mkResponse 400 (ErrorBody "filePath query parameter is required")
  else
    match readSystemFile (default "" filePath) readFile with
    | ServedFile content path => mkResponse 200 (ContentBody content path)
    | ReadThrown errorMessage =>
        mkResponse (systemReadStatus errorMessage) (ErrorBody errorMessage)
    end.

(** *** Properties *)

Lemma thrown_messages cwd projectDir relativePath message :
  resolveProjectFilePath cwd projectDir relativePath = Thrown message ->
  projectReadStatus message = 400%nat.
Proof.
  unfold resolveProjectFilePath.
  destruct (isAbsolute relativePath); [by intros [= <-]|].
  destruct (negb (validateRelativePath relativePath)); [by intros [= <-]|].
  destruct (_ || _); [by intros [= <-] | discriminate].
Qed.

(** X7: once the guard has let the request through, the route that
    reads a project file answers 400 with the sandbox's message whenever
    the sandbox rejects the path, without reading anything; otherwise it
    reads the one path the sandbox returned, which is the project's
    directory followed by names, none of them empty, [.] or [..] and none
    with a separator, and answers 200 with the content, 404 for a missing
    file and 403 for a file it may not read.  So the answer depends on no
    path but such paths. *)
Theorem getProjectFile_sandboxed cwd projectDir filePath readFile :
  let answer := getProjectFile cwd projectDir (Some filePath) readFile in
  filePath ≠ "" ->
  (forall message,
     resolveProjectFilePath cwd projectDir filePath = Thrown message ->
     answer = mkResponse 400 (ErrorBody message))
  /\ (forall path,
        resolveProjectFilePath cwd projectDir filePath = Returned path ->
        inside cwd projectDir path
        /\ (forall content, readFile path = ReadOk content ->
              answer = mkResponse 200 (ContentBody content path))
        /\ (forall message, readFile path = ReadFailed "ENOENT" message ->
              answer = mkResponse 404 (ErrorBody "File not found"))
        /\ (forall message, readFile path = ReadFailed "EACCES" message ->
              answer = mkResponse 403 (ErrorBody "Permission denied")))
  /\ (forall readFile',
        (forall path, inside cwd projectDir path -> readFile' path = readFile path) ->
        getProjectFile cwd projectDir (Some filePath) readFile' = answer).
Proof.
  intros answer Hne. subst answer. unfold getProjectFile, readProjectFile.
  assert (truthy (Some filePath) = true) as ->.
  { cbn. by destruct (String.eqb_spec filePath ""). }
  cbn [negb]. change (default "" (Some filePath)) with filePath. split; [|split].
  - intros message Hthrown. rewrite Hthrown.
    by rewrite (thrown_messages _ _ _ _ Hthrown).
  - intros path Hret. rewrite Hret. unfold readAt.
    split; [by eapply resolveProjectFilePath_inside|].
    split; [by intros content ->|]. split; by intros message ->.
  - intros readFile' Hsame.
    destruct (resolveProjectFilePath cwd projectDir filePath) as [path|message] eqn:Hres;
      [|done].
    unfold readAt. by rewrite (Hsame path (resolveProjectFilePath_inside _ _ _ _ Hres)).
Qed.

(** A source file of a project, present and missing. *)
Example getProjectFile_sandboxed_witness :
  getProjectFile "/srv" "/home/u/proj" (Some "src/a.ts")
    (fun path => if String.eqb path "/home/u/proj/src/a.ts" then ReadOk "let a"
                 else ReadFailed "ENOENT" "no such file")
  = mkResponse 200 (ContentBody "let a" "/home/u/proj/src/a.ts")
  /\ getProjectFile "/srv" "/home/u/proj" (Some "../b.ts")
       (fun _ => ReadOk "secret")
     = mkResponse 400
         (ErrorBody "Invalid relative path - contains unsafe characters or path traversal").
Proof.
  split.
  - destruct (getProjectFile_sandboxed "/srv" "/home/u/proj" "src/a.ts"
      (fun path => if String.eqb path "/home/u/proj/src/a.ts" then ReadOk "let a"
                   else ReadFailed "ENOENT" "no such file") ltac:(discriminate))
      as (_ & H & _).
    destruct (H "/home/u/proj/src/a.ts" ltac:(vm_compute; reflexivity)) as (_ & Hok & _).
    exact (Hok "let a" eq_refl).
  - destruct (getProjectFile_sandboxed "/srv" "/home/u/proj" "../b.ts"
      (fun _ => ReadOk "secret") ltac:(discriminate)) as (H & _).
    exact (H _ ltac:(vm_compute; reflexivity)).
Defined.

Lemma append_cancel (s t : string) : s +:+ t = s -> t = "".
Proof.
  induction s as [|c s IH]; [done|]. intros [= H]. by apply IH.
Qed.

(** X8: saving a project file writes nothing when the content is
    missing or the sandbox rejects the path.  Otherwise the save works at
    the path the sandbox returned, inside the project's directory, and
    changes no path but that one and the backup beside it, named by the
    path followed by [.backup.] and the clock.  A file that was there is
    copied to the backup first, and when that copy succeeds the backup
    holds the original whatever becomes of the write, so no content is
    lost; a failing copy does not stop the save.  When the write succeeds
    the path holds the new content; when it fails the save throws the
    error of the file system and the path holds what the failed write
    left there. *)
Theorem saveProjectFile_backup now cwd projectDir relativePath content writeTo
    (files : Files) :
  let result :=
    saveProjectFile now cwd projectDir relativePath (Some content) writeTo files in
  saveProjectFile now cwd projectDir relativePath None writeTo files
  = (SaveThrown "Content is required", files)
  /\ (forall message,
        resolveProjectFilePath cwd projectDir relativePath = Thrown message ->
        result = (SaveThrown message, files))
  /\ (forall path,
        resolveProjectFilePath cwd projectDir relativePath = Returned path ->
        let backupPath := path +:+ ".backup." +:+ now in
        inside cwd projectDir path
        /\ backupPath ≠ path
        /\ (forall other, other ≠ path -> other ≠ backupPath ->
              result.2 !! other = files !! other)
        /\ (forall original, files !! path = Some original ->
              writeTo backupPath = WriteOk ->
              result.2 !! backupPath = Some original)
        /\ (files !! path = None -> result.2 !! backupPath = files !! backupPath)
        /\ (writeTo path = WriteOk ->
            result.1 = SavedFile path "File saved successfully"
            /\ result.2 !! path = Some content)
        /\ (forall code message remains, writeTo path = WriteFailed code message remains ->
              result.1 = SaveThrown (saveError code message)
              /\ result.2 !! path = match remains with
                                    | Some part => Some part
                                    | None => files !! path
                                    end)).
Proof.
  intros result. subst result. unfold saveProjectFile. split; [done|]. split.
  - by intros message ->.
  - intros path Hret. set (backupPath := path +:+ ".backup." +:+ now). rewrite Hret.
    assert (Hb : backupPath ≠ path).
    { subst backupPath. intros H. by apply append_cancel in H. }
    split; [by eapply resolveProjectFilePath_inside|]. split; [exact Hb|].
    unfold saveAt. fold backupPath.
    set (files1 := match files !! path with
                   | Some original =>
                       match writeTo backupPath with
                       | WriteOk => <[backupPath := original]> files
                       | WriteFailed _ _ remains => leftAt backupPath remains files
                       end
                   | None => files
                   end).
    assert (H1 : forall other, other ≠ backupPath -> files1 !! other = files !! other).
    { intros other Hne. subst files1. destruct (files !! path); [|done].
      destruct (writeTo backupPath) as [|? ? [part|]]; cbn [leftAt];
        [by rewrite lookup_insert_ne | by rewrite lookup_insert_ne | done]. }
    assert (H2 : forall (m : Files) remains other, other ≠ path ->
              leftAt path remains m !! other = m !! other).
    { intros m [part|] other Hne; cbn [leftAt]; [by rewrite lookup_insert_ne | done]. }
    split; [|split; [|split; [|split]]].
    + intros other Hp Hbk. destruct (writeTo path) as [|code message remains]; cbn [snd].
      * rewrite lookup_insert_ne by done. by apply H1.
      * rewrite H2 by done. by apply H1.
    + intros original Hfile Hwb.
      assert (Hf1 : files1 !! backupPath = Some original).
      { subst files1. rewrite Hfile, Hwb. by rewrite lookup_insert_eq. }
      destruct (writeTo path) as [|code message remains]; cbn [snd].
      * by rewrite lookup_insert_ne.
      * by rewrite H2.
    + intros Hnone.
      assert (Hf1 : files1 = files) by (subst files1; by rewrite Hnone).
      rewrite Hf1. destruct (writeTo path) as [|code message remains]; cbn [snd].
      * by rewrite lookup_insert_ne.
      * by rewrite H2.
    + intros Hw. rewrite Hw. cbn [fst snd]. split; [done|]. by rewrite lookup_insert_eq.
    + intros code message remains Hw. rewrite Hw. cbn [fst snd]. split; [done|].
      destruct remains as [part|]; cbn [leftAt]; [by rewrite lookup_insert_eq|].
      by apply H1.
Qed.

(** *** The system files *)

Lemma endsWith_snoc (a : string) (c : ascii) :
  endsWith "/" (a +:+ String c "") = Ascii.eqb c "/"%char.
Proof.
  unfold endsWith. rewrite rev_string_append. cbn [rev_string].
  rewrite prefix_cons, prefix_nil, andb_true_r. apply Ascii.eqb_sym.
Qed.

Lemma string_snoc (s : string) : s ≠ "" -> exists a c, s = a +:+ String c "".
Proof.
  induction s as [|x s IH]; [done|]. intros _. destruct s as [|y s].
  - by exists "", x.
  - destruct IH as (a & c & Hs); [done|]. exists (String x a), c.
    by rewrite append_cons, <- Hs.
Qed.

Lemma sepFree_append sep (a b : string) :
  sepFree sep (a +:+ b) = sepFree sep a && sepFree sep b.
Proof.
  induction a as [|x a IH]; [done|]. rewrite append_cons. cbn [sepFree].
  by rewrite IH, andb_assoc.
Qed.

(** A path that ends with a name does not end with a separator. *)
Lemma endsWith_join (N : list string) (x : string) :
  N ≠ [] -> Forall isName N -> Forall (fun s => sepFree "/"%char s = true) N ->
  endsWith "/" (x +:+ join "/" N) = false.
Proof.
  revert x. induction N as [|n N IH]; [done|]. intros x _ Hn Hf.
  inversion Hn as [|? ? [Hk _] HnN]; inversion Hf as [|? ? Hs HfN]; subst.
  destruct N as [|n2 N].
  - cbn [join String.concat]. destruct (string_snoc n) as (a & c & ->).
    { by destruct n. }
    rewrite sepFree_append in Hs. apply andb_prop in Hs as [_ Hc]. cbn in Hc.
    rewrite andb_true_r in Hc. apply negb_true_iff in Hc.
    by rewrite <- append_assoc, endsWith_snoc.
  - change (join "/" (n :: n2 :: N)) with (n +:+ ("/" +:+ join "/" (n2 :: N))).
    rewrite <- !append_assoc. by apply IH.
Qed.

Lemma endsWith_slash (a : string) : endsWith "/" (a +:+ "/") = true.
Proof. by rewrite endsWith_snoc. Qed.

Lemma join_names_nonempty (N : list string) :
  Forall isName N -> String.eqb (join "/" N) "" = bool_decide (N = []).
Proof.
  intros Hn. destruct N as [|n N]; [done|]. inversion Hn as [|? ? [Hk _] _]; subst.
  destruct (keeps_cons n Hk) as (c & n' & ->).
  by destruct (join_cons_first c n' N) as [tail ->].
Qed.

(** [path.normalize] of an absolute path. *)
Lemma normalize_absolute path :
  isAbsolute path = true ->
  let N := normalizeSegs false (segments path) in
  Forall isName N /\ Forall (fun s => sepFree "/"%char s = true) N
  /\ normalize path
     = if bool_decide (N = []) then "/"
       else "/" +:+ join "/" N +:+ (if endsWith "/" path then "/" else "").
Proof.
  intros Ha N.
  assert (HnN : Forall isName N) by (by apply foldl_names).
  assert (HfN : Forall (fun s => sepFree "/"%char s = true) N).
  { apply sepFree_foldl; [done | apply split_on_sepFree]. }
  split; [done|]. split; [done|].
  unfold normalize, normalizeString. destruct path as [|c path]; [done|].
  cbn [String.eqb]. rewrite Ha. cbn [negb]. fold N.
  rewrite join_names_nonempty by done. case_bool_decide; [done|].
  destruct (endsWith "/" (String c path)); [done|]. by rewrite append_empty_r.
Qed.

(** A normalised absolute path is left as it is. *)
Lemma normalize_idempotent path :
  isAbsolute path = true -> normalize (normalize path) = normalize path.
Proof.
  intros Ha. destruct (normalize_absolute path Ha) as (HnN & HfN & HR).
  set (N := normalizeSegs false (segments path)) in *.
  case_bool_decide as HN; [by rewrite HR|].
  set (t := endsWith "/" path) in *.
  assert (Hseg : segments (normalize path) = "" :: N ++ (if t then [""] else [])).
  { rewrite HR, append_cons, append_nil, segments_slash. f_equal. destruct t.
    - change (join "/" N +:+ "/") with (join "/" N +:+ String "/"%char "").
      unfold segments at 1. rewrite split_on_app.
      change (split_on "/"%char (join "/" N)) with (segments (join "/" N)).
      by rewrite segments_join.
    - by rewrite append_empty_r, segments_join, app_nil_r. }
  assert (HaR : isAbsolute (normalize path) = true).
  { by rewrite HR, append_cons, isAbsolute_cons. }
  destruct (normalize_absolute _ HaR) as (_ & _ & HRR).
  assert (HN' : normalizeSegs false (segments (normalize path)) = N).
  { unfold normalizeSegs. rewrite Hseg. cbn [foldl]. rewrite normStep_empty, foldl_app.
    rewrite (names_fixed N []) by done. cbn [app].
    destruct t; [cbn [foldl]; by rewrite normStep_empty | done]. }
  rewrite HRR, HN'. rewrite bool_decide_eq_false_2 by done.
  rewrite HR at 2. do 2 f_equal. rewrite HR. destruct t.
  - by rewrite <- append_assoc, endsWith_slash.
  - by rewrite append_empty_r, endsWith_join.
Qed.

(** X9: the route that reads a system file answers 400 to a relative
    path; every absolute path is accepted, [..] segments included, and is
    read at its normal form, which names the same file, is absolute and is
    itself accepted unchanged: the answer is 200 with the content of that
    file, 404 when it is missing and 403 when it may not be read. *)
Theorem getSystemFile_unrestricted cwd filePath readFile :
  let answer := getSystemFile (Some filePath) readFile in
  filePath ≠ "" ->
  (isAbsolute filePath = false ->
   answer = mkResponse 400 (ErrorBody "System files must use absolute paths."))
  /\ (isAbsolute filePath = true ->
      let path := normalize filePath in
      resolveSystemFilePath filePath = Returned path
      /\ isAbsolute path = true
      /\ resolve cwd path = resolve cwd filePath
      /\ resolveSystemFilePath path = Returned path
      /\ (forall content, readFile path = ReadOk content ->
            answer = mkResponse 200 (ContentBody content path))
      /\ (forall message, readFile path = ReadFailed "ENOENT" message ->
            answer = mkResponse 404 (ErrorBody "File not found"))
      /\ (forall message, readFile path = ReadFailed "EACCES" message ->
            answer = mkResponse 403 (ErrorBody "Permission denied"))).
Proof.
  intros answer Hne. subst answer. unfold getSystemFile, readSystemFile, resolveSystemFilePath.
  assert (truthy (Some filePath) = true) as ->.
  { cbn. by destruct (String.eqb_spec filePath ""). }
  cbn [negb]. change (default "" (Some filePath)) with filePath. split.
  - by intros ->.
  - intros Ha. rewrite Ha. cbn [negb].
    assert (HaR : isAbsolute (normalize filePath) = true).
    { destruct (normalize_absolute filePath Ha) as (_ & _ & ->).
      case_bool_decide; [done|]. by rewrite append_cons, isAbsolute_cons. }
    split; [done|]. split; [done|].
    split; [by rewrite !resolve_segs, resolveSegs_normalize|].
    split; [by rewrite HaR, normalize_idempotent|].
    unfold readAt. split; [by intros content ->|]. split; by intros message ->.
Qed.

(** A path that climbs out of the server's directory. *)
Example getSystemFile_unrestricted_witness :
  getSystemFile (Some "/srv/app/../../etc/passwd")
    (fun path => if String.eqb path "/etc/passwd" then ReadOk "root:x:0:0"
                 else ReadFailed "ENOENT" "no such file")
  = mkResponse 200 (ContentBody "root:x:0:0" "/etc/passwd").
Proof.
  destruct (getSystemFile_unrestricted "/srv" "/srv/app/../../etc/passwd"
    (fun path => if String.eqb path "/etc/passwd" then ReadOk "root:x:0:0"
                 else ReadFailed "ENOENT" "no such file") ltac:(discriminate))
    as (_ & H).
  destruct (H eq_refl) as (_ & _ & _ & _ & Hok & _).
  exact (Hok "root:x:0:0" eq_refl).
Defined.

End FileService.

(** ** The messages of a session (sessionManagerNew.ts,
    [getClaudeSessionMessages]) and what [deleteSession] leaves of them *)

Module SessionMessages.

Import JS JSArray SessionLog.

(** What [getClaudeSessionMessages] returns: the array when [limit] is
    [null], the page object otherwise. *)
Inductive Messages : Type :=
  | AllMessages (messages : list json)
  | MessagePage (messages : list json) (total : nat) (hasMore : bool) (offset limit : Z).

Definition messagesOf (r : Messages) : list json :=
  match r with AllMessages ms | MessagePage ms _ _ _ _ => ms end.

(** The result of the two early returns and of the [catch]; [limit || 50]. *)
Definition emptyResult (limit : option Z) (offset : Z) : Messages :=
  match limit with
  | None => AllMessages []
  | Some l => MessagePage [] 0 false offset (if l =? 0 then 50 else l)
  end.

Section Messages.

(** [JSON.parse]: [None] when it throws. *)
Variable JSON_parse : string -> option json.

(** [new Date(v).getTime()] for a truthy JSON value: [None] for NaN. *)
Variable Date_getTime : json -> option Z.

(** The body of the loop over the lines: the entry pushed, if any.  A
    line that parses to [null] throws on the field and is skipped like
    a malformed one. *)
Definition messageOf (sessionId line : string) : option json :=
  if blank line then None
  else
    match JSON_parse line with
    | None | Some JNull => None
    | Some entry => if field_is "sessionId" sessionId entry then Some entry else None
    end.

(** The entries pushed for one file, whose lines are those [readline]
    yields. *)
Definition fileMessages (sessionId content : string) : list json :=
  omap (messageOf sessionId) (readlineLines content).

(** The array [messages] after the loop over the [.jsonl] files, in
    the order of the directory listing. *)
Definition allMessages (sessionId : string) (files : Directory) : list json :=
  flat_map (fun f => fileMessages sessionId f.2) (List.filter (fun f => isJsonl f.1) files).

(** [new Date(entry.timestamp || 0).getTime()] *)
Definition timeOf (entry : json) : option Z :=
  if truthy_json (get "timestamp" entry) then get "timestamp" entry ≫= Date_getTime
  else Some 0.

(** The comparison of the sort; a NaN difference counts as zero. *)
Definition byTime (a b : json) : Z :=
  match timeOf a, timeOf b with
  | Some x, Some y => x - y
  | _, _ => 0
  end.

(** [getClaudeSessionMessages(projectName, sessionId, limit, offset)];
    [limit] is [None] for [null]. *)
Definition getClaudeSessionMessages (projectName sessionId : string)
    (limit : option Z) (offset : Z) (projects : Projects) : Messages :=
  match projects !! projectName with
  | None => emptyResult limit offset
  | Some files =>
      if existsb (fun f => isJsonl f.1) files then
        let sortedMessages := sortBy byTime (allMessages sessionId files) in
        let total := Z.of_nat (length sortedMessages) in
        match limit with
        | None => AllMessages sortedMessages
        | Some limit =>
            let startIndex := Z.max 0 (total - offset - limit) in
            let endIndex := total - offset in
            MessagePage (slice startIndex endIndex sortedMessages) (length sortedMessages)
                        (0 <? startIndex) offset limit
        end
      else emptyResult limit offset
  end.

(** *** Properties *)

(** The messages of the session in time order, whatever the page. *)
Definition sorted (projectName sessionId : string) (projects : Projects) : list json :=
  messagesOf (getClaudeSessionMessages projectName sessionId None 0 projects).

Lemma allMessages_nil sessionId (files : Directory) :
  existsb (fun f => isJsonl f.1) files = false -> allMessages sessionId files = [].
Proof.
  unfold allMessages. induction files as [|f files IH]; [done|]. cbn [existsb List.filter].
  intros [Hf Hrest]%orb_false_elim. rewrite Hf. by apply IH.
Qed.

Lemma sorted_eq projectName sessionId projects :
  sorted projectName sessionId projects
  = sortBy byTime (allMessages sessionId (default [] (projects !! projectName))).
Proof.
  unfold sorted, getClaudeSessionMessages. destruct (projects !! projectName) as [files|]; [|done].
  cbn [default from_option Datatypes.id]. destruct (existsb _ files) eqn:He; [done|].
  by rewrite allMessages_nil.
Qed.

Lemma elem_of_allMessages sessionId (files : Directory) entry :
  entry ∈ allMessages sessionId files
  <-> exists f line,
        f ∈ files /\ isJsonl f.1 = true /\ line ∈ readlineLines f.2
        /\ blank line = false /\ JSON_parse line = Some entry /\ entry ≠ JNull
        /\ field_is "sessionId" sessionId entry = true.
Proof.
  unfold allMessages. rewrite list_elem_of_In, in_flat_map. split.
  - intros (f & [Hf Hj]%filter_In & Hin). exists f.
    apply list_elem_of_In, list_elem_of_omap in Hin as (line & Hline & Hm).
    exists line. split; [by apply list_elem_of_In|]. split; [done|]. split; [done|].
    unfold messageOf in Hm. destruct (blank line); [done|]. split; [done|].
    destruct (JSON_parse line) as [e|]; [|done].
    destruct (field_is "sessionId" sessionId e) eqn:Hs;
      destruct e; try done; injection Hm as <-; done.
  - intros (f & line & Hf & Hj & Hline & Hb & Hp & Hn & Hs). exists f.
    split; [apply filter_In; split; [by apply list_elem_of_In | done]|].
    apply list_elem_of_In, list_elem_of_omap. exists line. split; [done|].
    unfold messageOf. rewrite Hb, Hp, Hs. by destruct entry.
Qed.

(** X10: without a limit the call returns the entries of the project's
    [.jsonl] files whose line, as [readline] cuts the file at line
    feeds, carriage returns and the separators U+2028 and U+2029, is not
    blank and parses to an object with exactly that sessionId, and
    nothing else (an empty list when the project has no directory); when
    every one of them has a valid timestamp, or none, they are in
    ascending time order. *)
Theorem session_messages projectName sessionId offset projects :
  let result := getClaudeSessionMessages projectName sessionId None offset projects in
  result = AllMessages (sorted projectName sessionId projects)
  /\ (forall entry,
        entry ∈ messagesOf result
        <-> exists files f line,
              projects !! projectName = Some files /\ f ∈ files /\ isJsonl f.1 = true
              /\ line ∈ readlineLines f.2 /\ blank line = false
              /\ JSON_parse line = Some entry /\ entry ≠ JNull
              /\ field_is "sessionId" sessionId entry = true)
  /\ ((forall entry, entry ∈ messagesOf result -> is_Some (timeOf entry)) ->
      StronglySorted (fun a b => default 0 (timeOf a) <= default 0 (timeOf b))
                     (messagesOf result)).
Proof.
  intros result.
  assert (Hres : result = AllMessages (sorted projectName sessionId projects)).
  { subst result. unfold sorted, getClaudeSessionMessages.
    destruct (projects !! projectName) as [files|]; [|done]. by destruct (existsb _ files). }
  split; [exact Hres|]. rewrite Hres. cbn [messagesOf]. rewrite sorted_eq. split.
  - intros entry. rewrite sortBy_Permutation, elem_of_allMessages.
    destruct (projects !! projectName) as [files|]; cbn [default from_option Datatypes.id].
    + split; [intros (f & line & H); by exists files, f, line|].
      intros (files' & f & line & [= <-] & H). by exists f, line.
    + split; [intros (f & line & Hf & _); by apply elem_of_nil in Hf|].
      by intros (files' & f & line & [=] & _).
  - intros Hvalid.
    set (l := allMessages sessionId (default [] (projects !! projectName))) in *.
    rewrite (sortBy_ext byTime (fun a b => default 0 (timeOf a) - default 0 (timeOf b))).
    + apply (sortBy_sorted (fun a => default 0 (timeOf a))).
    + intros a b Ha Hb. unfold byTime.
      destruct (Hvalid a) as [x ->]; [by rewrite sortBy_Permutation|].
      destruct (Hvalid b) as [y ->]; [by rewrite sortBy_Permutation|]. done.
Qed.

Lemma slice_window {A} (L : list A) (n o l : Z) :
  n = Z.of_nat (length L) -> 0 <= o <= n -> 0 <= l ->
  slice (Z.max 0 (n - o - l)) (n - o) L
  = take (Z.to_nat (Z.min l (n - o))) (drop (Z.to_nat (n - o - l)) L).
Proof.
  intros Hn Ho Hl. unfold slice. rewrite <- Hn.
  destruct (Z.ltb_spec (Z.max 0 (n - o - l)) 0); [lia|].
  destruct (Z.ltb_spec (n - o) 0); [lia|].
  f_equal; [lia|]. f_equal. lia.
Qed.

Lemma slice_beyond {A} (L : list A) (n o l : Z) :
  n = Z.of_nat (length L) -> n < o -> 0 <= l ->
  slice (Z.max 0 (n - o - l)) (n - o) L = take (Z.to_nat (2 * n - o)) L.
Proof.
  intros Hn Ho Hl. unfold slice. rewrite <- Hn.
  destruct (Z.ltb_spec (Z.max 0 (n - o - l)) 0); [lia|].
  destruct (Z.ltb_spec (n - o) 0); [|lia].
  replace (Z.to_nat (Z.min (Z.max 0 (n - o - l)) n)) with 0%nat by lia.
  rewrite drop_0. f_equal. lia.
Qed.

Lemma page_eq projectName sessionId limit offset projects :
  0 < limit -> 0 <= offset ->
  let L := sorted projectName sessionId projects in
  let n := Z.of_nat (length L) in
  getClaudeSessionMessages projectName sessionId (Some limit) offset projects
  = MessagePage (slice (Z.max 0 (n - offset - limit)) (n - offset) L) (length L)
                (0 <? Z.max 0 (n - offset - limit)) offset limit.
Proof.
  intros Hl Ho L n. subst n L. unfold sorted, getClaudeSessionMessages.
  assert (Hempty : emptyResult (Some limit) offset
                   = MessagePage (slice (Z.max 0 (0 - offset - limit)) (0 - offset) [])
                       0 (0 <? Z.max 0 (0 - offset - limit)) offset limit).
  { unfold emptyResult, slice. rewrite drop_nil, take_nil.
    destruct (Z.eqb_spec limit 0); [lia|]. f_equal. symmetry. apply Z.ltb_ge. lia. }
  destruct (projects !! projectName) as [files|]; [|exact Hempty].
  destruct (existsb _ files); [done | exact Hempty].
Qed.

(** X11: with a limit, the page at [offset] holds the messages that
    stand [offset] places before the end of the time-ordered list, at most
    [limit] of them: offset 0 gives the latest ones; [total] is the number
    of messages of the session and [hasMore] tells whether older ones
    remain.  The page at [offset + limit] followed by the page at
    [offset] is the page of twice the limit at [offset], so walking the
    offsets in steps of [limit] lists every message once. *)
Theorem message_pages projectName sessionId limit offset projects :
  let L := sorted projectName sessionId projects in
  let n := Z.of_nat (length L) in
  let page := fun o l => getClaudeSessionMessages projectName sessionId (Some l) o projects in
  0 < limit -> 0 <= offset <= n ->
  page offset limit
  = MessagePage (take (Z.to_nat (Z.min limit (n - offset)))
                      (drop (Z.to_nat (n - offset - limit)) L))
                (length L) (offset + limit <? n) offset limit
  /\ (offset = 0 ->
      exists older, L = older ++ messagesOf (page offset limit)
                    /\ length (messagesOf (page offset limit)) = Z.to_nat (Z.min limit n))
  /\ (offset + limit <= n ->
      messagesOf (page (offset + limit) limit) ++ messagesOf (page offset limit)
      = messagesOf (page offset (2 * limit))).
Proof.
  intros L n page Hl Ho.
  assert (Hpage : forall o l, 0 < l -> 0 <= o <= n ->
            page o l = MessagePage (take (Z.to_nat (Z.min l (n - o)))
                                         (drop (Z.to_nat (n - o - l)) L))
                                   (length L) (o + l <? n) o l).
  { intros o l Hl' Ho'. subst page. cbn beta. rewrite page_eq by lia. fold L. fold n.
    rewrite (slice_window L n) by (done || lia). f_equal.
    destruct (Z.ltb_spec 0 (Z.max 0 (n - o - l))), (Z.ltb_spec (o + l) n); try done; lia. }
  split; [by apply Hpage|]. split.
  - intros ->. rewrite Hpage by lia. cbn [messagesOf].
    exists (take (Z.to_nat (n - 0 - limit)) L). split.
    + rewrite (take_ge (drop (Z.to_nat (n - 0 - limit)) L));
        [by rewrite take_drop|]. rewrite length_drop. lia.
    + rewrite length_take, length_drop. lia.
  - intros Hfit. rewrite !Hpage by lia. cbn [messagesOf].
    set (a := Z.to_nat (n - offset - 2 * limit)).
    replace (Z.to_nat (n - (offset + limit) - limit)) with a by lia.
    replace (drop (Z.to_nat (n - offset - limit)) L)
      with (drop (Z.to_nat (n - offset - limit) - a) (drop a L))
      by (rewrite drop_drop; f_equal; lia).
    replace (Z.to_nat (Z.min limit (n - (offset + limit))))
      with (Z.to_nat (n - offset - limit) - a)%nat by lia.
    rewrite take_take_drop. f_equal. lia.
Qed.

(** X12: an offset beyond the number of messages does not give an empty
    page: the end index becomes negative and counts from the end, so the
    page holds the oldest messages, as many as the offset falls short of
    twice the total, and none only from twice the total on; [hasMore] is
    false. *)
Theorem message_page_beyond projectName sessionId limit offset projects :
  let L := sorted projectName sessionId projects in
  let n := Z.of_nat (length L) in
  0 < limit -> n < offset ->
  getClaudeSessionMessages projectName sessionId (Some limit) offset projects
  = MessagePage (take (Z.to_nat (2 * n - offset)) L) (length L) false offset limit.
Proof.
  intros L n Hl Ho. rewrite page_eq by lia. fold L. fold n.
  rewrite (slice_beyond L n) by (done || lia). f_equal. apply Z.ltb_ge. lia.
Qed.

End Messages.

(** *** The reader on a sample log *)

Definition stamped (sid : string) (timestamp : Z) : json :=
  JObj [("sessionId", JStr sid); ("timestamp", JNum timestamp)].

Definition m1 : json := stamped "s" 10.
Definition m2 : json := stamped "s" 20.
Definition m3 : json := stamped "s" 30.
Definition o1 : json := stamped "t" 15.

Definition logParse : string -> option json := tableParse [m1; m2; m3; o1].

(** [new Date(n).getTime()] for the numeric timestamps of the sample. *)
Definition logDate (v : json) : option Z :=
  match v with JNum n => Some n | _ => None end.

(** Three messages of session [s], out of order, and one of [t]. *)
Definition sampleLog : string :=
  stringify m2 +:+ NL +:+ stringify o1 +:+ NL +:+ stringify m1 +:+ NL
  +:+ stringify m3 +:+ NL.

Definition sampleProjects : Projects := {[ "-p" := [("a.jsonl", sampleLog)] ]}.

Lemma sampleSorted : sorted logParse logDate "-p" "s" sampleProjects = [m1; m2; m3].
Proof. vm_compute. reflexivity. Qed.

(** The latest two messages, and the older one on the next page. *)
Example message_pages_witness :
  getClaudeSessionMessages logParse logDate "-p" "s" (Some 2) 0 sampleProjects
  = MessagePage [m2; m3] 3 true 0 2
  /\ getClaudeSessionMessages logParse logDate "-p" "s" (Some 2) 2 sampleProjects
     = MessagePage [m1] 3 false 2 2.
Proof.
  assert (H0 : 0 <= 0 <= Z.of_nat (length (sorted logParse logDate "-p" "s" sampleProjects)))
    by (rewrite sampleSorted; cbn; lia).
  assert (H2 : 0 <= 2 <= Z.of_nat (length (sorted logParse logDate "-p" "s" sampleProjects)))
    by (rewrite sampleSorted; cbn; lia).
  split.
  - rewrite (proj1 (message_pages logParse logDate "-p" "s" 2 0 sampleProjects
                      ltac:(lia) H0)).
    rewrite sampleSorted. reflexivity.
  - rewrite (proj1 (message_pages logParse logDate "-p" "s" 2 2 sampleProjects
                      ltac:(lia) H2)).
    rewrite sampleSorted. reflexivity.
Defined.

(** An offset past the three messages: the oldest two come back. *)
Example message_page_beyond_witness :
  getClaudeSessionMessages logParse logDate "-p" "s" (Some 2) 4 sampleProjects
  = MessagePage [m1; m2] 3 false 4 2.
Proof.
  assert (H4 : Z.of_nat (length (sorted logParse logDate "-p" "s" sampleProjects)) < 4)
    by (rewrite sampleSorted; cbn; lia).
  rewrite (message_page_beyond logParse logDate "-p" "s" 2 4 sampleProjects ltac:(lia) H4).
  rewrite sampleSorted. reflexivity.
Defined.

End SessionMessages.

(** ** What [deleteSession] leaves behind (sessionManagerNew.ts) *)

Module AfterDelete.

Import JS JSArray PathSandbox SessionLog SessionMessages.

Definition LF : ascii := "010"%char.

Lemma split_nl_split_on (s : string) : split_nl s = split_on LF s.
Proof. induction s as [|c s IH]; [done|]. cbn. by rewrite IH. Qed.

(** The text starts with a line end of [readline] other than the line
    feed: a carriage return, or one of the separators U+2028 and
    U+2029. *)
Definition breakAt (s : string) : bool :=
  match s with
  | String a s1 =>
      byteIs 13 a
      || match s1 with
         | String b (String c _) =>
             byteIs 226 a && byteIs 128 b && (byteIs 168 c || byteIs 169 c)
         | _ => false
         end
  | EmptyString => false
  end.

(** The only line ends of the text are line feeds. *)
Fixpoint lineFeedsOnly (s : string) : bool :=
  match s with
  | EmptyString => true
  | String a s1 => negb (breakAt (String a s1)) && lineFeedsOnly s1
  end.

Lemma byteIs_LF (a : ascii) : byteIs 10 a = Ascii.eqb a LF.
Proof. by destruct a as [[] [] [] [] [] [] [] []]. Qed.

(** Then [readline] splits at the line feeds. *)
Lemma readlineLines_split (s : string) :
  lineFeedsOnly s = true -> readlineLines s = split_nl s.
Proof.
  induction s as [|a s IH]; [done|].
  change (lineFeedsOnly (String a s)) with (negb (breakAt (String a s)) && lineFeedsOnly s).
  intros [Hb Hs]%andb_prop. apply negb_true_iff in Hb. specialize (IH Hs).
  cbn [breakAt] in Hb. apply orb_false_elim in Hb as [Hcr Hsep].
  cbn [readlineLines split_nl]. rewrite byteIs_LF. fold LF.
  destruct (Ascii.eqb a LF); [by rewrite IH|]. rewrite Hcr.
  destruct s as [|b [|c s3]]; [done | by rewrite IH |].
  rewrite Hsep. by rewrite IH.
Qed.

Lemma breakAt_append (a : ascii) (l r : string) :
  breakAt (String a (l +:+ String LF r)) = breakAt (String a l).
Proof.
  assert (H128 : byteIs 128 LF = false) by done.
  assert (H168 : byteIs 168 LF || byteIs 169 LF = false) by done.
  cbn [breakAt]. f_equal.
  destruct l as [|b [|c l]]; rewrite ?append_nil, ?append_cons.
  - destruct r; [done|]. by rewrite H128, andb_false_r.
  - by rewrite append_nil, H168, andb_false_r.
  - done.
Qed.

Lemma breakAt_LF (r : string) : breakAt (String LF r) = false.
Proof. destruct r as [|b [|c r]]; reflexivity. Qed.

(** Line feeds are the only line ends of a text exactly when they are
    the only line ends of what stands before and after one of them. *)
Lemma lineFeedsOnly_append (l r : string) :
  lineFeedsOnly (l +:+ String LF r) = lineFeedsOnly l && lineFeedsOnly r.
Proof.
  induction l as [|a l IH].
  { rewrite append_nil.
    change (lineFeedsOnly (String LF r))
      with (negb (breakAt (String LF r)) && lineFeedsOnly r).
    by rewrite breakAt_LF. }
  rewrite append_cons.
  change (lineFeedsOnly (String a (l +:+ String LF r)))
    with (negb (breakAt (String a (l +:+ String LF r)))
          && lineFeedsOnly (l +:+ String LF r)).
  change (lineFeedsOnly (String a l)) with (negb (breakAt (String a l)) && lineFeedsOnly l).
  by rewrite breakAt_append, IH, andb_assoc.
Qed.

Lemma split_on_join_id sep (s : string) :
  String.concat (String sep "") (split_on sep s) = s.
Proof.
  induction s as [|c s IH]; [done|]. cbn [split_on].
  destruct (Ascii.eqb_spec c sep) as [->|Hne].
  - destruct (split_on_cons sep s) as (l & ls & Hs). rewrite Hs in *.
    change (String.concat (String sep "") ("" :: l :: ls))
      with ("" +:+ String sep "" +:+ String.concat (String sep "") (l :: ls)).
    by rewrite IH.
  - destruct (split_on_cons sep s) as (l & ls & Hs). rewrite Hs in *.
    destruct ls as [|l' ls]; [cbn in *; by rewrite IH|].
    change (String.concat (String sep "") (String c l :: l' :: ls))
      with (String c (String.concat (String sep "") (l :: l' :: ls))).
    by rewrite IH.
Qed.

Lemma lineFeedsOnly_concat (ls : list string) :
  lineFeedsOnly (String.concat (String LF "") ls)
  = forallb lineFeedsOnly ls.
Proof.
  induction ls as [|l ls IH]; [done|]. destruct ls as [|l' ls].
  - cbn. by rewrite andb_true_r.
  - change (String.concat (String LF "") (l :: l' :: ls))
      with (l +:+ String LF (String.concat (String LF "") (l' :: ls))).
    rewrite lineFeedsOnly_append, IH. done.
Qed.

Lemma lineFeedsOnly_lines (s : string) :
  lineFeedsOnly s = true ->
  Forall (fun l => lineFeedsOnly l = true) (split_on LF s).
Proof.
  intros Hs. rewrite <- (split_on_join_id LF s), lineFeedsOnly_concat in Hs.
  apply list.Forall_forall. intros l Hl.
  rewrite forallb_forall in Hs. by apply Hs, list_elem_of_In.
Qed.

Lemma split_on_join sep (ls : list string) :
  ls ≠ [] -> Forall (fun l => sepFree sep l = true) ls ->
  split_on sep (String.concat (String sep "") ls) = ls.
Proof.
  induction ls as [|n ls IH]; [done|]. intros _ Hf.
  inversion Hf as [|? ? Hn Hrest]; subst. destruct ls as [|n' ls].
  - cbn. by apply split_on_free.
  - change (String.concat (String sep "") (n :: n' :: ls))
      with (n +:+ String sep (String.concat (String sep "") (n' :: ls))).
    rewrite split_on_app, IH, split_on_free; done.
Qed.

Section Compose.

Variable JSON_parse : string -> option json.
Variable Date_getTime : json -> option Z.

Local Abbreviation lineOfSession := (lineOfSession JSON_parse).
Local Abbreviation hasSession := (hasSession JSON_parse).
Local Abbreviation filteredLines := (filteredLines JSON_parse).
Local Abbreviation contains := (contains JSON_parse).
Local Abbreviation rewritten := (rewritten JSON_parse).
Local Abbreviation deleteSession := (deleteSession JSON_parse).
Local Abbreviation messageOf := (messageOf JSON_parse).
Local Abbreviation fileMessages := (fileMessages JSON_parse).
Local Abbreviation allMessages := (allMessages JSON_parse).
Local Abbreviation bySid sid :=
  (filter (fun s : ClaudeSession => sameValueZero (id s) (JStr sid) = true)).

(** The non-blank lines of a file the rewrite produced are the lines
    written. *)
Lemma nonBlankLines_newContent (ls : list string) :
  Forall (fun l => blank l = false /\ sepFree LF l = true) ls ->
  nonBlankLines (newContent ls) = ls.
Proof.
  intros Hls. unfold newContent, nonBlankLines. destruct ls as [|l ls]; [done|].
  change (join NL (l :: ls) +:+ NL)
    with (String.concat (String LF "") (l :: ls) +:+ String LF "").
  rewrite split_nl_split_on, split_on_app, split_on_join; [|done|].
  2:{ eapply list.Forall_impl; [exact Hls|]. by intros ? [_ ?]. }
  rewrite List.filter_app.
  assert (List.filter (fun line => negb (blank line)) (split_on LF "") = []) as -> by done.
  rewrite app_nil_r.
  apply forallb_filter_id, forallb_forall. intros x Hx%list_elem_of_In.
  rewrite list.Forall_forall in Hls. by destruct (Hls x Hx) as [-> _].
Qed.

Lemma nonBlankLines_facts (content : string) :
  Forall (fun l => blank l = false /\ sepFree LF l = true) (nonBlankLines content).
Proof.
  unfold nonBlankLines. apply list.Forall_forall. intros l Hl.
  apply list_elem_of_In, filter_In in Hl as [Hin Hb]. split; [by apply negb_true_iff|].
  rewrite split_nl_split_on in Hin. apply list_elem_of_In in Hin.
  by eapply list.Forall_forall in Hin; [|apply split_on_sepFree].
Qed.

Lemma filteredLines_facts sessionId (ls : list string) :
  Forall (fun l => blank l = false /\ sepFree LF l = true) ls ->
  Forall (fun l => blank l = false /\ sepFree LF l = true) (filteredLines sessionId ls).
Proof.
  intros H. apply list.Forall_forall. intros l Hl.
  apply list_elem_of_In, filter_In in Hl as [Hin _].
  rewrite list.Forall_forall in H. by apply H, list_elem_of_In.
Qed.

Lemma hasSession_filtered sessionId (ls : list string) :
  hasSession sessionId (filteredLines sessionId ls) = false.
Proof.
  unfold SessionLog.hasSession, SessionLog.filteredLines.
  induction ls as [|l ls IH]; [done|]. cbn [List.filter].
  destruct (default false (lineOfSession sessionId l)) eqn:Hl; cbn [negb]; [done|].
  cbn [existsb]. by rewrite Hl, IH.
Qed.

(** No file holds the session after the rewrite. *)
Lemma contains_rewritten sessionId (f : string * string) :
  contains sessionId (rewritten sessionId f) = false.
Proof.
  unfold SessionLog.rewritten. destruct (contains sessionId f) eqn:Hc; [|by destruct f].
  unfold SessionLog.contains. cbn [fst snd].
  rewrite nonBlankLines_newContent by apply filteredLines_facts, nonBlankLines_facts.
  rewrite hasSession_filtered. apply andb_false_r.
Qed.

Lemma existsb_rewritten sessionId (files : Directory) :
  existsb (contains sessionId) (map (rewritten sessionId) files) = false.
Proof.
  induction files as [|f files IH]; [done|]. cbn [map existsb].
  by rewrite contains_rewritten, IH.
Qed.

Lemma isJsonl_rewritten sessionId (files : Directory) :
  existsb (fun f => isJsonl f.1) (map (rewritten sessionId) files)
  = existsb (fun f => isJsonl f.1) files.
Proof. induction files as [|f files IH]; [done|]. cbn [map existsb]. by rewrite IH. Qed.

(** The projects directory after the call. *)
Lemma deleteSession_after projectName sessionId (projects : Projects) :
  (deleteSession projectName sessionId projects).2
  = match projects !! projectName with
    | Some files => <[projectName := map (rewritten sessionId) files]> projects
    | None => projects
    end.
Proof.
  unfold SessionLog.deleteSession. destruct (projects !! projectName) as [files|] eqn:Hf; [|done].
  rewrite processFiles_spec. destruct (existsb (fun f => isJsonl f.1) files) eqn:Hj; [done|].
  cbn [snd]. symmetry. rewrite rewritten_unchanged; [by apply insert_id|].
  apply not_true_iff_false. intros (f & Hin & Hc)%existsb_exists.
  apply andb_prop in Hc as [Hc _]. apply not_true_iff_false in Hj. apply Hj.
  apply existsb_exists. eauto.
Qed.

(** X13: a second [deleteSession] of the same session always fails and
    changes nothing: after the first call, whatever its outcome, no
    [.jsonl] file of the project holds a parseable line of the session. *)
Theorem deleteSession_twice projectName sessionId (projects : Projects) :
  let after := (deleteSession projectName sessionId projects).2 in
  (exists message,
     (deleteSession projectName sessionId after).1 = Rejected message)
  /\ (deleteSession projectName sessionId after).2 = after
  /\ (forall files f, after !! projectName = Some files -> f ∈ files ->
        contains sessionId f = false).
Proof.
  intros after. subst after. rewrite deleteSession_after.
  destruct (projects !! projectName) as [files|] eqn:Hf.
  - assert (Hsecond : SessionLog.deleteSession JSON_parse projectName sessionId
              (<[projectName := map (rewritten sessionId) files]> projects)
            = (if existsb (fun f => isJsonl f.1) files
               then Rejected ("Session " +:+ sessionId +:+ " not found in any files")
               else Rejected "No session files found for this project",
               <[projectName := map (rewritten sessionId) files]> projects)).
    { unfold SessionLog.deleteSession. rewrite lookup_insert_eq, isJsonl_rewritten.
      destruct (existsb (fun f => isJsonl f.1) files); [|done].
      rewrite processFiles_spec, existsb_rewritten.
      rewrite rewritten_unchanged by apply existsb_rewritten.
      by rewrite insert_insert_eq. }
    rewrite Hsecond. cbn [fst snd]. split; [destruct (existsb _ files); eauto|].
    split; [done|]. intros files' f. rewrite lookup_insert_eq. intros [= <-] Hin.
    apply list_elem_of_In, in_map_iff in Hin as (f0 & <- & _). apply contains_rewritten.
  - unfold SessionLog.deleteSession. rewrite Hf. cbn [fst snd]. split; [eauto|].
    split; [done|]. by intros files f.
Qed.

Lemma omap_filter {A B} (f : A -> option B) (g : A -> bool) (l : list A) :
  (forall x, x ∈ l -> g x = false -> f x = None) ->
  omap f (List.filter g l) = omap f l.
Proof.
  induction l as [|x l IH]; [done|]. intros H. cbn [List.filter]. rewrite omap_cons.
  destruct (g x) eqn:Hg.
  - rewrite omap_cons, IH; [done|]. intros; apply H; [by right | done].
  - rewrite (H x) by (done || left). apply IH. intros; apply H; [by right | done].
Qed.

Lemma omap_none {A B} (f : A -> option B) (l : list A) :
  (forall x, x ∈ l -> f x = None) -> omap f l = [].
Proof.
  induction l as [|x l IH]; [done|]. intros H. rewrite omap_cons, (H x) by left.
  apply IH. intros; apply H; by right.
Qed.

Lemma messageOf_none sessionId line :
  default false (lineOfSession sessionId line) = false -> messageOf sessionId line = None.
Proof.
  unfold SessionLog.lineOfSession, SessionMessages.messageOf.
  destruct (blank line); [done|]. destruct (JSON_parse line) as [e|]; [|done].
  destruct e; try done; cbn [default from_option Datatypes.id]; by intros ->.
Qed.

Lemma messageOf_other sessionId other line :
  other ≠ sessionId ->
  default false (lineOfSession sessionId line) = true -> messageOf other line = None.
Proof.
  intros Hne. unfold SessionLog.lineOfSession, SessionMessages.messageOf.
  destruct (blank line); [done|]. destruct (JSON_parse line) as [e|]; [|done].
  assert (H : field_is "sessionId" sessionId e = true -> field_is "sessionId" other e = false).
  { unfold field_is. destruct (get "sessionId" e) as [[]|]; try done.
    intros ->%String.eqb_eq. by apply String.eqb_neq. }
  destruct e; try done; cbn [default from_option Datatypes.id]; by intros ->%H.
Qed.

Lemma hasSession_false sessionId (ls : list string) line :
  hasSession sessionId ls = false -> line ∈ ls ->
  default false (lineOfSession sessionId line) = false.
Proof.
  unfold SessionLog.hasSession. intros H Hin. apply not_true_iff_false. intros Ht.
  apply not_true_iff_false in H. apply H, existsb_exists. exists line.
  split; [by apply list_elem_of_In | done].
Qed.

(** Of a file whose only line ends are line feeds, the messages are
    those of its non-blank lines. *)
Lemma fileMessages_lines sessionId content :
  lineFeedsOnly content = true ->
  fileMessages sessionId content = omap (messageOf sessionId) (nonBlankLines content).
Proof.
  intros Hcr. unfold SessionMessages.fileMessages, nonBlankLines.
  rewrite readlineLines_split by done. symmetry. apply omap_filter.
  intros line _ Hb%negb_false_iff. unfold SessionMessages.messageOf. by rewrite Hb.
Qed.

Lemma lineFeedsOnly_rewritten sessionId (f : string * string) :
  lineFeedsOnly f.2 = true -> lineFeedsOnly (rewritten sessionId f).2 = true.
Proof.
  intros Hp. unfold SessionLog.rewritten. destruct (contains sessionId f); [|done].
  cbn [snd]. unfold newContent.
  destruct (filteredLines sessionId (nonBlankLines f.2)) as [|l ls] eqn:Hk; [done|].
  change (join NL (l :: ls) +:+ NL)
    with (String.concat (String LF "") (l :: ls) +:+ String LF "").
  rewrite lineFeedsOnly_append, lineFeedsOnly_concat, andb_true_r.
  apply forallb_forall. intros x Hx. rewrite <- Hk in Hx.
  apply filter_In in Hx as [Hx _]. apply filter_In in Hx as [Hx _].
  rewrite split_nl_split_on in Hx. apply list_elem_of_In in Hx.
  pose proof (lineFeedsOnly_lines f.2 Hp) as Hall.
  rewrite list.Forall_forall in Hall. by apply Hall.
Qed.

Lemma fileMessages_rewritten sessionId (f : string * string) :
  isJsonl f.1 = true -> lineFeedsOnly f.2 = true ->
  fileMessages sessionId (rewritten sessionId f).2 = [].
Proof.
  intros Hj Hcr. rewrite fileMessages_lines by (by apply lineFeedsOnly_rewritten).
  apply omap_none. intros line Hin. apply messageOf_none.
  pose proof (contains_rewritten sessionId f) as Hc. unfold SessionLog.contains in Hc.
  assert ((rewritten sessionId f).1 = f.1) as Hname by done. rewrite Hname, Hj in Hc.
  by eapply hasSession_false.
Qed.

Lemma fileMessages_rewritten_other sessionId other (f : string * string) :
  other ≠ sessionId -> lineFeedsOnly f.2 = true ->
  fileMessages other (rewritten sessionId f).2 = fileMessages other f.2.
Proof.
  intros Hne Hcr. rewrite !fileMessages_lines by (done || by apply lineFeedsOnly_rewritten).
  unfold SessionLog.rewritten. destruct (contains sessionId f); [|done]. cbn [snd].
  rewrite nonBlankLines_newContent by apply filteredLines_facts, nonBlankLines_facts.
  apply omap_filter. intros line _ Hl%negb_false_iff. by eapply messageOf_other.
Qed.

(** The log files of a directory in which line feeds are the only line
    ends: none holds a carriage return or a separator U+2028 or U+2029,
    at which [readline] ends a line and [split] does not. *)
Definition plainLines (files : Directory) : Prop :=
  forall f, f ∈ files -> isJsonl f.1 = true -> lineFeedsOnly f.2 = true.

Lemma allMessages_rewritten sessionId (files : Directory) :
  plainLines files ->
  allMessages sessionId (map (rewritten sessionId) files) = [].
Proof.
  unfold SessionMessages.allMessages. induction files as [|f files IH]; [done|]. intros Hp.
  cbn [map List.filter]. assert ((rewritten sessionId f).1 = f.1) as -> by done.
  assert (Hrest : plainLines files) by (intros g Hg; apply Hp; by right).
  destruct (isJsonl f.1) eqn:Hj; [|by apply IH].
  cbn [flat_map]. rewrite fileMessages_rewritten, IH; try done. apply Hp; [left | done].
Qed.

Lemma allMessages_rewritten_other sessionId other (files : Directory) :
  other ≠ sessionId -> plainLines files ->
  allMessages other (map (rewritten sessionId) files) = allMessages other files.
Proof.
  intros Hne. unfold SessionMessages.allMessages.
  induction files as [|f files IH]; [done|]. intros Hp.
  cbn [map List.filter]. assert ((rewritten sessionId f).1 = f.1) as -> by done.
  assert (Hrest : plainLines files) by (intros g Hg; apply Hp; by right).
  destruct (isJsonl f.1) eqn:Hj; [|by apply IH].
  cbn [flat_map]. rewrite fileMessages_rewritten_other, IH; try done. apply Hp; [left | done].
Qed.

Lemma slice_nil {A} (a b : Z) : slice a b (@nil A) = [].
Proof. unfold slice. by rewrite drop_nil, take_nil. Qed.

(** X14: when the log files of the project hold no carriage return and
    no separator U+2028 or U+2029 (so that the reader, which cuts lines
    as [readline] does, and the rewriter, which cuts at line feeds,
    agree), after [deleteSession], whatever its outcome,
    [getClaudeSessionMessages] finds no message of the session, on any
    page, and returns for every other session exactly what it returned
    before. *)
Theorem delete_then_messages projectName sessionId (projects : Projects) :
  (forall files, projects !! projectName = Some files -> plainLines files) ->
  let after := (deleteSession projectName sessionId projects).2 in
  (forall limit offset,
     messagesOf (getClaudeSessionMessages JSON_parse Date_getTime
                   projectName sessionId limit offset after) = [])
  /\ (forall other limit offset, other ≠ sessionId ->
        getClaudeSessionMessages JSON_parse Date_getTime projectName other limit offset after
        = getClaudeSessionMessages JSON_parse Date_getTime projectName other limit offset
            projects).
Proof.
  intros Hplain after. subst after. rewrite deleteSession_after.
  destruct (projects !! projectName) as [files|] eqn:Hf.
  - specialize (Hplain files eq_refl). split.
    + intros limit offset. unfold getClaudeSessionMessages.
      rewrite lookup_insert_eq, isJsonl_rewritten, allMessages_rewritten by done.
      destruct (existsb _ files); [|by destruct limit].
      destruct limit; [apply slice_nil | done].
    + intros other limit offset Hne. unfold getClaudeSessionMessages.
      by rewrite lookup_insert_eq, Hf, isJsonl_rewritten, allMessages_rewritten_other.
  - split; [|done]. intros limit offset. unfold getClaudeSessionMessages.
    rewrite Hf. by destruct limit.
Qed.

Definition logFilesOf (mtimeOf : string -> Z) (files : Directory) : list LogFile :=
  map (fun f => mkLogFile f.1 (mtimeOf f.1) f.2) files.

Lemma sessionEntries_rewritten sessionId (f : string * string) :
  isJsonl f.1 = true -> lineFeedsOnly f.2 = true ->
  sessionEntries JSON_parse sessionId (rewritten sessionId f).2 = [].
Proof.
  intros Hj Hp. unfold sessionEntries.
  rewrite readlineLines_split by (by apply lineFeedsOnly_rewritten).
  apply omap_none. intros line Hin.
  unfold entryOf. destruct (blank line) eqn:Hb; [done|].
  pose proof (contains_rewritten sessionId f) as Hc. unfold SessionLog.contains in Hc.
  assert ((rewritten sessionId f).1 = f.1) as Hname by done. rewrite Hname, Hj in Hc.
  cbn [andb] in Hc.
  assert (Hl : default false (lineOfSession sessionId line) = false).
  { eapply hasSession_false; [exact Hc|]. unfold nonBlankLines.
    apply list_elem_of_In, filter_In. split; [by apply list_elem_of_In | by rewrite Hb]. }
  unfold SessionLog.lineOfSession in Hl. destruct (JSON_parse line) as [e|]; [|done].
  destruct (field_is "sessionId" sessionId e) eqn:Hfi; cbn [andb]; [|by destruct e].
  destruct e; try done; cbn [default from_option Datatypes.id] in Hl; congruence.
Qed.

(** X15: under the same condition on the log files, after
    [deleteSession] the session is no longer listed by
    [getClaudeSessions], on any page and whatever the modification times
    of the files now are. *)
Theorem delete_then_listing projectName sessionId (projects : Projects)
    clip now mtimeOf limit offset :
  (forall files, projects !! projectName = Some files -> plainLines files) ->
  let after := (deleteSession projectName sessionId projects).2 in
  forall s,
    s ∈ sessions (getClaudeSessions JSON_parse Date_getTime clip now projectName limit offset
                    (logFilesOf mtimeOf <$> after)) ->
    id s ≠ JStr sessionId.
Proof.
  intros Hplain after s Hs Hid. subst after. rewrite deleteSession_after in Hs.
  unfold getClaudeSessions in Hs. rewrite lookup_fmap in Hs.
  destruct (projects !! projectName) as [files|] eqn:Hf.
  2:{ rewrite Hf in Hs. cbn in Hs. by apply elem_of_nil in Hs. }
  specialize (Hplain files eq_refl).
  rewrite lookup_insert_eq in Hs. cbn [fmap option_fmap option_map sessions] in Hs.
  eapply elem_of_sublist in Hs; [|apply sublist_take].
  eapply elem_of_sublist in Hs; [|apply sublist_drop].
  assert (Hnone : bySid sessionId
            (sortedSessions JSON_parse Date_getTime clip now
               (logFilesOf mtimeOf (map (rewritten sessionId) files))) = []).
  { unfold sortedSessions. cbv zeta. apply bySid_sortDesc; [|cbn; lia].
    apply bySid_mergeFiles_skipped; [|done].
    rewrite sortDesc_Permutation. apply list.Forall_forall. intros lf Hlf.
    apply list_elem_of_In, filter_In in Hlf as [Hlf Hj].
    unfold logFilesOf in Hlf. rewrite map_map in Hlf.
    apply in_map_iff in Hlf as (f & <- & Hin). cbn [fileContent fileName] in *.
    assert (Hj0 : isJsonl f.1 = true) by done.
    apply sessionEntries_rewritten; [done|]. apply Hplain; [by apply list_elem_of_In | done]. }
  assert (Hin : s ∈ bySid sessionId
            (sortedSessions JSON_parse Date_getTime clip now
               (logFilesOf mtimeOf (map (rewritten sessionId) files)))).
  { apply list_elem_of_filter. split; [by apply sameValueZero_JStr | done]. }
  rewrite Hnone in Hin. by apply elem_of_nil in Hin.
Qed.

End Compose.

(** *** Deleting a session of the sample log *)

Lemma sample_plain :
  forall files, sampleProjects !! "-p" = Some files -> plainLines files.
Proof.
  intros files H. unfold sampleProjects in H. rewrite lookup_singleton_eq in H.
  injection H as <-. intros f Hin _. apply list_elem_of_singleton in Hin. subst f.
  vm_compute. reflexivity.
Qed.

Example delete_then_messages_witness :
  let after := (deleteSession logParse "-p" "s" sampleProjects).2 in
  messagesOf (getClaudeSessionMessages logParse logDate "-p" "s" None 0 after) = []
  /\ getClaudeSessionMessages logParse logDate "-p" "t" None 0 after = AllMessages [o1].
Proof.
  intros after.
  destruct (delete_then_messages logParse logDate "-p" "s" sampleProjects sample_plain)
    as [H1 H2].
  split; [apply H1|]. subst after. rewrite H2 by discriminate. vm_compute. reflexivity.
Defined.

Example delete_then_listing_witness :
  let after := (deleteSession logParse "-p" "s" sampleProjects).2 in
  Forall (fun σ => id σ ≠ JStr "s")
    (sessions (getClaudeSessions logParse logDate sampleClip 0 "-p" 5 0
                 (logFilesOf (fun _ => 0) <$> after))).
Proof.
  intros after. apply list.Forall_forall. intros σ Hσ.
  exact (delete_then_listing logParse logDate "-p" "s" sampleProjects sampleClip 0
           (fun _ => 0) 5%nat 0%nat sample_plain σ Hσ).
Defined.

End AfterDelete.

(** ** Manually added projects and project deletion (projectConfig.ts) *)

Module Registry.

Import JS PathSandbox ProjectConfig.

(** [absolutePath.replace(/\//g, '-')] *)
Definition encodeAlias (absolutePath : string) : string :=
  replace_char "/"%char "-"%char absolutePath.

(** A project as [addProjectManually] returns it and
    [getManuallyAddedProjects] lists it; [sessions] is empty and
    [sessionMeta] is no more and zero.  A display name read from
    [package.json] is whatever JSON value its [name] field holds. *)
Record ManualProject : Type := mkManual {
  name : string;
  path : string;
  fullPath : string;
  shownName : json;
  isManuallyAdded : bool;
  isCustomName : bool
}.

Section Config.

(** [access(path)] succeeds. *)
Variable pathExists : string -> bool.

(** The value [JSON.parse] gives for the content of the file at a path;
    [None] when [access], [readFile] or [JSON.parse] throws. *)
Variable readJson : string -> option json.

(** [generateDisplayName(projectName, projectPath)] of projectConfig.ts:
    a truthy [name] of the [package.json] in the directory, else the
    text after the last separator of the path, else the alias. *)
Definition generateDisplayName (projectName projectPath : string) : json :=
  let fallback :=
    match list.last (segments projectPath) with
    | Some part => if String.eqb part "" then projectName else part
    | None => projectName
    end in
  match readJson (join2 projectPath "package.json") with
  | Some packageJson =>
      match get "name" packageJson with
      | Some n => if truthy_json (Some n) then n else JStr fallback
      | None => JStr fallback
      end
  | None => JStr fallback
  end.

(** [displayName || await generateDisplayName(projectName, path)] *)
Definition nameShown (displayName : option string) (projectName projectPath : string)
    : json :=
  match displayName with
  | Some d => if truthy (Some d) then JStr d else generateDisplayName projectName projectPath
  | None => generateDisplayName projectName projectPath
  end.

Inductive AddResult : Type :=
  | Added (project : ManualProject) (config : ProjectConfig)
  | AddThrown (message : string).

(** [addProjectManually(projectPath, displayName)]: the project returned
    and the configuration saved, or the error thrown before anything is
    saved.  [process_cwd] is the working directory of the server. *)
Definition addProjectManually (process_cwd projectPath : string)
    (displayName : option string) (config : ProjectConfig) : AddResult :=
  let absolutePath :=
    if startsWith "/" projectPath then projectPath else join2 process_cwd projectPath in
  if negb (pathExists absolutePath) then
    AddThrown ("Path does not exist: " +:+ absolutePath)
  else
    let projectName := encodeAlias absolutePath in
    match config !! projectName with
    | Some _ => AddThrown ("Project already configured for path: " +:+ absolutePath)
    | None =>
        let entry :=
          mkEntry (Some true) (Some absolutePath)
                  (if truthy displayName then displayName else None) in
        Added (mkManual projectName absolutePath absolutePath
                        (nameShown displayName projectName absolutePath)
                        true (truthy displayName))
              (<[projectName := entry]> config)
    end.

(** The element [getManuallyAddedProjects] pushes for one entry of the
    configuration, if any. *)
Definition listedProject (projectName : string) (entry : Entry) : option ManualProject :=
  match manuallyAdded entry, originalPath entry with
  | Some true, Some original =>
      if truthy (Some original) && pathExists original then
        Some (mkManual projectName original original
                       (nameShown (displayName entry) projectName original)
                       true (truthy (displayName entry)))
      else None
  | _, _ => None
  end.

(** [getManuallyAddedProjects()], by alias. *)
Definition getManuallyAddedProjects (config : ProjectConfig) : gmap string ManualProject :=
  map_imap listedProject config.

(** *** Properties of the manual projects *)

Lemma normalize_nonempty (p : string) : normalize p ≠ "".
Proof.
  unfold normalize. destruct (String.eqb p ""); [done|].
  destruct (String.eqb_spec (normalizeString p (negb (isAbsolute p))) "") as [|Hne].
  - by destruct (isAbsolute p), (endsWith "/" p).
  - destruct (isAbsolute p); [done|].
    destruct (endsWith "/" p); [|done].
    destruct (normalizeString p (negb false)); [done | done].
Qed.

Lemma join2_nonempty (a b : string) : join2 a b ≠ "".
Proof.
  unfold join2. destruct (String.eqb a "").
  - destruct (String.eqb b ""); [done | apply normalize_nonempty].
  - destruct (String.eqb b ""); apply normalize_nonempty.
Qed.

Lemma nameShown_stored (displayName : option string) projectName projectPath :
  nameShown (if truthy displayName then displayName else None) projectName projectPath
  = nameShown displayName projectName projectPath.
Proof.
  destruct displayName as [d|]; [|done]. cbn [truthy].
  destruct (String.eqb d "") eqn:E; cbn [negb nameShown truthy]; by rewrite ?E.
Qed.

Lemma truthy_stored (displayName : option string) :
  truthy (if truthy displayName then displayName else None) = truthy displayName.
Proof. destruct displayName as [d|]; [|done]. cbn. by destruct (String.eqb d "") eqn:E; cbn; rewrite ?E. Qed.

(** X16: a project that [addProjectManually] returns is stored under
    the alias made from its absolute path, which exists and was not
    configured before; no other alias changes; the project is listed by
    [getManuallyAddedProjects] exactly as it was returned; and adding the
    same path again, with any display name, fails with the error of a
    project already configured. *)
Theorem add_then_listed process_cwd projectPath displayName config project config' :
  addProjectManually process_cwd projectPath displayName config = Added project config' ->
  path project
  = (if startsWith "/" projectPath then projectPath else join2 process_cwd projectPath)
  /\ name project = encodeAlias (path project)
  /\ pathExists (path project) = true
  /\ config !! name project = None
  /\ (forall other, other ≠ name project -> config' !! other = config !! other)
  /\ getManuallyAddedProjects config' !! name project = Some project
  /\ (forall d, addProjectManually process_cwd projectPath d config'
                = AddThrown ("Project already configured for path: " +:+ path project)).
Proof.
  unfold addProjectManually.
  set (absolutePath := if startsWith "/" projectPath then projectPath
                       else join2 process_cwd projectPath).
  assert (Hne : truthy (Some absolutePath) = true).
  { subst absolutePath. cbn [truthy]. apply negb_true_iff, String.eqb_neq.
    destruct (startsWith "/" projectPath) eqn:Hs; [by destruct projectPath|].
    apply join2_nonempty. }
  destruct (pathExists absolutePath) eqn:Hex; cbn [negb]; [|discriminate].
  destruct (config !! encodeAlias absolutePath) as [e|] eqn:Hc; [discriminate|].
  intros [= <- <-]. cbn [path name].
  split; [done|]. split; [done|]. split; [done|]. split; [done|].
  split; [by intros other Hother; rewrite lookup_insert_ne|]. split.
  - unfold getManuallyAddedProjects. rewrite map_lookup_imap, lookup_insert_eq.
    change (listedProject (encodeAlias absolutePath)
              (mkEntry (Some true) (Some absolutePath)
                 (if truthy displayName then displayName else None))
            = Some (mkManual (encodeAlias absolutePath) absolutePath absolutePath
                      (nameShown displayName (encodeAlias absolutePath) absolutePath)
                      true (truthy displayName))).
    unfold listedProject. cbn [manuallyAdded originalPath ProjectConfig.displayName].
    rewrite Hne, Hex. cbn [andb]. by rewrite nameShown_stored, truthy_stored.
  - intros d. by rewrite lookup_insert_eq.
Qed.

(** X17: for a project listed as manually added, [renameProject] with
    a name that is not blank lists it with the trimmed name as a custom
    name and everything else as before; with an empty or blank name the
    whole entry goes, so the project is no longer listed and its path can
    be added again.  The listing of every other alias is unchanged. *)
Theorem rename_then_listed projectName newDisplayName config project :
  getManuallyAddedProjects config !! projectName = Some project ->
  let config' := renameProject projectName newDisplayName config in
  (forall other, other ≠ projectName ->
     getManuallyAddedProjects config' !! other = getManuallyAddedProjects config !! other)
  /\ (trim newDisplayName ≠ "" ->
      getManuallyAddedProjects config' !! projectName
      = Some (mkManual (name project) (path project) (fullPath project)
                (JStr (trim newDisplayName)) true true))
  /\ (trim newDisplayName = "" ->
      getManuallyAddedProjects config' !! projectName = None
      /\ (startsWith "/" (path project) = true ->
          name project = encodeAlias (path project) ->
          exists added config'',
            addProjectManually "/" (path project) None config' = Added added config''
            /\ path added = path project /\ name added = name project)).
Proof.
  intros Hlisted config'. unfold getManuallyAddedProjects in *.
  rewrite map_lookup_imap in Hlisted.
  destruct (config !! projectName) as [entry|] eqn:He; [|discriminate Hlisted].
  cbn in Hlisted. unfold listedProject in Hlisted.
  destruct (manuallyAdded entry) as [[]|] eqn:Hm; try discriminate Hlisted.
  destruct (originalPath entry) as [original|] eqn:Ho; [|discriminate Hlisted].
  destruct (truthy (Some original)) eqn:Ht; [|discriminate Hlisted].
  destruct (pathExists original) eqn:Hex; [|discriminate Hlisted].
  cbn [andb] in Hlisted. injection Hlisted as <-. cbn [name path fullPath].
  assert (Htrim : trim "" = "") by done.
  split; [|split].
  - intros other Hother. rewrite !map_lookup_imap. subst config'.
    by rewrite renameProject_other.
  - intros Hne. subst config'. unfold renameProject.
    destruct (String.eqb_spec newDisplayName "") as [->|_]; [done|].
    destruct (String.eqb_spec (trim newDisplayName) "") as [|_]; [done|].
    cbn [orb]. rewrite map_lookup_imap, lookup_insert_eq, He.
    change (listedProject projectName
              (mkEntry (manuallyAdded entry) (originalPath entry)
                 (Some (trim newDisplayName)))
            = Some (mkManual projectName original original (JStr (trim newDisplayName))
                      true true)).
    unfold listedProject. cbn [manuallyAdded originalPath ProjectConfig.displayName].
    rewrite Hm, Ho, Ht, Hex. cbn [andb nameShown].
    assert (Hn : truthy (Some (trim newDisplayName)) = true)
      by (by apply negb_true_iff, String.eqb_neq).
    by rewrite Hn.
  - intros Hblank.
    assert (Hc : config' = delete projectName config).
    { subst config'. unfold renameProject. rewrite Hblank. cbn [String.eqb].
      by rewrite orb_true_r. }
    rewrite Hc. split; [by rewrite map_lookup_imap, lookup_delete_eq|].
    intros Habs Halias. unfold addProjectManually. rewrite Habs, Hex. cbn [negb].
    rewrite <- Halias, lookup_delete_eq. by eexists _, _.
Qed.

(** X18: two paths with one alias, such as paths that differ in a
    hyphen for a slash, cannot both be added: once one is added, adding
    the other, which exists, is refused as already configured. *)
Theorem alias_collision process_cwd p q displayName d config project config' :
  addProjectManually process_cwd p displayName config = Added project config' ->
  startsWith "/" q = true -> pathExists q = true ->
  encodeAlias q = encodeAlias (path project) ->
  addProjectManually process_cwd q d config'
  = AddThrown ("Project already configured for path: " +:+ q).
Proof.
  unfold addProjectManually at 1.
  set (absolutePath := if startsWith "/" p then p else join2 process_cwd p).
  destruct (pathExists absolutePath) eqn:Hex; cbn [negb]; [|discriminate].
  destruct (config !! encodeAlias absolutePath) as [e|] eqn:Hc; [discriminate|].
  intros [= <- <-] Hq Hexq. cbn [path]. intros Halias.
  unfold addProjectManually. by rewrite Hq, Hexq, Halias, lookup_insert_eq.
Qed.

End Config.

(** *** Deleting a project *)

Lemma filter_cons_nil {A} (p : A -> bool) (x : A) (l : list A) :
  List.filter p (x :: l) = [] <-> p x = false /\ List.filter p l = [].
Proof.
  cbn [List.filter]. destruct (p x); split; [done | by intros [? _] | done | by intros [_ ?]].
Qed.

Lemma is_ws2_LF (a : ascii) : is_ws2 a AfterDelete.LF = false.
Proof. unfold is_ws2. by destruct (byteIs 194 a). Qed.

Lemma is_ws3_LF_second (a c : ascii) : is_ws3 a AfterDelete.LF c = false.
Proof.
  unfold is_ws3.
  by destruct (byteIs 225 a), (byteIs 226 a), (byteIs 227 a), (byteIs 239 a).
Qed.

Lemma is_ws3_LF_third (a b : ascii) : is_ws3 a b AfterDelete.LF = false.
Proof.
  unfold is_ws3.
  assert (byteIs 128 AfterDelete.LF = false) as -> by done.
  assert (byteIn 128 138 AfterDelete.LF = false) as -> by done.
  assert (byteIs 168 AfterDelete.LF = false) as -> by done.
  assert (byteIs 169 AfterDelete.LF = false) as -> by done.
  assert (byteIs 175 AfterDelete.LF = false) as -> by done.
  assert (byteIs 159 AfterDelete.LF = false) as -> by done.
  assert (byteIs 191 AfterDelete.LF = false) as -> by done.
  cbn [orb]. by rewrite !andb_false_r.
Qed.

(** A text trims to nothing exactly when what stands before and after
    a line feed does: no white space of several bytes holds the byte of
    the line feed. *)
Lemma blank_append_LF (l r : string) :
  blank (l +:+ String AfterDelete.LF r) = blank l && blank r.
Proof.
  induction l as [l IH] using string_length_ind.
  destruct l as [|a s1]; [done|]. rewrite append_cons.
  change (blank (String a (s1 +:+ String AfterDelete.LF r)))
    with (if is_ws a then blank (s1 +:+ String AfterDelete.LF r)
          else match s1 +:+ String AfterDelete.LF r with
               | EmptyString => false
               | String b s2 =>
                   if is_ws2 a b then blank s2
                   else match s2 with
                        | EmptyString => false
                        | String c s3 => is_ws3 a b c && blank s3
                        end
               end).
  change (blank (String a s1))
    with (if is_ws a then blank s1
          else match s1 with
               | EmptyString => false
               | String b s2 =>
                   if is_ws2 a b then blank s2
                   else match s2 with
                        | EmptyString => false
                        | String c s3 => is_ws3 a b c && blank s3
                        end
               end).
  destruct (is_ws a); [apply IH; cbn; lia|].
  destruct s1 as [|b s2].
  { rewrite append_nil, is_ws2_LF. destruct r as [|c s3]; [done|].
    by rewrite is_ws3_LF_second. }
  rewrite append_cons. destruct (is_ws2 a b); [apply IH; cbn; lia|].
  destruct s2 as [|c s3].
  { by rewrite append_nil, is_ws3_LF_third. }
  rewrite append_cons. destruct (is_ws3 a b c); [apply IH; cbn; lia | done].
Qed.

Lemma blank_concat (ls : list string) :
  blank (String.concat (String AfterDelete.LF "") ls) = forallb blank ls.
Proof.
  induction ls as [|l ls IH]; [done|]. destruct ls as [|l' ls].
  - cbn [String.concat forallb]. by rewrite andb_true_r.
  - change (String.concat (String AfterDelete.LF "") (l :: l' :: ls))
      with (l +:+ String AfterDelete.LF
              (String.concat (String AfterDelete.LF "") (l' :: ls))).
    by rewrite blank_append_LF, IH.
Qed.

(** A content trims to nothing exactly when it has no non-blank line. *)
Lemma blank_nonBlankLines (content : string) :
  blank content = true <-> SessionLog.nonBlankLines content = [].
Proof.
  unfold SessionLog.nonBlankLines.
  rewrite <- (AfterDelete.split_on_join_id AfterDelete.LF content) at 1.
  rewrite blank_concat, AfterDelete.split_nl_split_on.
  generalize (split_on AfterDelete.LF content). intros ls.
  induction ls as [|l ls IH]; [done|]. cbn [forallb]. rewrite filter_cons_nil.
  rewrite andb_true_iff, IH, negb_false_iff. tauto.
Qed.

Section Removal.

(** [readFile] throws for the file of that name in the directory: it is
    a directory itself, or it may not be read. *)
Variable unreadable : string -> bool.

(** What [rm] leaves of the directory it is to remove: nothing when it
    succeeds, the entries not yet removed when it throws. *)
Variable afterRm : SessionLog.Directory -> option SessionLog.Directory.

(** The loop of [isProjectEmpty] over the [.jsonl] files: the first
    file that cannot be read ends the call in the [catch], which answers
    true; the first file read that does not trim to nothing answers
    false. *)
Fixpoint noContent (jsonlFiles : SessionLog.Directory) : bool :=
  match jsonlFiles with
  | [] => true
  | (file, content) :: rest =>
      if unreadable file then true
      else if negb (blank content) then false
      else noContent rest
  end.

(** [isProjectEmpty(projectName)]; a project without a directory ends in
    the [catch] as well. *)
Definition isProjectEmpty (projectName : string) (projects : SessionLog.Projects) : bool :=
  match projects !! projectName with
  | None => true
  | Some files => noContent (List.filter (fun f => SessionLog.isJsonl f.1) files)
  end.

(** [deleteProject(projectName)]: the outcome, the projects directory
    and the configuration afterwards.  A failure of [rm] is only
    logged. *)
Definition deleteProject (projectName : string) (projects : SessionLog.Projects)
    (config : ProjectConfig) : SessionLog.Outcome * SessionLog.Projects * ProjectConfig :=
  if negb (isProjectEmpty projectName projects) then
    (SessionLog.Rejected "Cannot delete project with existing sessions", projects, config)
  else
    (SessionLog.Resolved,
     match projects !! projectName with
     | Some files =>
         match afterRm files with
         | None => delete projectName projects
         | Some remaining => <[projectName := remaining]> projects
         end
     | None => projects
     end,
     delete projectName config).

(** The [.jsonl] files the loop reads: those before which every
    [.jsonl] file could be read, and which can be read themselves. *)
Definition readBy (files : SessionLog.Directory) (f : string * string) : Prop :=
  exists pre post,
    List.filter (fun f => SessionLog.isJsonl f.1) files = pre ++ f :: post
    /\ Forall (fun g => unreadable g.1 = false) pre
    /\ unreadable f.1 = false.

Lemma noContent_read (jsonlFiles : SessionLog.Directory) :
  noContent jsonlFiles = true
  <-> forall pre f post,
        jsonlFiles = pre ++ f :: post ->
        Forall (fun g : string * string => unreadable g.1 = false) pre ->
        unreadable f.1 = false -> blank f.2 = true.
Proof.
  induction jsonlFiles as [|[file content] rest IH].
  - split; [|done]. intros _ pre f post H. by destruct pre.
  - cbn [noContent]. destruct (unreadable file) eqn:Hu.
    + split; [|done]. intros _ pre f post Heq Hpre Hf.
      destruct pre as [|g pre]; injection Heq as <- ->.
      * cbn in Hf. congruence.
      * inversion Hpre; subst. cbn in *. congruence.
    + destruct (blank content) eqn:Hb; cbn [negb].
      * rewrite IH. split.
        -- intros H pre f post Heq Hpre Hf. destruct pre as [|g pre]; injection Heq as <- ->.
           ++ done.
           ++ inversion Hpre; subst. by eapply H.
        -- intros H pre f post -> Hpre Hf.
           apply (H ((file, content) :: pre) f post); [done | by constructor | done].
      * split; [done|]. intros H.
        rewrite <- Hb. apply (H [] (file, content) rest); done.
Qed.

Lemma isProjectEmpty_lines projectName (projects : SessionLog.Projects) :
  isProjectEmpty projectName projects = true
  <-> forall files f, projects !! projectName = Some files -> readBy files f ->
        SessionLog.nonBlankLines f.2 = [].
Proof.
  unfold isProjectEmpty, readBy. destruct (projects !! projectName) as [files|].
  - rewrite noContent_read. split.
    + intros H ? f [= <-] (pre & post & Heq & Hpre & Hf).
      apply blank_nonBlankLines. by eapply H.
    + intros H pre f post Heq Hpre Hf. apply blank_nonBlankLines.
      apply (H files f eq_refl). by exists pre, post.
  - split; [by intros _ files f [=]|done].
Qed.

Section Deleting.

Variable pathExists : string -> bool.
Variable readJson : string -> option json.

(** X19: [deleteProject] succeeds exactly when [isProjectEmpty] answers
    true, that is when none of the [.jsonl] files of the project's
    directory that it reads has a non-blank line; it reads them in the
    order of the listing up to the first one that cannot be read, where
    it stops and answers true, as it does for a project without a
    directory.  On success the configuration entry of the alias is gone,
    so the project is no longer listed as manually added, every other
    alias is untouched, and the directory is gone when [rm] succeeded;
    when [rm] failed the call succeeds all the same and the directory
    holds what [rm] left.  On failure the error is that of existing
    sessions and nothing changes. *)
Theorem deleteProject_cases projectName (projects : SessionLog.Projects)
    (config : ProjectConfig) :
  let r := deleteProject projectName projects config in
  (r.1.1 = SessionLog.Resolved
   <-> forall files f, projects !! projectName = Some files -> readBy files f ->
         SessionLog.nonBlankLines f.2 = [])
  /\ (r.1.1 = SessionLog.Resolved ->
      r.2 !! projectName = None
      /\ getManuallyAddedProjects pathExists readJson r.2 !! projectName = None
      /\ (forall other, other ≠ projectName ->
            r.1.2 !! other = projects !! other /\ r.2 !! other = config !! other)
      /\ r.1.2 !! projectName = projects !! projectName ≫= afterRm)
  /\ (r.1.1 ≠ SessionLog.Resolved ->
      r = (SessionLog.Rejected "Cannot delete project with existing sessions",
           projects, config)).
Proof.
  intros r. subst r. rewrite <- isProjectEmpty_lines. unfold deleteProject.
  destruct (isProjectEmpty projectName projects) eqn:He; cbn [negb fst snd].
  - split; [done|]. split; [|done]. intros _.
    split; [apply lookup_delete_eq|].
    split; [unfold getManuallyAddedProjects; by rewrite map_lookup_imap, lookup_delete_eq|].
    split.
    + intros other Hne. rewrite lookup_delete_ne by done. split; [|done].
      destruct (projects !! projectName) as [files|]; [|done].
      destruct (afterRm files); [by rewrite lookup_insert_ne | by rewrite lookup_delete_ne].
    + destruct (projects !! projectName) as [files|] eqn:Hf; cbn; [|done].
      destruct (afterRm files); [by rewrite lookup_insert_eq | by rewrite lookup_delete_eq].
  - split; [done|]. split; [done|]. done.
Qed.

End Deleting.

Section ThenProject.

Import SessionLog.

Variable JSON_parse : string -> option json.

(** The projects directory after [deleteSession] was called for each of
    the session ids in turn. *)
Definition deleteSessions (projectName : string) (sids : list string)
    (projects : Projects) : Projects :=
  foldl (fun ps sid => (deleteSession JSON_parse projectName sid ps).2) projects sids.

Lemma nonBlankLines_rewritten sid (f : string * string) :
  isJsonl f.1 = true ->
  nonBlankLines (rewritten JSON_parse sid f).2
  = filteredLines JSON_parse sid (nonBlankLines f.2).
Proof.
  intros Hj. unfold rewritten, contains. rewrite Hj. cbn [andb snd].
  destruct (hasSession JSON_parse sid (nonBlankLines f.2)) eqn:Hs.
  - apply AfterDelete.nonBlankLines_newContent, AfterDelete.filteredLines_facts,
      AfterDelete.nonBlankLines_facts.
  - symmetry. apply forallb_filter_id, forallb_forall. intros x Hx%list_elem_of_In.
    apply negb_true_iff. by eapply AfterDelete.hasSession_false.
Qed.

Lemma deleteSessions_lookup projectName sids (projects : Projects) files :
  projects !! projectName = Some files ->
  deleteSessions projectName sids projects !! projectName
  = Some (map (fun f => foldl (fun f sid => rewritten JSON_parse sid f) f sids) files).
Proof.
  unfold deleteSessions. revert projects files.
  induction sids as [|sid sids IH]; intros projects files Hf.
  - cbn [foldl]. by rewrite List.map_id.
  - cbn [foldl]. rewrite AfterDelete.deleteSession_after, Hf.
    erewrite IH by apply lookup_insert_eq. by rewrite List.map_map.
Qed.

Lemma rewritten_all_name sids (f : string * string) :
  (foldl (fun f sid => rewritten JSON_parse sid f) f sids).1 = f.1.
Proof.
  revert f. induction sids as [|sid sids IH]; intros f; [done|].
  cbn [foldl]. by rewrite IH.
Qed.

Lemma nonBlankLines_rewritten_all sids (f : string * string) :
  isJsonl f.1 = true ->
  nonBlankLines (foldl (fun f sid => rewritten JSON_parse sid f) f sids).2
  = foldl (fun ls sid => filteredLines JSON_parse sid ls) (nonBlankLines f.2) sids.
Proof.
  revert f. induction sids as [|sid sids IH]; intros f Hj; [done|].
  cbn [foldl]. rewrite IH by done. by rewrite nonBlankLines_rewritten.
Qed.

Lemma filteredLines_all_nil sids (ls : list string) :
  foldl (fun ls sid => filteredLines JSON_parse sid ls) ls sids = []
  <-> forall line, line ∈ ls ->
        exists sid, sid ∈ sids /\ lineOfSession JSON_parse sid line = Some true.
Proof.
  revert ls. induction sids as [|sid sids IH]; intros ls.
  - cbn [foldl]. split.
    + intros -> line Hin. by apply elem_of_nil in Hin.
    + intros H. destruct ls as [|l ls]; [done|].
      destruct (H l) as (sid & Hsid & _); [by left|]. by apply elem_of_nil in Hsid.
  - cbn [foldl]. rewrite IH. unfold filteredLines at 1. split.
    + intros H line Hin.
      destruct (lineOfSession JSON_parse sid line) as [[]|] eqn:Hl.
      * exists sid. split; [by left | done].
      * destruct (H line) as (s & Hs & Hline).
        { apply list_elem_of_In, filter_In. split; [by apply list_elem_of_In|].
          by rewrite Hl. }
        exists s. split; [by right | done].
      * destruct (H line) as (s & Hs & Hline).
        { apply list_elem_of_In, filter_In. split; [by apply list_elem_of_In|].
          by rewrite Hl. }
        exists s. split; [by right | done].
    + intros H line [Hin Hkeep]%list_elem_of_In%filter_In.
      destruct (H line) as (s & Hs & Hline); [by apply list_elem_of_In|].
      apply elem_of_cons in Hs as [->|Hs]; [|by exists s].
      rewrite Hline in Hkeep. discriminate Hkeep.
Qed.

(** X20: for a project whose [.jsonl] files can all be read, after
    [deleteSession] was called for a list of session ids the project can
    be deleted exactly when every non-blank line of its [.jsonl] files
    parsed to a record of one of those sessions.  One line that does not
    parse is kept by every rewrite, so it keeps the project undeletable
    whatever sessions are deleted. *)
Theorem sessions_then_project projectName sids (projects : Projects) files
    (config : ProjectConfig) :
  projects !! projectName = Some files ->
  (forall f, f ∈ files -> isJsonl f.1 = true -> unreadable f.1 = false) ->
  let after := deleteSessions projectName sids projects in
  ((deleteProject projectName after config).1.1 = Resolved
   <-> forall f line, f ∈ files -> isJsonl f.1 = true -> line ∈ nonBlankLines f.2 ->
         exists sid, sid ∈ sids /\ lineOfSession JSON_parse sid line = Some true)
  /\ (forall f line, f ∈ files -> isJsonl f.1 = true -> line ∈ nonBlankLines f.2 ->
        JSON_parse line = None ->
        deleteProject projectName after config
        = (Rejected "Cannot delete project with existing sessions", after, config)).
Proof.
  intros Hf Hread after.
  set (files' := map (fun f => foldl (fun f sid => rewritten JSON_parse sid f) f sids) files).
  assert (Hafter : after !! projectName = Some files').
  { subst after files'. by apply deleteSessions_lookup. }
  assert (Hreadable : forall g, In g (List.filter (fun f => isJsonl f.1) files') ->
                        unreadable g.1 = false).
  { intros g [Hg Hj]%filter_In. apply in_map_iff in Hg as (f & <- & Hin).
    rewrite rewritten_all_name in *. apply Hread; [by apply list_elem_of_In | done]. }
  assert (HreadBy : forall g, readBy files' g <-> g ∈ files' /\ isJsonl g.1 = true).
  { intros g. unfold readBy. split.
    - intros (pre & post & Heq & _ & _).
      assert (Hg : In g (List.filter (fun f => isJsonl f.1) files')).
      { rewrite Heq. apply in_or_app. right. by left. }
      apply filter_In in Hg as [Hg Hj]. split; [by apply list_elem_of_In | done].
    - intros [Hg Hj].
      assert (Hin : In g (List.filter (fun f => isJsonl f.1) files')).
      { apply filter_In. split; [by apply list_elem_of_In | done]. }
      destruct (in_split _ _ Hin) as (pre & post & Heq). exists pre, post.
      split; [done|]. split.
      + apply list.Forall_forall. intros x Hx. apply Hreadable. rewrite Heq.
        apply in_or_app. left. by apply list_elem_of_In.
      + by apply Hreadable. }
  assert (Hiff : isProjectEmpty projectName after = true
            <-> forall f line, f ∈ files -> isJsonl f.1 = true -> line ∈ nonBlankLines f.2 ->
                  exists sid, sid ∈ sids /\ lineOfSession JSON_parse sid line = Some true).
  { rewrite isProjectEmpty_lines. rewrite Hafter. split.
    - intros H f line Hin Hj Hline.
      apply (filteredLines_all_nil sids (nonBlankLines f.2)); [|done].
      rewrite <- nonBlankLines_rewritten_all by done.
      apply (H files' _ eq_refl). apply HreadBy. split; [|by rewrite rewritten_all_name].
      apply list_elem_of_In. apply list_elem_of_In in Hin.
      exact (in_map (fun f => foldl (fun f sid => rewritten JSON_parse sid f) f sids)
               files f Hin).
    - intros H ? f' [= <-] [Hin Hj]%HreadBy.
      apply list_elem_of_In, in_map_iff in Hin as (f & <- & Hin).
      rewrite rewritten_all_name in Hj. rewrite nonBlankLines_rewritten_all by done.
      apply filteredLines_all_nil. intros line Hline. apply (H f line); [|done..].
      by apply list_elem_of_In. }
  split.
  - rewrite <- Hiff. unfold deleteProject.
    by destruct (isProjectEmpty projectName after).
  - intros f line Hin Hj Hline Hparse. unfold deleteProject.
    destruct (isProjectEmpty projectName after) eqn:He; [|done].
    destruct Hiff as [Hall _].
    destruct (Hall eq_refl f line Hin Hj Hline) as (sid & _ & Hsid).
    unfold lineOfSession in Hsid. rewrite Hparse in Hsid. discriminate Hsid.
Qed.

End ThenProject.

End Removal.

Definition allReadable (file : string) : bool := false.
Definition rmSucceeds (files : SessionLog.Directory) : option SessionLog.Directory := None.

(** Both sessions of the sample log deleted, the project can go. *)
Example sessions_then_project_witness :
  (deleteProject allReadable rmSucceeds "-p"
     (deleteSessions SessionMessages.logParse "-p" ["s"; "t"] SessionMessages.sampleProjects)
     ∅).1.1 = SessionLog.Resolved.
Proof.
  apply (sessions_then_project allReadable rmSucceeds SessionMessages.logParse "-p"
           ["s"; "t"] SessionMessages.sampleProjects
           [("a.jsonl", SessionMessages.sampleLog)] ∅).
  - reflexivity.
  - reflexivity.
  - intros f line ->%list_elem_of_singleton _ Hline.
    vm_compute in Hline.
    repeat (apply elem_of_cons in Hline as [->|Hline]);
      [exists "s" | exists "t" | exists "s" | exists "s" | by apply elem_of_nil in Hline];
      (split; [set_solver | vm_compute; reflexivity]).
Defined.

(** *** The directory of a project alias *)

Section Aliases.

Variable JSON_parse : string -> option json.
Variable Date_getTime : json -> option Z.

Lemma decode_encode (p : string) :
  Discovery.decodeAlias (encodeAlias p) = p <-> sepFree "-"%char p = true.
Proof.
  unfold Discovery.decodeAlias, encodeAlias. induction p as [|c p IH]; [done|].
  cbn [replace_char sepFree]. rewrite andb_true_iff, <- IH, negb_true_iff.
  destruct (Ascii.eqb_spec c "/"%char) as [->|Hs].
  - cbn. split; [by intros [= ->] | by intros [_ ->]].
  - destruct (Ascii.eqb_spec c "-"%char) as [->|Hh].
    + split; [by intros [= ?] | by intros [? _]].
    + split; [by intros [= ->] | by intros [_ ->]].
Qed.

(** X21: the alias of an absolute path decodes to that path exactly
    when the path has no hyphen, and the decoded alias is what
    [extractProjectDirectory] answers, and caches, for an alias without
    a log directory or without a [.jsonl] file in it: a manually added
    project whose path has a hyphen is resolved to another directory. *)
Theorem alias_round_trip (absolutePath : string)
    (projects : gmap string (list (string * string))) (cache : gmap string json) :
  let alias := encodeAlias absolutePath in
  let r := Discovery.extractProjectDirectory JSON_parse Date_getTime alias projects cache in
  (Discovery.decodeAlias alias = absolutePath <-> sepFree "-"%char absolutePath = true)
  /\ (cache !! alias = None ->
      (forall files, projects !! alias = Some files ->
         Forall (fun f => SessionLog.isJsonl f.1 = false) files) ->
      r = (JStr (Discovery.decodeAlias alias),
           <[alias := JStr (Discovery.decodeAlias alias)]> cache)
      /\ (r.1 = JStr absolutePath <-> sepFree "-"%char absolutePath = true)).
Proof.
  intros alias r. split; [apply decode_encode|]. intros Hcache Hfiles.
  assert (Hr : r = (JStr (Discovery.decodeAlias alias),
                    <[alias := JStr (Discovery.decodeAlias alias)]> cache)).
  { subst r. unfold Discovery.extractProjectDirectory. rewrite Hcache.
    destruct (projects !! alias) as [files|] eqn:Hp; [|done].
    assert (Hnil : List.filter (fun f : string * string => SessionLog.isJsonl f.1) files = []).
    { specialize (Hfiles files eq_refl). clear Hp.
      induction Hfiles as [|f fs Hf _ IH]; [done|].
      cbn [List.filter]. by rewrite Hf. }
    by rewrite Hnil. }
  split; [done|]. rewrite Hr. cbn [fst]. rewrite <- decode_encode. subst alias.
  split; [by intros [= ?] | by intros ->].
Qed.

(** X22: [extractProjectDirectory] answers from its cache once it has
    answered: a second call for the alias returns the first answer and
    leaves the cache as it is, whatever the log files have become. *)
Theorem directory_cache_is_kept (projectName : string)
    (projects projects' : gmap string (list (string * string)))
    (cache : gmap string json) :
  let first := Discovery.extractProjectDirectory JSON_parse Date_getTime
                 projectName projects cache in
  Discovery.extractProjectDirectory JSON_parse Date_getTime projectName projects' first.2
  = first
  /\ (forall other, other ≠ projectName -> first.2 !! other = cache !! other)
  /\ first.2 !! projectName = Some first.1.
Proof.
  intros first. subst first. unfold Discovery.extractProjectDirectory.
  destruct (cache !! projectName) as [cached|] eqn:Hc; cbn [fst snd].
  - by rewrite Hc.
  - rewrite lookup_insert_eq. split; [done|]. split; [|done].
    intros other Hne. by rewrite lookup_insert_ne.
Qed.

End Aliases.

Definition anyPath (p : string) : bool := true.
Definition noJson (p : string) : option json := None.

Example rename_then_listed_witness :
  getManuallyAddedProjects anyPath noJson
    (renameProject "-tmp-p" " " manualConfig) !! "-tmp-p" = None.
Proof.
  assert (H : getManuallyAddedProjects anyPath noJson manualConfig !! "-tmp-p"
              = Some (mkManual "-tmp-p" "/tmp/p" "/tmp/p" (JStr "P") true true))
    by (vm_compute; reflexivity).
  by apply (rename_then_listed anyPath noJson "-tmp-p" " " manualConfig _ H).
Defined.

(** [/srv/my-app] is added; [/srv/my/app] has the same alias. *)
Example alias_collision_witness :
  addProjectManually anyPath noJson "/" "/srv/my/app" None
    (<["-srv-my-app" := mkEntry (Some true) (Some "/srv/my-app") None]> ∅)
  = AddThrown "Project already configured for path: /srv/my/app".
Proof.
  apply (alias_collision anyPath noJson "/" "/srv/my-app" "/srv/my/app" None None ∅
           (mkManual "-srv-my-app" "/srv/my-app" "/srv/my-app" (JStr "my-app") true false)).
  - vm_compute. reflexivity.
  - reflexivity.
  - reflexivity.
  - reflexivity.
Defined.

Example add_then_listed_witness :
  getManuallyAddedProjects anyPath noJson
    (<["-srv-app" := mkEntry (Some true) (Some "/srv/app") None]> ∅) !! "-srv-app"
  = Some (mkManual "-srv-app" "/srv/app" "/srv/app" (JStr "app") true false).
Proof.
  apply (add_then_listed anyPath noJson "/" "/srv/app" None ∅
           (mkManual "-srv-app" "/srv/app" "/srv/app" (JStr "app") true false)).
  vm_compute. reflexivity.
Defined.

End Registry.

